(** * TopDeckParser: a shallow embedding of [main.py]

    The program reads a decklist, queries one search page per card, reads the
    seller/price table of each page, keeps the lowest unit price per seller
    and card, and prints a ranked report.

    Conventions of the embedding.
    - A Python [str] is the list of its code points, each a number in [N].
      White space ([str.strip], [str.isspace], the regex class [\s]) is the
      fixed set of CPython.  The decimal digits ([\d], [int()], [float()])
      and the lower-case mapping ([str.lower]) are those of ASCII below 128;
      beyond, they are tables of the Unicode database the interpreter was
      built with, which the program does not contain: they are fields of a
      [Platform], and every definition that reads one takes the platform as
      a parameter.
    - A Python [float] is a binary64 number: Rocq's primitive [float].
      How [sum()] adds floats differs between versions of CPython and is
      a field of the [Platform] as well.
    - A Python [int] is a [Z].  The interpreter's limit on the number of
      digits [int()] converts is a field of the [Platform] too.
    - A [dict] is an association list in insertion order with unique keys.
    - An exception is a value of [exn]; a computation that may raise returns
      a [result].
    - BeautifulSoup and Playwright are outside the repository: a page enters
      the model as the rows, cells and texts the CSS selectors of
      [parse_single_card_table] pick out of it, and the fetcher is a function
      that gives, for the number of the request and its URL, the page or
      nothing.  The decklist enters as the lines the open file yields,
      followed by the error that stopped the reading, if any.
    - Of what the program prints, the model keeps the loader's diagnostics
      and the report (as records: the number formats are left out); the
      progress lines and the pause between two requests are left out. *)

From Stdlib Require Import String Ascii List ZArith NArith Bool Lia Floats.
From Stdlib Require Import Sorted Permutation.
From Equations Require Import Equations.
Import ListNotations.

(** A character is its code point. *)
Abbreviation char := N (only parsing).

Definition str := list char.

(** An ASCII character of this file as a code point. *)
Definition chr (a : ascii) : char := N_of_ascii a.
Coercion chr : ascii >-> N.
Arguments chr : simpl never.

(** The code points of a well-formed UTF-8 byte sequence. *)
Fixpoint utf8_decode (bs : list N) : str :=
  match bs with
  | [] => []
  | b0 :: t =>
      if (b0 <? 128)%N then b0 :: utf8_decode t
      else if (b0 <? 224)%N then
        match t with
        | b1 :: t' => ((b0 - 192) * 64 + (b1 - 128))%N :: utf8_decode t'
        | _ => []
        end
      else if (b0 <? 240)%N then
        match t with
        | b1 :: b2 :: t' =>
            ((b0 - 224) * 4096 + (b1 - 128) * 64 + (b2 - 128))%N :: utf8_decode t'
        | _ => []
        end
      else
        match t with
        | b1 :: b2 :: b3 :: t' =>
            ((b0 - 240) * 262144 + (b1 - 128) * 4096 + (b2 - 128) * 64 + (b3 - 128))%N
            :: utf8_decode t'
        | _ => []
        end
  end.

(** The UTF-8 bytes of a code point. *)
Definition utf8_encode (c : char) : list N :=
  if (c <? 128)%N then [c]
  else if (c <? 2048)%N then [192 + c / 64; 128 + c mod 64]%N
  else if (c <? 65536)%N then
    [224 + c / 4096; 128 + (c / 64) mod 64; 128 + c mod 64]%N
  else
    [240 + c / 262144; 128 + (c / 4096) mod 64; 128 + (c / 64) mod 64; 128 + c mod 64]%N.

(** A string literal of this file (UTF-8) as a [str]. *)
Definition lit (s : string) : str :=
  utf8_decode (map N_of_ascii (list_ascii_of_string s)).

(* ===================================================================== *)
(** * The platform                                                        *)
(* ===================================================================== *)

(** The value of a decimal digit. *)
Inductive digit := D0 | D1 | D2 | D3 | D4 | D5 | D6 | D7 | D8 | D9.

Definition digit_val (d : digit) : Z :=
  match d with
  | D0 => 0 | D1 => 1 | D2 => 2 | D3 => 3 | D4 => 4
  | D5 => 5 | D6 => 6 | D7 => 7 | D8 => 8 | D9 => 9
  end%Z.

(** What the program takes from the interpreter that runs it and that
    differs from one interpreter to the next.
    - [decimal_beyond_ascii c]: the value of the code point [c >= 128] as
      a decimal digit (Unicode category Nd), if it is one; this is what
      [\d] matches and what [int()] and [float()] read beyond ASCII.
    - [lower_beyond_ascii s]: [s.lower()] for a text [s] that holds a
      character beyond ASCII.
    - [int_max_str_digits]: [sys.get_int_max_str_digits()], the longest
      run of digits [int()] converts; 0 when there is no limit (4300
      unless the interpreter was configured otherwise).
    - [compensated_sum]: whether [sum()] over floats keeps the rounding
      errors apart and adds them at the end (CPython 3.12 and later) or
      adds from the left only. *)
Class Platform := {
  decimal_beyond_ascii : char -> option digit;
  lower_beyond_ascii : str -> str;
  int_max_str_digits : nat;
  compensated_sum : bool
}.

(* ===================================================================== *)
(** * Python strings                                                      *)
(* ===================================================================== *)

Module PyStr.
Local Open Scope N_scope.

(** [str.isspace], the characters [str.strip()] removes and the regex
    class [\s]: TAB, LF, VT, FF, CR, the separators FS, GS, RS, US, SPACE,
    NEL, the no-break space, the Ogham space mark, the spaces U+2000 to
    U+200A, the line and paragraph separators, the narrow no-break space,
    the medium mathematical space and the ideographic space. *)
Definition is_space (c : char) : bool :=
  (9 <=? c) && (c <=? 13) || (28 <=? c) && (c <=? 32)
  || (c =? 133) || (c =? 160) || (c =? 5760)
  || (8192 <=? c) && (c <=? 8202)
  || (c =? 8232) || (c =? 8233) || (c =? 8239) || (c =? 8287) || (c =? 12288).

(** The white space [int()] and [float()] skip around an ASCII numeral:
    C's [isspace]. *)
Definition is_c_space (c : char) : bool :=
  (9 <=? c) && (c <=? 13) || (c =? 32).

Definition is_ascii (c : char) : bool := c <? 128.

Definition is_ascii_digit (c : char) : bool := (48 <=? c) && (c <=? 57).

Definition ascii_digit_value (c : char) : Z := (Z.of_N c - 48)%Z.

(** The regex [.] (no DOTALL flag): anything but a line feed. *)
Definition is_dot (c : char) : bool := negb (c =? 10).

(** The lower-case mapping of ASCII. *)
Definition lower_ascii (c : char) : char :=
  if (65 <=? c) && (c <=? 90) then c + 32 else c.

Section Tables.
Context {Py : Platform}.

(** The value of a character as a decimal digit.  The table is read for
    the characters beyond ASCII that are not white space: [int()] and
    [float()] test for white space first, and no white-space character is
    a decimal digit in the Unicode database. *)
Definition decimal (c : char) : option Z :=
  if is_ascii_digit c then Some (ascii_digit_value c)
  else if is_ascii c then None
  else if is_space c then None
  else option_map digit_val (decimal_beyond_ascii c).

(** The regex class [\d]. *)
Definition is_digit (c : char) : bool :=
  match decimal c with Some _ => true | None => false end.

Definition digit_value (c : char) : Z :=
  match decimal c with Some d => d | None => 0%Z end.

(** [str.lower] *)
Definition lower (s : str) : str :=
  if forallb is_ascii s then map lower_ascii s else lower_beyond_ascii s.

End Tables.

Fixpoint drop_while (p : char -> bool) (s : str) : str :=
  match s with
  | [] => []
  | c :: t => if p c then drop_while p t else s
  end.

Fixpoint take_while (p : char -> bool) (s : str) : str :=
  match s with
  | [] => []
  | c :: t => if p c then c :: take_while p t else []
  end.

(** Both ends of [s] without the characters of the class [p]. *)
Definition strip_of (p : char -> bool) (s : str) : str :=
  rev (drop_while p (rev (drop_while p s))).

(** [str.strip()] *)
Definition strip (s : str) : str := strip_of is_space s.

Fixpoint eqb (a b : str) : bool :=
  match a, b with
  | [], [] => true
  | x :: a', y :: b' => N.eqb x y && eqb a' b'
  | _, _ => false
  end.

(** [s.startswith(p)]; on a match, what follows the prefix. *)
Fixpoint strip_prefix (p s : str) : option str :=
  match p, s with
  | [], _ => Some s
  | x :: p', y :: s' => if N.eqb x y then strip_prefix p' s' else None
  | _ :: _, [] => None
  end.

Definition startswith (p s : str) : bool :=
  match strip_prefix p s with Some _ => true | None => false end.

(** [s.replace(old, new)] for a non-empty [old]: the occurrences of [old]
    are replaced from left to right, without overlap.  [skip] counts the
    characters of the current occurrence still to be dropped. *)
Fixpoint replace_from (old new : str) (skip : nat) (s : str) : str :=
  match s with
  | [] => []
  | c :: t =>
      match skip with
      | S k => replace_from old new k t
      | O => if startswith old s
             then new ++ replace_from old new (length old - 1) t
             else c :: replace_from old new 0 t
      end
  end.

Definition replace (old new s : str) : str := replace_from old new 0 s.

End PyStr.

(* ===================================================================== *)
(** * The name normalizer                                                 *)
(* ===================================================================== *)

(** One attempt of the regex [\s*//.*] at the head of [s]; on a match, what
    follows it.  The white-space run is taken whole: a shorter run would
    leave a white-space character where the first slash must stand. *)
Definition alt_face_match (s : str) : option str :=
  match PyStr.drop_while PyStr.is_space s with
  | a :: b :: t =>
      if N.eqb a "/"%char && N.eqb b "/"%char
      then Some (PyStr.drop_while PyStr.is_dot t)
      else None
  | _ => None
  end.

Lemma drop_while_length (p : char -> bool) (s : str) :
  length (PyStr.drop_while p s) <= length s.
Proof.
  induction s as [|c t IH]; simpl; [lia|].
  destruct (p c); simpl; lia.
Qed.

Lemma alt_face_match_shorter (s rest : str) :
  alt_face_match s = Some rest -> length rest < length s.
Proof.
  unfold alt_face_match. intros H.
  pose proof (drop_while_length PyStr.is_space s) as Hs.
  destruct (PyStr.drop_while PyStr.is_space s) as [|a [|b t]]; try discriminate.
  pose proof (drop_while_length PyStr.is_dot t) as Ht.
  destruct (N.eqb a "/"%char && N.eqb b "/"%char); [|discriminate].
  injection H as <-. simpl in Hs. lia.
Qed.

(** A value together with the equation that names it, for the termination
    argument below. *)
Definition inspect {A : Type} (a : A) : {b : A | a = b} := exist _ a eq_refl.

(** [re.sub(r'\s*//.*', '', s)] (line 23): scan from the left; at a match
    drop it and go on after it, otherwise keep the character. *)
Equations? sub_alt_face (s : str) : str by wf (length s) lt :=
  sub_alt_face [] := [];
  sub_alt_face (c :: t) with inspect (alt_face_match (c :: t)) := {
    | exist _ (Some rest) e := sub_alt_face rest;
    | exist _ None _ := c :: sub_alt_face t }.
Proof.
  exact (alt_face_match_shorter (c :: t) rest e).
Qed.

(** [re.sub(r'\s+', ' ', s)] (line 24): every maximal run of white space
    becomes one space. *)
Equations? sub_spaces (s : str) : str by wf (length s) lt :=
  sub_spaces [] := [];
  sub_spaces (c :: t) with PyStr.is_space c := {
    | true := chr " " :: sub_spaces (PyStr.drop_while PyStr.is_space t);
    | false := c :: sub_spaces t }.
Proof.
  pose proof (drop_while_length PyStr.is_space t). simpl. lia.
Qed.

(** [normalize_card_name] (lines 21-25) *)
Definition normalize_card_name {Py : Platform} (name : str) : str :=
  let name := PyStr.strip name in
  let name := sub_alt_face name in
  let name := sub_spaces name in
  PyStr.lower name.

(* ===================================================================== *)
(** * Exceptions, [int()], [float()] and float arithmetic                 *)
(* ===================================================================== *)

(** The exceptions of the program: those of the conversions and of the
    division, and those of reading the decklist (a file that is not UTF-8
    text; a path that cannot be read). *)
Inductive exn :=
| ValueError | OverflowError | ZeroDivisionError
| UnicodeDecodeError | OSError.

Inductive result (A : Type) : Type :=
| Ok (a : A)
| Raise (e : exn).
Arguments Ok {A} a.
Arguments Raise {A} e.

Definition bind {A B : Type} (m : result A) (k : A -> result B) : result B :=
  match m with
  | Ok a => k a
  | Raise e => Raise e
  end.

Notation "x <- m ;; k" := (bind m (fun x => k))
  (at level 61, m at next level, right associativity).

Module PyNum.
Import PyStr.
Local Open Scope Z_scope.

(** The digits of [digit (["_"] digit)*] after the first one, [acc] being
    the value read so far. *)
Fixpoint digits_tail (acc : Z) (s : str) : option Z :=
  match s with
  | [] => Some acc
  | c :: t =>
      if is_ascii_digit c then digits_tail (10 * acc + ascii_digit_value c) t
      else if N.eqb c "_"%char then
        match t with
        | d :: u => if is_ascii_digit d
                    then digits_tail (10 * acc + ascii_digit_value d) u
                    else None
        | [] => None
        end
      else None
  end.

Definition digits (s : str) : option Z :=
  match s with
  | c :: t => if is_ascii_digit c then digits_tail (ascii_digit_value c) t else None
  | [] => None
  end.

(** An optional sign: whether it is a minus, and what follows it. *)
Definition split_sign (s : str) : bool * str :=
  match s with
  | c :: t => if N.eqb c "-"%char then (true, t)
              else if N.eqb c "+"%char then (false, t)
              else (false, s)
  | [] => (false, [])
  end.

(** The number of digits of a numeral, underscores apart. *)
Definition count_digits (s : str) : nat := length (filter is_ascii_digit s).

Section Conversions.
Context {Py : Platform}.

(** What [int()] and [float()] first do to a text that holds a character
    beyond ASCII: a white-space character becomes a space and a decimal
    digit the ASCII digit of its value; at the first other character
    beyond ASCII the text ends on a question mark.  A text of ASCII
    characters is taken as it is. *)
Fixpoint transform (s : str) : str :=
  match s with
  | [] => []
  | c :: t =>
      if (c <? 127)%N then c :: transform t
      else if is_space c then chr " " :: transform t
      else match decimal c with
           | Some d => (48 + Z.to_N d)%N :: transform t
           | None => [chr "?"]
           end
  end.

Definition to_ascii (s : str) : str :=
  if forallb is_ascii s then s else transform s.

(** Whether a numeral of [n] digits is beyond the limit of [int()]: the
    limit is looked at for more than 640 digits only. *)
Definition over_limit (n : nat) : bool :=
  (640 <? n)%nat && (0 <? int_max_str_digits)%nat && (int_max_str_digits <? n)%nat.

(** [int(s)] in base ten, first on ASCII text: surrounding white space, a
    sign, digits with single underscores between them; anything else, and
    a numeral of more digits than the limit, raises ValueError. *)
Definition int_of_ascii (s : str) : result Z :=
  let (neg, body) := split_sign (strip_of is_c_space s) in
  match digits body with
  | Some n =>
      if over_limit (count_digits body) then Raise ValueError
      else Ok (if neg then - n else n)
  | None => Raise ValueError
  end.

Definition int_of_str (s : str) : result Z := int_of_ascii (to_ascii s).

End Conversions.

(** The binary64 number nearest to [m * 10 ^ e] (ties to even; beyond the
    range, an infinity), with the sign [neg]; [m] is not negative. *)
Definition of_decimal (neg : bool) (m e : Z) : float :=
  if 0 <=? e then
    SF2Prim (binary_normalize prec emax (cond_Zopp neg (m * 10 ^ e)) 0 neg)
  else
    let '(q, e2, l) := SFdiv_core_binary prec emax m 0 (10 ^ (- e)) 0 in
    SF2Prim (binary_round_aux prec emax neg q e2 l).

(** [float()] drops an underscore that stands between two digits and
    refuses any other; [prev] is the character before [s]. *)
Fixpoint drop_underscores (prev : char) (s : str) : option str :=
  match s with
  | [] => if N.eqb prev "_"%char then None else Some []
  | c :: t =>
      if N.eqb c "_"%char then
        if is_ascii_digit prev then drop_underscores c t else None
      else if N.eqb prev "_"%char && negb (is_ascii_digit c) then None
      else option_map (cons c) (drop_underscores c t)
  end.

(** The value of a run of ASCII digits. *)
Definition value_of_ascii_digits (ds : str) : Z :=
  fold_left (fun acc c => 10 * acc + ascii_digit_value c) ds 0.

(** The value of a run of decimal digits. *)
Definition value_of_digits {Py : Platform} (ds : str) : Z :=
  fold_left (fun acc c => 10 * acc + digit_value c) ds 0.

(** An exponent [(e|E) [sign] digit+] that ends the text, or no text. *)
Definition exponent (s : str) : option Z :=
  match s with
  | [] => Some 0
  | c :: t =>
      if N.eqb (lower_ascii c) "e"%char then
        let (neg, ds) := split_sign t in
        match ds with
        | [] => None
        | _ :: _ =>
            if forallb is_ascii_digit ds
            then Some (cond_Zopp neg (value_of_ascii_digits ds))
            else None
        end
      else None
  end.

(** A decimal numeral [digit* [. digit*]] with at least one digit, then
    an optional exponent. *)
Definition decimal_numeral (neg : bool) (s : str) : option float :=
  let ip := take_while is_ascii_digit s in
  let r := drop_while is_ascii_digit s in
  let (fp, r') :=
    match r with
    | c :: t => if N.eqb c "."%char
                then (take_while is_ascii_digit t, drop_while is_ascii_digit t)
                else ([], r)
    | [] => ([], [])
    end in
  match ip ++ fp with
  | [] => None
  | _ :: _ =>
      match exponent r' with
      | Some ex => Some (of_decimal neg (value_of_ascii_digits (ip ++ fp))
                                    (ex - Z.of_nat (length fp)))
      | None => None
      end
  end.

(** [float(s)]; [None] stands for ValueError, the only exception it
    raises on a string.  Besides decimal numerals it reads "inf",
    "infinity" and "nan" in any case, signed or not. *)
Definition float_of_str {Py : Platform} (s : str) : option float :=
  match drop_underscores 0%N (strip_of is_c_space (to_ascii s)) with
  | None => None
  | Some s' =>
      let (neg, body) := split_sign s' in
      let word := map lower_ascii body in
      if eqb word (lit "inf") || eqb word (lit "infinity")
      then Some (if neg then neg_infinity else infinity)
      else if eqb word (lit "nan") then Some nan
      else decimal_numeral neg body
  end.

(** The conversion of an [int] operand to [float]: the nearest binary64
    number, OverflowError when there is none. *)
Definition float_of_int (z : Z) : result float :=
  match binary_normalize prec emax z 0 false with
  | S754_infinity _ => Raise OverflowError
  | f => Ok (SF2Prim f)
  end.

(** [a / b] for a [float] [a] and an [int] [b]. *)
Definition truediv (a : float) (b : Z) : result float :=
  b' <- float_of_int b ;;
  if PrimFloat.eqb b' zero then Raise ZeroDivisionError
  else Ok (PrimFloat.div a b').

(** [min(a, b)]: [b] when [b < a], else [a]. *)
Definition min (a b : float) : float :=
  if PrimFloat.ltb b a then b else a.

(** [sum(xs)] over floats, as CPython adds them up to version 3.11: from
    the left, starting from zero. *)
Definition sum_plain (xs : list float) : float :=
  fold_left PrimFloat.add xs zero.

(** One step of Neumaier's summation: the new total and the rounding
    errors so far. *)
Definition neumaier_step (acc : float * float) (x : float) : float * float :=
  let (total, c) := acc in
  let t := PrimFloat.add total x in
  if PrimFloat.leb (PrimFloat.abs x) (PrimFloat.abs total)
  then (t, PrimFloat.add c (PrimFloat.add (PrimFloat.sub total t) x))
  else (t, PrimFloat.add c (PrimFloat.add (PrimFloat.sub x t) total)).

(** [sum(xs)] over floats from CPython 3.12 on: the first float is added
    to the integer zero, the others by Neumaier's summation, and the
    rounding errors are added at the end when they are finite and not
    zero. *)
Definition sum_compensated (xs : list float) : float :=
  match xs with
  | [] => zero
  | x :: rest =>
      let (total, c) := fold_left neumaier_step rest (PrimFloat.add zero x, zero) in
      if negb (PrimFloat.eqb c zero) && is_finite c
      then PrimFloat.add total c
      else total
  end.

(** [sum(xs)] *)
Definition sum {Py : Platform} (xs : list float) : float :=
  if compensated_sum then sum_compensated xs else sum_plain xs.

End PyNum.

(* ===================================================================== *)
(** * Dictionaries with string keys                                       *)
(* ===================================================================== *)

Module Dict.

Definition t (V : Type) := list (str * V).

Fixpoint get {V : Type} (d : t V) (k : str) : option V :=
  match d with
  | [] => None
  | (k', v) :: d' => if PyStr.eqb k' k then Some v else get d' k
  end.

Definition mem {V : Type} (d : t V) (k : str) : bool :=
  match get d k with Some _ => true | None => false end.

(** [d[k] = v]: in place when the key is there, else at the end. *)
Fixpoint set {V : Type} (d : t V) (k : str) (v : V) : t V :=
  match d with
  | [] => [(k, v)]
  | (k', v') :: d' =>
      if PyStr.eqb k' k then (k', v) :: d' else (k', v') :: set d' k v
  end.

(** Reading [d[k]] from a [defaultdict]: a missing key is first stored
    with the default. *)
Definition setdefault {V : Type} (d : t V) (k : str) (dflt : V) : t V * V :=
  match get d k with
  | Some v => (d, v)
  | None => (set d k dflt, dflt)
  end.

Definition keys {V : Type} (d : t V) : list str := map fst d.
Definition values {V : Type} (d : t V) : list V := map snd d.

End Dict.

(* ===================================================================== *)
(** * The decklist loader                                                 *)
(* ===================================================================== *)

Section Program.
Context {Py : Platform}.

Record card := {
  qty : Z;
  name : str;
  normalized : str;
  set_code : str
}.

Inductive diagnostic :=
| FileNotFound
| Unrecognized (line : str).

(** The end of the text as [$] sees it: the very end, or a final line feed. *)
Definition at_end (s : str) : bool :=
  match s with
  | [] => true
  | [c] => N.eqb c 10%N
  | _ => false
  end.

(** The tail [(?:\s*\(([^)]+)\))?$] of the line pattern at the head of [s]:
    [Some (Some code)] with the set group, [Some None] without it, [None]
    when neither way reaches the end.  The group is tried first. *)
Definition set_tail (s : str) : option (option str) :=
  let not_close := fun c => negb (N.eqb c ")"%char) in
  let with_group :=
    match PyStr.drop_while PyStr.is_space s with
    | c :: u =>
        if N.eqb c "("%char then
          match PyStr.take_while not_close u, PyStr.drop_while not_close u with
          | (_ :: _) as code, _ :: w => if at_end w then Some code else None
          | _, _ => None
          end
        else None
    | [] => None
    end in
  match with_group with
  | Some code => Some (Some code)
  | None => if at_end s then Some None else None
  end.

(** The lazy group [(.+?)] followed by the tail: the shortest non-empty
    prefix of [s], free of line feeds, after which the tail matches.
    [acc] holds, reversed, the characters the group already took. *)
Fixpoint lazy_name (acc : str) (s : str) : option (str * option str) :=
  match s with
  | [] => None
  | c :: t =>
      if PyStr.is_dot c then
        match set_tail t with
        | Some g => Some (rev (c :: acc), g)
        | None => lazy_name (c :: acc) t
        end
      else None
  end.

(** Backtracking of the greedy [\s+]: when the rest of the pattern fails
    after the whole run, the run gives back its last character, and so on
    down to one character.  [given] holds, reversed, the characters of the
    run that may still be given back. *)
Fixpoint backtrack_spaces (given : str) (s : str) : option (str * option str) :=
  match lazy_name [] s with
  | Some r => Some r
  | None =>
      match given with
      | [] => None
      | c :: more => backtrack_spaces more (c :: s)
      end
  end.

(** [re.match(r'^(\d+)[xX]?\s+(.+?)(?:\s*\(([^)]+)\))?$', s)]: the three
    groups.  The digits and the optional letter are taken greedily and
    never given back: fewer digits leave a digit, and a kept [x] leaves an
    [x], where [\s+] needs white space. *)
Definition line_match (s : str) : option (str * str * option str) :=
  match PyStr.take_while PyStr.is_digit s with
  | [] => None
  | (_ :: _) as ds =>
      let r := PyStr.drop_while PyStr.is_digit s in
      let r :=
        match r with
        | c :: t => if N.eqb (PyStr.lower_ascii c) "x"%char then t else r
        | [] => r
        end in
      match PyStr.take_while PyStr.is_space r with
      | [] => None
      | _ :: ws =>
          match backtrack_spaces (rev ws) (PyStr.drop_while PyStr.is_space r) with
          | Some (nm, g) => Some (ds, nm, g)
          | None => None
          end
      end
  end.

Definition is_comment (line : str) : bool :=
  PyStr.startswith (lit "#") line || PyStr.startswith (lit "//") line.

(** One turn of the loop of [load_decklist] over the lines of the file
    (lines 36-54). *)
Definition load_line (line : str) (acc : list card * list diagnostic)
  : result (list card * list diagnostic) :=
  let (deck, diags) := acc in
  let line := PyStr.strip line in
  match line with
  | [] => Ok acc
  | _ :: _ =>
      if is_comment line then Ok acc
      else
        match line_match (PyStr.strip line) with
        | Some (q, nm, g) =>
            q <- PyNum.int_of_str q ;;
            let sc := PyStr.lower (PyStr.strip (match g with Some c => c | None => [] end)) in
            Ok (deck ++ [{| qty := q;
                            name := PyStr.strip nm;
                            normalized := normalize_card_name nm;
                            set_code := sc |}],
                diags)
        | None => Ok (deck, diags ++ [Unrecognized line])
        end
  end.

Fixpoint load_lines (lines : list str) (acc : list card * list diagnostic)
  : result (list card * list diagnostic) :=
  match lines with
  | [] => Ok acc
  | l :: ls => acc' <- load_line l acc ;; load_lines ls acc'
  end.

(** The decklist as the loader finds it: no file at the path, or the
    lines the open file yields and, when the reading stops on an error
    (bytes that are not UTF-8, a path that is a directory), the exception
    raised after them. *)
Inductive decklist_file :=
| NoFile
| File (lines : list str) (failure : option exn).

(** [load_decklist] (lines 28-56) *)
Definition load_decklist (file : decklist_file)
  : result (list card * list diagnostic) :=
  match file with
  | NoFile => Ok ([], [FileNotFound])
  | File lines failure =>
      loaded <- load_lines lines ([], []) ;;
      match failure with
      | None => Ok loaded
      | Some e => Raise e
      end
  end.

(* ===================================================================== *)
(** * The table parser                                                    *)
(* ===================================================================== *)

(** A [td] as the parser looks at it. *)
Record cell := {
  span_qty : option str;  (** text of the first [span[data-bind='text: qty']] in it *)
  text : str;             (** [get_text(strip=True)] of the cell *)
  anchor : option str     (** [get_text(strip=True)] of the first [a] in it *)
}.

(** A [tr]: its [td]s. *)
Definition row := list cell.

(** An HTML text: empty, or markup in which [table.js-singles-search] is
    absent or has the rows [tbody tr]. *)
Inductive html :=
| EmptyHtml
| Markup (table : option (list row)).

(** The currency marker [р.] (Cyrillic er, full stop). *)
Definition rouble : str := lit "р.".

(** [price / qty if qty > 0 else price] (line 136) *)
Definition price_per_unit (price : float) (qty : Z) : result float :=
  if (0 <? qty)%Z then PyNum.truediv price qty else Ok price.

(** [int(qty_span.get_text(strip=True)) if qty_span else 1] (lines 118-119) *)
Definition row_quantity (td0 : cell) : result Z :=
  match span_qty td0 with
  | Some t => PyNum.int_of_str t
  | None => Ok 1%Z
  end.

(** The price cell (lines 122-127): the currency marker dropped, the text
    trimmed and read by [float()]; [None] when [float()] raises ValueError. *)
Definition row_price (td1 : cell) : option float :=
  PyNum.float_of_str (PyStr.strip (PyStr.replace rouble [] (text td1))).

(** The loop body over the rows up to the unit price (lines 113-136): the
    seller and the unit price the row offers; [None] stands for
    [continue]. *)
Definition row_offer (r : row) : result (option (str * float)) :=
  match r with
  | td0 :: td1 :: td2 :: _ :: _ =>
      q <- row_quantity td0 ;;
      match row_price td1 with
      | None => Ok None
      | Some price =>
          match anchor td2 with
          | None => Ok None
          | Some seller =>
              ppu <- price_per_unit price q ;;
              Ok (Some (seller, ppu))
          end
      end
  | _ => Ok None
  end.

(** The last line of the loop body (line 138):
    [seller_to_min_price[seller] = min(seller_to_min_price[seller], price_per_unit)]
    on a [defaultdict] whose default is infinity. *)
Definition record_offer (acc : Dict.t float) (offer : str * float) : Dict.t float :=
  let (seller, ppu) := offer in
  let (acc1, cur) := Dict.setdefault acc seller infinity in
  Dict.set acc1 seller (PyNum.min cur ppu).

(** One turn of the loop over the rows; [acc] is [seller_to_min_price]. *)
Definition parse_row (acc : Dict.t float) (r : row) : result (Dict.t float) :=
  o <- row_offer r ;;
  match o with
  | Some offer => Ok (record_offer acc offer)
  | None => Ok acc
  end.

Fixpoint parse_rows (acc : Dict.t float) (rows : list row) : result (Dict.t float) :=
  match rows with
  | [] => Ok acc
  | r :: rs => acc' <- parse_row acc r ;; parse_rows acc' rs
  end.

(** [parse_single_card_table] (lines 95-140), without its diagnostics. *)
Definition parse_single_card_table (h : html) : result (Dict.t float) :=
  match h with
  | EmptyHtml => Ok []
  | Markup None => Ok []
  | Markup (Some rows) => parse_rows [] rows
  end.

(* ===================================================================== *)
(** * The aggregator and the report                                       *)
(* ===================================================================== *)

Definition search_url : str :=
  lit "https://topdeck.ru/apps/toptrade/singles/search?q=".

Definition query (c : card) : str :=
  match set_code c with
  | [] => name c
  | _ :: _ => name c ++ lit " (" ++ set_code c ++ lit ")"
  end.

(** The URL of a card (lines 157-161). *)
Definition url (c : card) : str :=
  search_url ++ PyStr.replace (lit " ") (lit "+") (query c).

(** [seller_data]: seller, then normalized card name, then price. *)
Definition seller_data := Dict.t (Dict.t float).

(** One turn of the loop over [prices.items()] (lines 174-177). *)
Definition fold_offer (norm_name : str) (sd : seller_data) (offer : str * float)
  : seller_data :=
  let (seller, price) := offer in
  let (sd1, cards) := Dict.setdefault sd seller [] in
  match Dict.get cards norm_name with
  | None => Dict.set sd1 seller (Dict.set cards norm_name price)
  | Some stored =>
      if PrimFloat.ltb price stored
      then Dict.set sd1 seller (Dict.set cards norm_name price)
      else sd1
  end.

Definition fold_prices (norm_name : str) (prices : Dict.t float) (sd : seller_data)
  : seller_data :=
  fold_left (fold_offer norm_name) prices sd.

(** One turn of the loop over the deck (lines 154-180), without its
    progress lines and its pause. *)
Definition process_card (fetch : str -> option html) (sd : seller_data) (c : card)
  : result seller_data :=
  match fetch (url c) with
  | None | Some EmptyHtml => Ok sd
  | Some h =>
      prices <- parse_single_card_table h ;;
      match prices with
      | [] => Ok sd
      | _ :: _ => Ok (fold_prices (normalized c) prices sd)
      end
  end.

(** The loop over the deck; [fetch i] answers the request number [i]. *)
Fixpoint process_deck (fetch : nat -> str -> option html) (i : nat)
    (sd : seller_data) (deck : list card) : result seller_data :=
  match deck with
  | [] => Ok sd
  | c :: cs => sd' <- process_card (fetch i) sd c ;; process_deck fetch (S i) sd' cs
  end.

(** [sorted(l, key=key)]: a stable sort that compares keys with [<] only,
    here by insertion from the right.  On keys that [<] orders totally (the
    sizes of the sellers' dictionaries; the floats other than NaN) every
    stable sort returns the same list. *)
Section Sorted.
Context {A K : Type} (lt : K -> K -> bool) (key : A -> K).

Fixpoint insert (x : A) (l : list A) : list A :=
  match l with
  | [] => [x]
  | y :: l' => if lt (key y) (key x) then y :: insert x l' else x :: l
  end.

Definition sorted (l : list A) : list A := fold_right insert [] l.

(** [sorted(l, key=key, reverse=True)]: reverse, sort, reverse. *)
Definition sorted_reverse (l : list A) : list A := rev (sorted (rev l)).
End Sorted.

(** A block of the detail report: the seller, the number of cards, and the
    card lines. *)
Record block := {
  block_seller : str;
  block_count : nat;
  block_cards : list (str * float)
}.

(** A line of the coverage summary. *)
Record summary_line := {
  sum_seller : str;
  sum_covered : nat;
  sum_total : float
}.

Record report := {
  console_detail : list block;
  console_summary : list summary_line;
  file_detail : list block
}.

(** [sorted(seller_data.items(), key=lambda x: len(x[1]), reverse=True)] *)
Definition ranked (sd : seller_data) : list (str * Dict.t float) :=
  sorted_reverse Nat.ltb (fun x => length (snd x)) sd.

(** [sorted(cards.items(), key=lambda x: x[1])] *)
Definition by_price (cards : Dict.t float) : list (str * float) :=
  sorted PrimFloat.ltb snd cards.

(** The detail, on the console (lines 191-194) and in the file (lines
    212-216). *)
Definition detail (sd : seller_data) : list block :=
  map (fun x => {| block_seller := fst x;
                   block_count := length (snd x);
                   block_cards := by_price (snd x) |}) (ranked sd).

(** The coverage summary (lines 202-206). *)
Definition summary (sd : seller_data) : list summary_line :=
  flat_map (fun x =>
              let covered := length (snd x) in
              if (1 <=? covered)%nat
              then [{| sum_seller := fst x;
                       sum_covered := covered;
                       sum_total := PyNum.sum (Dict.values (snd x)) |}]
              else []) (ranked sd).

Definition make_report (sd : seller_data) : report :=
  {| console_detail := detail sd;
     console_summary := summary sd;
     file_detail := detail sd |}.

Inductive outcome :=
| EmptyDeck (diags : list diagnostic)
| Reported (diags : list diagnostic) (r : report).

(** [main] (lines 143-218): the decklist, the loop over the deck, the
    report. *)
Definition main (file : decklist_file) (fetch : nat -> str -> option html)
  : result outcome :=
  loaded <- load_decklist file ;;
  let (deck, diags) := loaded in
  match deck with
  | [] => Ok (EmptyDeck diags)
  | _ :: _ =>
      sd <- process_deck fetch 0 [] deck ;;
      Ok (Reported diags (make_report sd))
  end.

(* ===================================================================== *)
(** * The vocabulary of the properties                                    *)
(* ===================================================================== *)

(** ** Shapes of strings *)

(** The first character, if any, is not white space. *)
Definition starts_clean (s : str) : bool :=
  match s with
  | c :: _ => negb (PyStr.is_space c)
  | [] => true
  end.

(** The last character, if any, is not white space. *)
Definition ends_clean (s : str) : bool := starts_clean (rev s).

(** No two slashes in a row. *)
Fixpoint no_slashes (s : str) : bool :=
  match s with
  | a :: t =>
      match t with
      | b :: _ => negb (N.eqb a "/"%char && N.eqb b "/"%char) && no_slashes t
      | [] => true
      end
  | [] => true
  end.

(** Whether the text begins with a slash. *)
Definition slash_head (s : str) : bool :=
  match s with c :: _ => N.eqb c "/"%char | [] => false end.

(** Every white-space character is a space, and what follows it is not
    white space. *)
Fixpoint single_spaced (s : str) : bool :=
  match s with
  | c :: t =>
      (negb (PyStr.is_space c) || (N.eqb c " "%char && starts_clean t))
      && single_spaced t
  | [] => true
  end.

(** The text is one line: it holds no line feed. *)
Definition no_line_feed (s : str) : bool := forallb PyStr.is_dot s.

(** What a normalized name looks like. *)
Definition normal_form (s : str) : Prop :=
  starts_clean s = true /\ ends_clean s = true /\ no_slashes s = true /\
  single_spaced s = true /\ PyStr.lower s = s.

(** ** The lower-case mapping *)

(** Neither white space nor a slash. *)
Definition is_plain (c : char) : bool :=
  negb (PyStr.is_space c || N.eqb c "/"%char).

(** What one character becomes in lower case: a white-space character and
    a slash stay as they are; any other character becomes one or more
    characters, none of them white space or a slash. *)
Definition lower_piece (c : char) (p : str) : Prop :=
  if is_plain c then p <> [] /\ forallb is_plain p = true else p = [c].

(** The facts of the Unicode database that the properties of [str.lower]
    rest on, for the texts that hold a character beyond ASCII: lower case
    is formed character by character, as [lower_piece] says, and a text in
    lower case is left as it is. *)
Record case_facts : Prop := {
  lower_by_pieces :
    forall s, forallb PyStr.is_ascii s = false ->
              exists ps, lower_beyond_ascii s = concat ps /\ Forall2 lower_piece s ps;
  lower_twice :
    forall s, forallb PyStr.is_ascii s = false ->
              PyStr.lower (lower_beyond_ascii s) = lower_beyond_ascii s
}.

(** ** The loader *)

Definition quantities_ok (acc : list card * list diagnostic) : Prop :=
  Forall (fun c => (0 <= qty c)%Z) (fst acc).

(** The ASCII digit of the value of a decimal digit. *)
Definition ascii_of_digit (c : char) : char := (48 + Z.to_N (PyStr.digit_value c))%N.

(** ** The URL *)

(** What [query.replace(' ', '+')] does to one character. *)
Definition plus_for_space (c : char) : char :=
  if N.eqb c " "%char then chr "+" else c.

(** URL encoding of a query parameter, as the specification words it, in
    the form of [urllib.parse.quote_plus]: letters, digits and [_.-~]
    stand for themselves, a space becomes [+], any other character becomes
    [%XX] for each byte of its UTF-8 form. *)
Definition is_unreserved (c : char) : bool :=
  ((48 <=? c) && (c <=? 57) || (65 <=? c) && (c <=? 90) || (97 <=? c) && (c <=? 122)
   || (c =? 45) || (c =? 46) || (c =? 95) || (c =? 126))%N.

Definition hex_digit (n : N) : char :=
  if (n <? 10)%N then (48 + n)%N else (55 + n)%N.

Definition quote_char (c : char) : str :=
  if is_unreserved c then [c]
  else if N.eqb c " "%char then [chr "+"]
  else flat_map (fun b => [chr "%"; hex_digit (b / 16); hex_digit (b mod 16)])
                (utf8_encode c).

Definition quote_plus (s : str) : str := flat_map quote_char s.

(** ** Prices seen and prices stored *)

(** The price stored for a seller and a card. *)
Definition lookup (sd : seller_data) (seller norm_name : str) : option float :=
  match Dict.get sd seller with
  | Some cards => Dict.get cards norm_name
  | None => None
  end.

(** Folding the parse results of several cards, each with its normalized
    name, one after the other. *)
Definition fold_all (h : list (str * Dict.t float)) (sd : seller_data) : seller_data :=
  fold_left (fun sd x => fold_prices (fst x) (snd x) sd) h sd.

(** The prices a list of offers holds for a seller, in order. *)
Definition prices_of (seller : str) (offers : list (str * float)) : list float :=
  map snd (filter (fun o => PyStr.eqb (fst o) seller) offers).

(** The unit prices folded so far for a seller and a card, oldest first. *)
Definition seen (h : list (str * Dict.t float)) (seller norm_name : str) : list float :=
  flat_map (fun x => if PyStr.eqb (fst x) norm_name then prices_of seller (snd x) else []) h.

(** The lowest of a list of prices as the program computes it: the first
    one, replaced by each later one that is strictly lower. *)
Definition running_min (l : list float) : option float :=
  match l with
  | [] => None
  | p :: l' => Some (fold_left PyNum.min l' p)
  end.

(** A stored price, or none, after more prices were folded in. *)
Definition extend (cur : option float) (l : list float) : option float :=
  match cur with
  | Some v => Some (fold_left PyNum.min l v)
  | None => running_min l
  end.

(** What [seller_to_min_price[seller]] reads. *)
Definition from_default (cur : option float) : float :=
  match cur with Some v => v | None => infinity end.

(** The offers of the rows of a table, in order; an exception of a row is
    the exception of the table. *)
Fixpoint row_offers (rows : list row) : result (list (str * float)) :=
  match rows with
  | [] => Ok []
  | r :: rs =>
      o <- row_offer r ;;
      os <- row_offers rs ;;
      Ok (match o with Some x => x :: os | None => os end)
  end.

Definition page_rows (h : html) : list row :=
  match h with
  | Markup (Some rows) => rows
  | _ => []
  end.

(** The unit prices a page offers for a seller, row after row: those of
    the rows that reach the last line of the loop body. *)
Definition seller_units (h : html) (seller : str) : list float :=
  match row_offers (page_rows h) with
  | Ok os => prices_of seller os
  | Raise _ => []
  end.

(** What one card adds to the run: its parsed prices, or nothing when the
    page could not be loaded or offers nothing. *)
Definition card_prices (fetch : str -> option html) (c : card)
  : result (option (Dict.t float)) :=
  match fetch (url c) with
  | None | Some EmptyHtml => Ok None
  | Some h =>
      prices <- parse_single_card_table h ;;
      Ok (match prices with [] => None | _ :: _ => Some prices end)
  end.

(** The folds of a run over a deck, in order, from the request number
    [i] on. *)
Fixpoint history (fetch : nat -> str -> option html) (i : nat) (deck : list card)
  : result (list (str * Dict.t float)) :=
  match deck with
  | [] => Ok []
  | c :: cs =>
      o <- card_prices (fetch i) c ;;
      rest <- history fetch (S i) cs ;;
      Ok (match o with Some prices => (normalized c, prices) :: rest | None => rest end)
  end.

(** No stored price is NaN. *)
Definition prices_ok (sd : seller_data) : Prop :=
  Forall (fun x => Forall (fun o => is_nan (snd o) = false) (snd x)) sd.

(** ** Sample inputs *)

(** A row of four cells: quantity text, price text, seller. *)
Definition sample_row (q : option str) (price : str) (seller : option str) : row :=
  [ {| span_qty := q; text := []; anchor := None |};
    {| span_qty := None; text := price; anchor := None |};
    {| span_qty := None; text := []; anchor := seller |};
    {| span_qty := None; text := []; anchor := None |} ].

Definition sample_page (rows : list row) : html := Markup (Some rows).

Definition card_a : str := lit "brainstorm".
Definition seller_a : str := lit "A".

(** Seller A twice on one page, at 100 and at 80. *)
Definition page_a_80 : html :=
  sample_page [sample_row (Some (lit "1")) (lit "100 р.") (Some seller_a);
               sample_row (Some (lit "1")) (lit "80 р.") (Some seller_a)].

Definition one_card : list card :=
  [{| qty := 1; name := lit "Brainstorm"; normalized := card_a; set_code := [] |}].

(** Seller A twice: one copy at 100, two copies at 150. *)
Definition two_rows_of_a : html :=
  sample_page [sample_row (Some (lit "1")) (lit "100") (Some seller_a);
               sample_row (Some (lit "2")) (lit "150") (Some seller_a)].

(** A good row, then a row whose quantity text is [x]. *)
Definition good_row_then_bad_quantity : html :=
  sample_page [sample_row (Some (lit "1")) (lit "100") (Some seller_a);
               sample_row (Some (lit "x")) (lit "150") (Some seller_a)].

(** One row whose quantity element holds the text [abc]. *)
Definition bad_quantity_page : html :=
  sample_page [sample_row (Some (lit "abc")) (lit "100 р.") (Some seller_a)].

(** The same row without the quantity element. *)
Definition no_quantity_page : html :=
  sample_page [sample_row None (lit "100 р.") (Some seller_a)].

Definition counterspell_file : decklist_file := File [lit "1 Counterspell"] None.

(** One row whose price text is [nan]. *)
Definition nan_price_page : html :=
  sample_page [sample_row (Some (lit "1")) (lit "nan") (Some seller_a)].

(** Two lines: [//a], a line feed, [b]. *)
Definition two_lines : str := lit "//a" ++ [10%N] ++ lit "b".

Definition secret_lair : card :=
  {| qty := 1; name := lit "R&D's Secret Lair";
     normalized := lit "r&d's secret lair"; set_code := [] |}.

(** A page on which seller X offers one copy at the given price. *)
Definition page_of_x (price : str) : html :=
  sample_page [sample_row (Some (lit "1")) price (Some (lit "X"))].

Definition two_card_file : decklist_file :=
  File [lit "1 Counterspell"; lit "1 Brainstorm"] None.

(** X sells Counterspell at 50 and every other card at 30. *)
Definition two_card_fetch (i : nat) (u : str) : option html :=
  if PyStr.eqb u (search_url ++ lit "Counterspell")
  then Some (page_of_x (lit "50 р."))
  else Some (page_of_x (lit "30 р.")).

Definition block_of_x : block :=
  {| block_seller := lit "X"; block_count := 2;
     block_cards := [(lit "brainstorm", 30%float); (lit "counterspell", 50%float)] |}.

(** ** More vocabulary: the loader *)

(** A line that is neither blank nor a comment. *)
Definition meaningful (line : str) : bool :=
  match PyStr.strip line with
  | [] => false
  | (_ :: _) as s => negb (is_comment s)
  end.

(** The text of a set code in parentheses after a gap of white space, or
    nothing. *)
Definition set_suffix (tail : option (str * str)) : str :=
  match tail with
  | Some (gap, code) => gap ++ lit "(" ++ code ++ lit ")"
  | None => []
  end.

(** A line of the decklist grammar: digits, an optional letter x, white
    space, a name, an optional set code. *)
Definition decklist_line (q x ws nm : str) (tail : option (str * str)) : str :=
  q ++ x ++ ws ++ nm ++ set_suffix tail.

(** The letter after the quantity: none, [x] or [X]. *)
Definition is_times (x : str) : bool :=
  match x with
  | [] => true
  | [c] => N.eqb (PyStr.lower_ascii c) "x"%char
  | _ => false
  end.

(** The character is not an opening parenthesis. *)
Definition not_open (c : char) : bool := negb (N.eqb c "("%char).

(** The character is not a closing parenthesis. *)
Definition not_close (c : char) : bool := negb (N.eqb c ")"%char).

(** A CardRequest as the loader builds it from the groups of a line. *)
Definition card_of_groups (q nm : str) (g : option str) (n : Z) : card :=
  {| qty := n;
     name := PyStr.strip nm;
     normalized := normalize_card_name nm;
     set_code := PyStr.lower (PyStr.strip (match g with Some c => c | None => [] end)) |}.

(** ** More vocabulary: the normalizer *)

(** [s] without the white space at its end. *)
Definition rstrip (s : str) : str :=
  rev (PyStr.drop_while PyStr.is_space (rev s)).

(** A name followed by an alternate face: the name, a gap of white space,
    two slashes and the other face. *)
Definition with_alt_face (s gap face : str) : str :=
  s ++ gap ++ lit "//" ++ face.

(** ** More vocabulary: the table parser *)

(** The names of a list, each at its first place only. *)
Fixpoint first_seen (l : list str) : list str :=
  match l with
  | [] => []
  | k :: l' => k :: filter (fun k' => negb (PyStr.eqb k k')) (first_seen l')
  end.

(** The row has no quantity element in its first cell. *)
Definition no_quantity_element (r : row) : Prop :=
  match r with
  | td0 :: _ => span_qty td0 = None
  | [] => True
  end.

(** ** More vocabulary: the aggregator and the run *)

(** A well-formed [seller_data] over the card names [names]: no seller
    twice, and for each seller at least one card, no card twice, and only
    cards of [names]. *)
Definition well_formed (names : list str) (sd : seller_data) : Prop :=
  NoDup (Dict.keys sd) /\
  Forall (fun x => snd x <> [] /\ NoDup (Dict.keys (snd x)) /\
                   incl (Dict.keys (snd x)) names) sd.

(** The answer of the fetcher has no row to parse: no page, an empty
    page, no results table, or a table without rows. *)
Definition no_table_rows (o : option html) : Prop :=
  match o with
  | Some (Markup (Some (_ :: _))) => False
  | _ => True
  end.

(** The line, once trimmed, does not begin with a digit. *)
Definition no_leading_digit (line : str) : Prop :=
  match PyStr.strip line with
  | c :: _ => PyStr.is_digit c = false
  | [] => True
  end.

Definition empty_report : report :=
  {| console_detail := []; console_summary := []; file_detail := [] |}.

(** The row has no price that [float()] reads, or no seller anchor, or
    not even the cells for them. *)
Definition offers_nothing (r : row) : Prop :=
  match r with
  | _ :: td1 :: td2 :: _ => row_price td1 = None \/ anchor td2 = None
  | _ => True
  end.

End Program.

(** Seller A at the price text [nan] for two copies, then seller B at 50. *)
Definition nan_then_fifty : html :=
  sample_page [sample_row (Some (lit "2")) (lit "nan") (Some seller_a);
               sample_row (Some (lit "1")) (lit "50") (Some (lit "B"))].

(** The platform of the sample inputs: CPython at its default limit of
    4300 digits; beyond ASCII no decimal digit and no change of case (the
    sample inputs hold no digit and no cased letter beyond ASCII). *)
Definition sample_platform : Platform :=
  {| decimal_beyond_ascii := fun _ => None;
     lower_beyond_ascii := map PyStr.lower_ascii;
     int_max_str_digits := 4300;
     compensated_sum := true |}.

(* ===================================================================== *)
(** * Lemmas                                                              *)
(* ===================================================================== *)

Module NormalizerFacts.
Import PyStr.

(** Facts about the character classes, by arithmetic on the code points. *)
Ltac literals :=
  repeat match goal with
  | |- context [chr ?a] =>
      let v := eval vm_compute in (chr a) in change (chr a) with v
  | H : context [chr ?a] |- _ =>
      let v := eval vm_compute in (chr a) in change (chr a) with v in H
  end.

Ltac as_props :=
  repeat progress
    (rewrite ?negb_true_iff, ?negb_false_iff, ?andb_true_iff, ?orb_true_iff,
       ?andb_false_iff, ?orb_false_iff, ?N.leb_le, ?N.leb_gt, ?N.eqb_eq, ?N.eqb_neq,
       ?N.ltb_lt, ?N.ltb_ge in *).

Ltac chars :=
  unfold is_plain, is_space, is_c_space, is_ascii, is_ascii_digit, is_dot in *;
  literals; as_props; lia.

Lemma slash_not_space c : N.eqb c "/"%char = true -> is_space c = false.
Proof. intros H. chars. Qed.

(** ** The two substitutions, one step at a time *)

Lemma sub_alt_face_none c t :
  alt_face_match (c :: t) = None -> sub_alt_face (c :: t) = c :: sub_alt_face t.
Proof.
  intros H. simp sub_alt_face.
  generalize (inspect (alt_face_match (c :: t))). intros [o e].
  destruct o as [rest|]; [congruence|]. reflexivity.
Qed.

Lemma sub_alt_face_some c t rest :
  alt_face_match (c :: t) = Some rest -> sub_alt_face (c :: t) = sub_alt_face rest.
Proof.
  intros H. simp sub_alt_face.
  generalize (inspect (alt_face_match (c :: t))). intros [o e].
  destruct o as [rest'|]; [|congruence].
  assert (rest' = rest) as -> by congruence. reflexivity.
Qed.

Lemma sub_spaces_space c t :
  is_space c = true ->
  sub_spaces (c :: t) = chr " " :: sub_spaces (drop_while is_space t).
Proof. intros H. simp sub_spaces. rewrite H. reflexivity. Qed.

Lemma sub_spaces_other c t :
  is_space c = false -> sub_spaces (c :: t) = c :: sub_spaces t.
Proof. intros H. simp sub_spaces. rewrite H. reflexivity. Qed.

(** ** Shapes of strings *)

Lemma no_slashes_cons a s :
  no_slashes (a :: s) =
  match s with
  | b :: _ => negb (N.eqb a "/"%char && N.eqb b "/"%char) && no_slashes s
  | [] => true
  end.
Proof. reflexivity. Qed.

Lemma ends_clean_cons c t :
  ends_clean (c :: t) = match t with [] => negb (is_space c) | _ :: _ => ends_clean t end.
Proof.
  unfold ends_clean. simpl.
  destruct t as [|d u]; [reflexivity|].
  destruct (rev (d :: u)) as [|x r] eqn:E; [|reflexivity].
  apply (f_equal (@length _)) in E. rewrite length_rev in E. discriminate.
Qed.

Lemma drop_while_clean s : starts_clean s = true -> drop_while is_space s = s.
Proof.
  destruct s as [|c t]; [reflexivity|]. simpl.
  destruct (is_space c); [discriminate|reflexivity].
Qed.

Lemma starts_clean_drop_while s : starts_clean (drop_while is_space s) = true.
Proof.
  induction s as [|c t IH]; [reflexivity|]. simpl.
  destruct (is_space c) eqn:E; [exact IH|]. simpl. now rewrite E.
Qed.

Lemma drop_while_suffix (p : char -> bool) s :
  exists u, s = u ++ drop_while p s /\ forallb p u = true.
Proof.
  induction s as [|c t [u [IH1 IH2]]]; [now exists []|]. simpl.
  destruct (p c) eqn:E.
  - exists (c :: u). simpl. rewrite E, IH2. split; [now f_equal|reflexivity].
  - now exists [].
Qed.

Lemma ends_clean_app u v : v <> [] -> ends_clean (u ++ v) = ends_clean v.
Proof.
  intros Hv. unfold ends_clean. rewrite rev_app_distr.
  destruct (rev v) as [|x r] eqn:E; [|reflexivity].
  apply (f_equal (@length _)) in E. rewrite length_rev in E.
  destruct v; [now elim Hv|discriminate].
Qed.

Lemma strip_clean s :
  starts_clean s = true -> ends_clean s = true -> strip s = s.
Proof.
  intros H1 H2. unfold strip, strip_of.
  rewrite (drop_while_clean s H1), (drop_while_clean (rev s) H2).
  apply rev_involutive.
Qed.

Lemma strip_ends_clean s : ends_clean (strip s) = true.
Proof.
  unfold ends_clean, strip, strip_of. rewrite rev_involutive.
  apply starts_clean_drop_while.
Qed.

Lemma strip_starts_clean s : starts_clean (strip s) = true.
Proof.
  unfold strip, strip_of.
  pose proof (starts_clean_drop_while s) as H.
  destruct (drop_while_suffix is_space (rev (drop_while is_space s))) as [u [E _]].
  apply (f_equal (@rev _)) in E. rewrite rev_involutive, rev_app_distr in E.
  destruct (rev (drop_while is_space (rev (drop_while is_space s)))) as [|c r];
    [reflexivity|].
  rewrite E in H. exact H.
Qed.

Lemma strip_no_line_feed s : no_line_feed s = true -> no_line_feed (strip s) = true.
Proof.
  unfold no_line_feed, strip, strip_of. intros H.
  destruct (drop_while_suffix is_space s) as [u [E _]].
  destruct (drop_while_suffix is_space (rev (drop_while is_space s))) as [v [F _]].
  apply (f_equal (@rev _)) in F. rewrite rev_involutive, rev_app_distr in F.
  rewrite E, F, !forallb_app in H.
  apply andb_true_iff in H as [_ H]. now apply andb_true_iff in H as [H _].
Qed.

(** ** The alternate-face suffix *)

Lemma no_slashes_tail c t : no_slashes (c :: t) = true -> no_slashes t = true.
Proof.
  simpl. destruct t; [reflexivity|]. intros H.
  now apply andb_true_iff in H as [_ H].
Qed.

Lemma no_slashes_drop_while p s :
  no_slashes s = true -> no_slashes (drop_while p s) = true.
Proof.
  induction s as [|c t IH]; [reflexivity|]. intros H. simpl.
  destruct (p c); [|exact H]. apply IH. now apply no_slashes_tail in H.
Qed.

Lemma no_slashes_no_match s : no_slashes s = true -> alt_face_match s = None.
Proof.
  intros H. unfold alt_face_match.
  apply (no_slashes_drop_while is_space) in H.
  destruct (drop_while is_space s) as [|a [|b t]]; try reflexivity.
  simpl in H. apply andb_true_iff in H as [H _].
  apply negb_true_iff in H. now rewrite H.
Qed.

Lemma sub_alt_face_fixed s : no_slashes s = true -> sub_alt_face s = s.
Proof.
  induction s as [|c t IH]; [reflexivity|]. intros H.
  rewrite sub_alt_face_none by now apply no_slashes_no_match.
  f_equal. apply IH. now apply no_slashes_tail in H.
Qed.

(** On one line, a match runs to the end. *)
Lemma alt_face_match_line s rest :
  no_line_feed s = true -> alt_face_match s = Some rest -> rest = [].
Proof.
  unfold alt_face_match, no_line_feed. intros H M.
  destruct (drop_while_suffix is_space s) as [u [E _]].
  rewrite E, forallb_app in H. apply andb_true_iff in H as [_ H].
  destruct (drop_while is_space s) as [|a [|b t]]; try discriminate.
  destruct (N.eqb a "/"%char && N.eqb b "/"%char); [|discriminate].
  injection M as <-. simpl in H.
  apply andb_true_iff in H as [_ H]. apply andb_true_iff in H as [_ H].
  clear - H. induction t as [|c t IH]; [reflexivity|]. simpl in *.
  apply andb_true_iff in H as [Hc H]. rewrite Hc. now apply IH.
Qed.

Lemma alt_face_match_skip c t :
  is_space c = true -> alt_face_match (c :: t) = alt_face_match t.
Proof. intros H. unfold alt_face_match. simpl. now rewrite H. Qed.

Lemma alt_face_match_slashes t :
  exists rest, alt_face_match (chr "/" :: chr "/" :: t) = Some rest.
Proof. unfold alt_face_match. simpl. eauto. Qed.

(** What [sub_alt_face] leaves of one line: a prefix, cut where the first
    match begins. *)
Lemma sub_alt_face_line s :
  no_line_feed s = true ->
  (sub_alt_face s = [] /\ (s = [] \/ exists r, alt_face_match s = Some r)) \/
  (exists c t, s = c :: t /\ alt_face_match s = None /\
               sub_alt_face s = c :: sub_alt_face t).
Proof.
  intros H. destruct s as [|c t]; [left; split; [reflexivity|now left]|].
  destruct (alt_face_match (c :: t)) as [rest|] eqn:M.
  - left. rewrite (sub_alt_face_some _ _ _ M).
    rewrite (alt_face_match_line _ _ H M). split; [reflexivity|]. right. eauto.
  - right. exists c, t. repeat split. now apply sub_alt_face_none.
Qed.

Lemma no_line_feed_tail c t : no_line_feed (c :: t) = true -> no_line_feed t = true.
Proof. unfold no_line_feed. simpl. intros H. now apply andb_true_iff in H as [_ H]. Qed.

Lemma sub_alt_face_head s c r :
  no_line_feed s = true -> sub_alt_face s = c :: r -> exists t, s = c :: t.
Proof.
  intros H E. destruct (sub_alt_face_line s H) as [[E' _]|[c' [t [-> [_ E']]]]].
  - congruence.
  - rewrite E' in E. injection E as -> _. eauto.
Qed.

Lemma sub_alt_face_no_slashes s :
  no_line_feed s = true -> no_slashes (sub_alt_face s) = true.
Proof.
  induction s as [|c t IH]; [reflexivity|]. intros H.
  pose proof (no_line_feed_tail _ _ H) as Ht.
  destruct (sub_alt_face_line _ H) as [[E _]|[c' [t' [E0 [M E]]]]].
  - now rewrite E.
  - injection E0 as <- <-. rewrite E, no_slashes_cons.
    specialize (IH Ht).
    destruct (sub_alt_face t) as [|b r] eqn:Et; [reflexivity|].
    rewrite IH, andb_true_r.
    destruct (sub_alt_face_head _ _ _ Ht Et) as [u ->].
    destruct (N.eqb_spec c "/"%char) as [->|]; [|reflexivity].
    destruct (N.eqb_spec b "/"%char) as [->|]; [|reflexivity].
    destruct (alt_face_match_slashes u) as [x Hx]. congruence.
Qed.

Lemma sub_alt_face_starts_clean s :
  no_line_feed s = true -> starts_clean s = true ->
  starts_clean (sub_alt_face s) = true.
Proof.
  intros H C. destruct (sub_alt_face_line _ H) as [[E _]|[c [t [-> [_ E]]]]].
  - now rewrite E.
  - rewrite E. exact C.
Qed.

Lemma sub_alt_face_ends_clean s :
  no_line_feed s = true -> ends_clean s = true ->
  ends_clean (sub_alt_face s) = true.
Proof.
  induction s as [|c t IH]; [reflexivity|]. intros H C.
  pose proof (no_line_feed_tail _ _ H) as Ht.
  destruct (sub_alt_face_line _ H) as [[E _]|[c' [t' [E0 [M E]]]]].
  - now rewrite E.
  - injection E0 as <- <-. rewrite E. rewrite ends_clean_cons in C |- *.
    destruct (sub_alt_face t) as [|b r] eqn:Et.
    + destruct t as [|d u]; [exact C|].
      destruct (is_space c) eqn:Sc; [|reflexivity].
      rewrite (alt_face_match_skip _ _ Sc) in M.
      destruct (sub_alt_face_line _ Ht) as [[_ [F|[x F]]]|[c' [t' [_ [_ F]]]]];
        congruence.
    + destruct t as [|d u].
      * rewrite sub_alt_face_equation_1 in Et. discriminate.
      * now apply IH.
Qed.

(** ** Runs of white space *)

Lemma sub_spaces_starts_clean s :
  starts_clean s = true -> starts_clean (sub_spaces s) = true.
Proof.
  destruct s as [|c t]; [reflexivity|]. simpl. intros H.
  apply negb_true_iff in H. rewrite (sub_spaces_other _ _ H). simpl. now rewrite H.
Qed.

Lemma sub_spaces_nil s : sub_spaces s = [] -> s = [].
Proof.
  destruct s as [|c t]; [reflexivity|].
  destruct (is_space c) eqn:E.
  - rewrite (sub_spaces_space _ _ E). discriminate.
  - rewrite (sub_spaces_other _ _ E). discriminate.
Qed.

(** Induction on the length, for functions that skip ahead. *)
Lemma str_length_ind (P : str -> Prop) :
  (forall s, (forall u, length u < length s -> P u) -> P s) -> forall s, P s.
Proof.
  intros step s. remember (length s) as n eqn:E. revert s E.
  induction n as [n IH] using lt_wf_ind. intros s ->.
  apply step. intros u Hu. exact (IH _ Hu u eq_refl).
Qed.

Lemma ends_clean_not_blank s :
  s <> [] -> forallb is_space s = true -> ends_clean s = false.
Proof.
  induction s as [|c t IH]; [now intros N|]. intros _ H. simpl in H.
  apply andb_true_iff in H as [Hc Ht]. rewrite ends_clean_cons.
  destruct t as [|d u]; [now rewrite Hc|]. now apply IH.
Qed.

Lemma ends_clean_drop_while c t :
  is_space c = true -> ends_clean (c :: t) = true ->
  drop_while is_space t <> [] /\ ends_clean (drop_while is_space t) = true.
Proof.
  intros Sc C. rewrite ends_clean_cons in C.
  destruct t as [|d u]; [rewrite Sc in C; discriminate|].
  destruct (drop_while_suffix is_space (d :: u)) as [v [E F]].
  destruct (drop_while is_space (d :: u)) as [|x r] eqn:D.
  - exfalso. rewrite app_nil_r in E. rewrite <- E in F.
    rewrite ends_clean_not_blank in C; [discriminate|discriminate|exact F].
  - split; [discriminate|]. rewrite E in C.
    rewrite ends_clean_app in C; [exact C|discriminate].
Qed.

Lemma sub_spaces_ends_clean s :
  ends_clean s = true -> ends_clean (sub_spaces s) = true.
Proof.
  induction s as [s IH] using str_length_ind. intros C.
  destruct s as [|c t]; [reflexivity|].
  destruct (is_space c) eqn:Sc.
  - rewrite (sub_spaces_space _ _ Sc).
    destruct (ends_clean_drop_while _ _ Sc C) as [N C'].
    pose proof (drop_while_length is_space t) as L.
    rewrite ends_clean_cons.
    destruct (sub_spaces (drop_while is_space t)) as [|x r] eqn:E.
    + apply sub_spaces_nil in E. contradiction.
    + rewrite <- E. apply IH; [simpl; lia|exact C'].
  - rewrite (sub_spaces_other _ _ Sc). rewrite ends_clean_cons in C |- *.
    destruct t as [|d u].
    + rewrite sub_spaces_equation_1. exact C.
    + destruct (sub_spaces (d :: u)) as [|x r] eqn:E.
      * apply sub_spaces_nil in E. discriminate.
      * rewrite <- E. apply IH; [simpl; lia|exact C].
Qed.

Lemma sub_spaces_head s c r :
  sub_spaces s = c :: r -> is_space c = false -> exists t, s = c :: t.
Proof.
  destruct s as [|d t]; [rewrite sub_spaces_equation_1; discriminate|].
  destruct (is_space d) eqn:Sd.
  - rewrite (sub_spaces_space _ _ Sd). intros E N. injection E as <- _. discriminate.
  - rewrite (sub_spaces_other _ _ Sd). intros E _. injection E as -> _. eauto.
Qed.

Lemma sub_spaces_no_slashes s :
  no_slashes s = true -> no_slashes (sub_spaces s) = true.
Proof.
  induction s as [s IH] using str_length_ind. intros C.
  destruct s as [|c t]; [reflexivity|].
  pose proof (no_slashes_tail _ _ C) as Ct.
  destruct (is_space c) eqn:Sc.
  - rewrite (sub_spaces_space _ _ Sc), no_slashes_cons.
    pose proof (drop_while_length is_space t) as L.
    destruct (sub_spaces (drop_while is_space t)) as [|x r] eqn:E; [reflexivity|].
    rewrite <- E. rewrite IH; [|simpl; lia|now apply no_slashes_drop_while].
    reflexivity.
  - rewrite (sub_spaces_other _ _ Sc), no_slashes_cons.
    destruct (sub_spaces t) as [|x r] eqn:E; [reflexivity|].
    rewrite <- E. rewrite IH; [|simpl; lia|exact Ct]. rewrite andb_true_r.
    destruct (N.eqb x "/"%char) eqn:X; [|now rewrite andb_false_r].
    destruct (sub_spaces_head _ _ _ E (slash_not_space _ X)) as [u ->].
    rewrite no_slashes_cons in C. apply andb_true_iff in C as [C _].
    now rewrite X in C.
Qed.

Lemma sub_spaces_single_spaced s : single_spaced (sub_spaces s) = true.
Proof.
  induction s as [s IH] using str_length_ind.
  destruct s as [|c t]; [reflexivity|].
  destruct (is_space c) eqn:Sc.
  - rewrite (sub_spaces_space _ _ Sc). simpl.
    pose proof (drop_while_length is_space t) as L.
    rewrite IH by (simpl; lia).
    rewrite sub_spaces_starts_clean by apply starts_clean_drop_while.
    reflexivity.
  - rewrite (sub_spaces_other _ _ Sc). simpl. rewrite Sc. simpl.
    apply IH. simpl; lia.
Qed.

Lemma sub_spaces_fixed s : single_spaced s = true -> sub_spaces s = s.
Proof.
  induction s as [|c t IH]; [reflexivity|]. simpl. intros H.
  apply andb_true_iff in H as [H Ht].
  destruct (is_space c) eqn:Sc; simpl in H.
  - apply andb_true_iff in H as [Hc Hs]. apply N.eqb_eq in Hc. subst c.
    rewrite (sub_spaces_space _ _ Sc), (drop_while_clean _ Hs). f_equal. now apply IH.
  - rewrite (sub_spaces_other _ _ Sc). f_equal. now apply IH.
Qed.

(** ** Lower case *)

Ltac by_lower :=
  unfold lower_ascii;
  repeat match goal with
  | |- context [if ?b then _ else _] => destruct b eqn:?
  end;
  try reflexivity; try (exfalso; chars); try chars.

Lemma lower_ascii_idem c : lower_ascii (lower_ascii c) = lower_ascii c.
Proof. by_lower. Qed.

Lemma lower_ascii_ascii c : is_ascii c = true -> is_ascii (lower_ascii c) = true.
Proof. intros H. by_lower. Qed.

Lemma lower_ascii_not_plain c : is_plain c = false -> lower_ascii c = c.
Proof. intros H. by_lower. Qed.

Lemma lower_ascii_plain c : is_plain c = true -> is_plain (lower_ascii c) = true.
Proof. intros H. by_lower. Qed.

Lemma plain_not_space c : is_plain c = true -> is_space c = false.
Proof. unfold is_plain. intros H. apply negb_true_iff, orb_false_iff in H. tauto. Qed.

Lemma plain_not_slash c : is_plain c = true -> N.eqb c "/"%char = false.
Proof. unfold is_plain. intros H. apply negb_true_iff, orb_false_iff in H. tauto. Qed.

Lemma map_lower_ascii s :
  forallb is_ascii s = true -> forallb is_ascii (map lower_ascii s) = true.
Proof.
  induction s as [|c t IH]; [reflexivity|]. cbn [forallb map]. intros H.
  apply andb_true_iff in H as [Hc H]. now rewrite (lower_ascii_ascii c Hc), IH.
Qed.

Lemma lower_piece_ascii c : lower_piece c [lower_ascii c].
Proof.
  unfold lower_piece. destruct (is_plain c) eqn:E.
  - split; [discriminate|]. cbn [forallb]. now rewrite (lower_ascii_plain c E).
  - now rewrite (lower_ascii_not_plain c E).
Qed.

Lemma map_by_pieces (s : str) :
  map lower_ascii s = concat (map (fun c => [lower_ascii c]) s) /\
  Forall2 lower_piece s (map (fun c => [lower_ascii c]) s).
Proof.
  induction s as [|c t [E F]]; [split; [reflexivity|constructor]|].
  cbn [map concat app]. split; [now rewrite <- E|].
  constructor; [apply lower_piece_ascii|exact F].
Qed.

(** ** Texts made of pieces *)

Lemma no_slashes_head c s :
  no_slashes (c :: s) = negb (N.eqb c "/"%char && slash_head s) && no_slashes s.
Proof. destruct s; [now rewrite andb_false_r|reflexivity]. Qed.

Lemma pieces_head s ps :
  Forall2 lower_piece s ps ->
  match s with
  | [] => concat ps = []
  | c :: _ => exists d r, concat ps = d :: r /\
                          is_space d = is_space c /\
                          N.eqb d "/"%char = N.eqb c "/"%char
  end.
Proof.
  intros [|c p t ps' H _]; [reflexivity|]. cbn [concat]. unfold lower_piece in H.
  destruct (is_plain c) eqn:E.
  - destruct H as [N A]. destruct p as [|d r]; [now elim N|].
    exists d, (r ++ concat ps'). split; [reflexivity|].
    cbn [forallb] in A. apply andb_true_iff in A as [A _].
    now rewrite (plain_not_space d A), (plain_not_space c E),
                (plain_not_slash d A), (plain_not_slash c E).
  - subst p. now exists c, (concat ps').
Qed.

Lemma pieces_starts_clean s ps :
  Forall2 lower_piece s ps -> starts_clean (concat ps) = starts_clean s.
Proof.
  intros H. apply pieces_head in H. destruct s as [|c t]; [now rewrite H|].
  destruct H as (d & r & -> & H & _). cbn [starts_clean]. now rewrite H.
Qed.

Lemma pieces_slash_head s ps :
  Forall2 lower_piece s ps -> slash_head (concat ps) = slash_head s.
Proof.
  intros H. apply pieces_head in H. destruct s as [|c t]; [now rewrite H|].
  now destruct H as (d & r & -> & _ & H).
Qed.

Lemma pieces_nil s ps : Forall2 lower_piece s ps -> concat ps = [] -> s = [].
Proof.
  intros H E. apply pieces_head in H. destruct s as [|c t]; [reflexivity|].
  destruct H as (d & r & H & _). congruence.
Qed.

Lemma no_slashes_plain_app p s :
  forallb is_plain p = true -> no_slashes (p ++ s) = no_slashes s.
Proof.
  induction p as [|c p IH]; [reflexivity|]. cbn [forallb app]. intros H.
  apply andb_true_iff in H as [Hc H].
  now rewrite no_slashes_head, (plain_not_slash c Hc), (IH H).
Qed.

Lemma single_spaced_plain_app p s :
  forallb is_plain p = true -> single_spaced (p ++ s) = single_spaced s.
Proof.
  induction p as [|c p IH]; [reflexivity|]. cbn [forallb app single_spaced]. intros H.
  apply andb_true_iff in H as [Hc H].
  now rewrite (plain_not_space c Hc), (IH H).
Qed.

Lemma ends_clean_plain p : p <> [] -> forallb is_plain p = true -> ends_clean p = true.
Proof.
  induction p as [|c p IH]; [now intros N|]. intros _ H. cbn [forallb] in H.
  apply andb_true_iff in H as [Hc H]. rewrite ends_clean_cons.
  destruct p as [|d r]; [now rewrite (plain_not_space c Hc)|]. now apply IH.
Qed.

Lemma pieces_no_slashes s ps :
  Forall2 lower_piece s ps -> no_slashes (concat ps) = no_slashes s.
Proof.
  induction 1 as [|c p t ps' H F IH]; [reflexivity|]. cbn [concat].
  rewrite no_slashes_head, <- IH, <- (pieces_slash_head t ps' F).
  unfold lower_piece in H. destruct (is_plain c) eqn:E.
  - destruct H as [_ A].
    now rewrite (no_slashes_plain_app p _ A), (plain_not_slash c E).
  - subst p. cbn [app]. apply no_slashes_head.
Qed.

Lemma pieces_single_spaced s ps :
  Forall2 lower_piece s ps -> single_spaced (concat ps) = single_spaced s.
Proof.
  induction 1 as [|c p t ps' H F IH]; [reflexivity|]. cbn [concat single_spaced].
  rewrite <- IH, <- (pieces_starts_clean t ps' F).
  unfold lower_piece in H. destruct (is_plain c) eqn:E.
  - destruct H as [_ A].
    now rewrite (single_spaced_plain_app p _ A), (plain_not_space c E).
  - subst p. reflexivity.
Qed.

Lemma pieces_ends_clean s ps :
  Forall2 lower_piece s ps -> ends_clean (concat ps) = ends_clean s.
Proof.
  induction 1 as [|c p t ps' H F IH]; [reflexivity|]. cbn [concat].
  rewrite ends_clean_cons. unfold lower_piece in H.
  destruct (concat ps') as [|d r] eqn:R.
  - rewrite (pieces_nil t ps' F R), app_nil_r. destruct (is_plain c) eqn:E.
    + destruct H as [N A]. now rewrite (ends_clean_plain p N A), (plain_not_space c E).
    + subst p. apply ends_clean_cons.
  - rewrite (ends_clean_app p (d :: r)) by discriminate. rewrite IH.
    destruct t as [|b u]; [|reflexivity].
    inversion F; subst. discriminate.
Qed.

Section Case.
Context {Py : Platform} (F : case_facts).

Lemma lower_pieces s :
  exists ps, lower s = concat ps /\ Forall2 lower_piece s ps.
Proof.
  unfold lower. destruct (forallb is_ascii s) eqn:A.
  - eexists. apply map_by_pieces.
  - exact (lower_by_pieces F s A).
Qed.

Lemma lower_idem s : lower (lower s) = lower s.
Proof.
  unfold lower at 2 3. destruct (forallb is_ascii s) eqn:A.
  - unfold lower. rewrite (map_lower_ascii s A), map_map.
    apply map_ext. apply lower_ascii_idem.
  - exact (lower_twice F s A).
Qed.

Lemma lower_starts_clean s : starts_clean (lower s) = starts_clean s.
Proof. destruct (lower_pieces s) as (ps & -> & H). now apply pieces_starts_clean. Qed.

Lemma lower_ends_clean s : ends_clean (lower s) = ends_clean s.
Proof. destruct (lower_pieces s) as (ps & -> & H). now apply pieces_ends_clean. Qed.

Lemma lower_no_slashes s : no_slashes (lower s) = no_slashes s.
Proof. destruct (lower_pieces s) as (ps & -> & H). now apply pieces_no_slashes. Qed.

Lemma lower_single_spaced s : single_spaced s = true -> single_spaced (lower s) = true.
Proof.
  intros S. destruct (lower_pieces s) as (ps & -> & H).
  now rewrite (pieces_single_spaced s ps H).
Qed.

(** ** Normal forms *)

Lemma normal_form_fixed s : normal_form s -> normalize_card_name s = s.
Proof.
  intros (H1 & H2 & H3 & H4 & H5). unfold normalize_card_name.
  now rewrite (strip_clean _ H1 H2), (sub_alt_face_fixed _ H3), (sub_spaces_fixed _ H4).
Qed.

Lemma normalize_normal_form s :
  no_line_feed s = true -> normal_form (normalize_card_name s).
Proof.
  intros H. unfold normalize_card_name.
  pose proof (strip_no_line_feed _ H) as L.
  pose proof (strip_starts_clean s) as A.
  pose proof (strip_ends_clean s) as B.
  repeat split.
  - rewrite lower_starts_clean. apply sub_spaces_starts_clean.
    now apply sub_alt_face_starts_clean.
  - rewrite lower_ends_clean. apply sub_spaces_ends_clean.
    now apply sub_alt_face_ends_clean.
  - rewrite lower_no_slashes. apply sub_spaces_no_slashes.
    now apply sub_alt_face_no_slashes.
  - apply lower_single_spaced, sub_spaces_single_spaced.
  - apply lower_idem.
Qed.

End Case.

End NormalizerFacts.

Module FloatFacts.

(** ** The order of [SpecFloat], then of the primitive floats *)

Ltac cmp_cases :=
  repeat match goal with
  | |- context [Z.compare ?a ?b] => destruct (Z.compare_spec a b)
  | H : context [Z.compare ?a ?b] |- _ => destruct (Z.compare_spec a b)
  | |- context [Pos.compare_cont Eq ?a ?b] =>
      change (Pos.compare_cont Eq a b) with (Pos.compare a b);
      destruct (Pos.compare_spec a b)
  | H : context [Pos.compare_cont Eq ?a ?b] |- _ =>
      change (Pos.compare_cont Eq a b) with (Pos.compare a b) in H;
      destruct (Pos.compare_spec a b)
  end;
  simpl in *; try discriminate; try reflexivity; try lia.

Lemma SFltb_trans x y z :
  SFltb x y = true -> SFltb y z = true -> SFltb x z = true.
Proof.
  unfold SFltb.
  destruct x as [[]|[]| |[] mx ex], y as [[]|[]| |[] my ey], z as [[]|[]| |[] mz ez];
    simpl; try discriminate; try reflexivity; intros H1 H2; cmp_cases.
Qed.

Lemma SFltb_leb_total x y :
  x <> S754_nan -> y <> S754_nan -> SFltb y x = false -> SFleb x y = true.
Proof.
  unfold SFltb, SFleb.
  destruct x as [[]|[]| |[] mx ex], y as [[]|[]| |[] my ey];
    simpl; try discriminate; try reflexivity; try congruence; intros _ _ H; cmp_cases.
Qed.

Lemma SFleb_trans x y z :
  SFleb x y = true -> SFleb y z = true -> SFleb x z = true.
Proof.
  unfold SFleb.
  destruct x as [[]|[]| |[] mx ex], y as [[]|[]| |[] my ey], z as [[]|[]| |[] mz ez];
    simpl; try discriminate; try reflexivity; intros H1 H2; cmp_cases.
Qed.

Lemma SFltb_leb x y : SFltb x y = true -> SFleb x y = true.
Proof.
  unfold SFltb, SFleb. destruct (SFcompare x y) as [[]|]; try discriminate; reflexivity.
Qed.

Lemma SFleb_not_ltb x y : SFleb x y = true -> SFltb y x = false.
Proof.
  unfold SFltb, SFleb.
  destruct x as [[]|[]| |[] mx ex], y as [[]|[]| |[] my ey];
    simpl; try discriminate; try reflexivity; intros H; cmp_cases.
Qed.

Lemma SFltb_not_nan x y : SFltb x y = true -> x <> S754_nan /\ y <> S754_nan.
Proof.
  unfold SFltb. destruct x, y; simpl; try discriminate; split; discriminate.
Qed.

Lemma SFeqb_refl x : SFeqb x x = negb (match x with S754_nan => true | _ => false end).
Proof.
  unfold SFeqb. destruct x as [[]|[]| |[] m e]; simpl; try reflexivity;
    rewrite Z.compare_refl; change (Pos.compare_cont Eq m m) with (Pos.compare m m);
    now rewrite Pos.compare_refl.
Qed.

Local Open Scope float_scope.

Lemma is_nan_spec x : is_nan x = true <-> Prim2SF x = S754_nan.
Proof.
  unfold is_nan. rewrite eqb_spec, SFeqb_refl, negb_involutive.
  destruct (Prim2SF x); split; congruence.
Qed.

Lemma not_nan_spec x : is_nan x = false <-> Prim2SF x <> S754_nan.
Proof.
  rewrite <- is_nan_spec. destruct (is_nan x); split; congruence.
Qed.

Lemma ltb_trans x y z : (x <? y) = true -> (y <? z) = true -> (x <? z) = true.
Proof. rewrite !ltb_spec. apply SFltb_trans. Qed.

Lemma ltb_not_nan x y : (x <? y) = true -> is_nan x = false /\ is_nan y = false.
Proof. rewrite ltb_spec, !not_nan_spec. apply SFltb_not_nan. Qed.

Lemma not_ltb_leb x y :
  is_nan x = false -> is_nan y = false -> (y <? x) = false -> (x <=? y) = true.
Proof. rewrite ltb_spec, leb_spec, !not_nan_spec. apply SFltb_leb_total. Qed.

Lemma leb_trans x y z : (x <=? y) = true -> (y <=? z) = true -> (x <=? z) = true.
Proof. rewrite !leb_spec. apply SFleb_trans. Qed.

Lemma ltb_leb x y : (x <? y) = true -> (x <=? y) = true.
Proof. rewrite ltb_spec, leb_spec. apply SFltb_leb. Qed.

Lemma leb_not_ltb x y : (x <=? y) = true -> (y <? x) = false.
Proof. rewrite ltb_spec, leb_spec. apply SFleb_not_ltb. Qed.

Lemma ltb_irrefl x : (x <? x) = false.
Proof.
  destruct (x <? x) eqn:E; [|reflexivity].
  destruct (ltb_not_nan _ _ E) as [N _].
  pose proof (not_ltb_leb x x N N) as H.
  destruct (x <=? x) eqn:L.
  - now rewrite (leb_not_ltb _ _ L) in E.
  - rewrite ltb_spec in E. rewrite leb_spec in L. apply SFltb_leb in E. congruence.
Qed.

End FloatFacts.

Module DictFacts.

Lemma eqb_eq a b : PyStr.eqb a b = true <-> a = b.
Proof.
  revert b. induction a as [|x a IH]; intros [|y b]; simpl; try easy.
  rewrite andb_true_iff, N.eqb_eq, IH. split.
  - now intros [-> ->].
  - intros E. now injection E.
Qed.

Lemma eqb_refl a : PyStr.eqb a a = true.
Proof. now apply eqb_eq. Qed.

Lemma eqb_neq a b : PyStr.eqb a b = false <-> a <> b.
Proof. rewrite <- eqb_eq. destruct (PyStr.eqb a b); split; congruence. Qed.

Lemma eqb_sym a b : PyStr.eqb a b = PyStr.eqb b a.
Proof.
  destruct (PyStr.eqb a b) eqn:E.
  - apply eqb_eq in E. subst. symmetry. apply eqb_refl.
  - symmetry. apply eqb_neq. apply eqb_neq in E. congruence.
Qed.

Section Values.
Context {V : Type}.
Implicit Types (d : Dict.t V) (k : str) (v : V).

Lemma get_set d k v k' :
  Dict.get (Dict.set d k v) k' = if PyStr.eqb k k' then Some v else Dict.get d k'.
Proof.
  induction d as [|[k0 v0] d IH]; simpl.
  - reflexivity.
  - destruct (PyStr.eqb k0 k) eqn:E; simpl.
    + apply eqb_eq in E. subst k0. now destruct (PyStr.eqb k k').
    + rewrite IH. destruct (PyStr.eqb k0 k') eqn:E'; [|reflexivity].
      apply eqb_eq in E'. subst k0. now rewrite eqb_sym, E.
Qed.

Lemma get_setdefault d k dflt k' :
  Dict.get (fst (Dict.setdefault d k dflt)) k' =
  if PyStr.eqb k k'
  then Some (match Dict.get d k with Some v => v | None => dflt end)
  else Dict.get d k'.
Proof.
  unfold Dict.setdefault. destruct (Dict.get d k) as [v|] eqn:G; simpl.
  - destruct (PyStr.eqb k k') eqn:E; [|reflexivity].
    apply eqb_eq in E. now subst.
  - apply get_set.
Qed.

Lemma snd_setdefault d k dflt :
  snd (Dict.setdefault d k dflt) =
  match Dict.get d k with Some v => v | None => dflt end.
Proof. unfold Dict.setdefault. now destruct (Dict.get d k). Qed.

Lemma get_In d k v : Dict.get d k = Some v -> In (k, v) d.
Proof.
  induction d as [|[k0 v0] d IH]; simpl; [discriminate|].
  destruct (PyStr.eqb k0 k) eqn:E.
  - apply eqb_eq in E. intros [= ->]. subst. now left.
  - intros G. right. now apply IH.
Qed.

End Values.

End DictFacts.

Module AggregatorFacts.
Import DictFacts FloatFacts.
Local Open Scope float_scope.

(** ** A chain of [min] *)

Lemma min_chain (l : list float) (a : float) :
  let v := fold_left PyNum.min l a in
  (v = a \/ In v l) /\ (v = a \/ (v <? a) = true) /\
  (forall p, In p l -> (p <? v) = false).
Proof.
  revert a. induction l as [|p l IH]; intros a; simpl.
  - repeat split; auto. intros p [].
  - destruct (IH (PyNum.min a p)) as (H1 & H2 & H3).
    set (v := fold_left PyNum.min l (PyNum.min a p)) in *.
    unfold PyNum.min in H1, H2. destruct (p <? a) eqn:E.
    + repeat split.
      * destruct H1 as [->|H1]; auto.
      * right. destruct H2 as [->|H2]; [exact E|]. exact (ltb_trans _ _ _ H2 E).
      * intros q [<-|Hq]; [|now apply H3].
        destruct H2 as [->|H2]; [apply ltb_irrefl|].
        destruct (p <? v) eqn:F; [|reflexivity].
        pose proof (ltb_trans _ _ _ F H2) as C. now rewrite ltb_irrefl in C.
    + repeat split.
      * destruct H1 as [->|H1]; auto.
      * exact H2.
      * intros q [<-|Hq]; [|now apply H3].
        destruct H2 as [->|H2]; [exact E|].
        destruct (p <? v) eqn:F; [|reflexivity].
        pose proof (ltb_trans _ _ _ F H2) as C. congruence.
Qed.

Lemma min_chain_not_nan l a :
  is_nan a = false -> is_nan (fold_left PyNum.min l a) = false.
Proof.
  intros N. destruct (min_chain l a) as (_ & [->|H] & _); [exact N|].
  now apply ltb_not_nan in H.
Qed.

Lemma running_min_spec l :
  match running_min l with
  | None => l = []
  | Some v => In v l /\ forall p, In p l -> (p <? v) = false
  end.
Proof.
  destruct l as [|a l]; [reflexivity|]. simpl.
  destruct (min_chain l a) as (H1 & H2 & H3). split.
  - destruct H1; auto.
  - intros p [<-|Hp]; [|now apply H3].
    destruct H2 as [->|H2]; [apply ltb_irrefl|].
    destruct (a <? fold_left PyNum.min l a) eqn:F; [|reflexivity].
    pose proof (ltb_trans _ _ _ F H2) as C. now rewrite ltb_irrefl in C.
Qed.

(** ** One offer *)

Lemma lookup_default sd s n :
  Dict.get (match Dict.get sd s with Some c => c | None => [] end) n = lookup sd s n.
Proof. unfold lookup. now destruct (Dict.get sd s). Qed.

Lemma lookup_fold_offer n sd s p s' n' :
  lookup (fold_offer n sd (s, p)) s' n' =
  if PyStr.eqb s s' && PyStr.eqb n n'
  then Some (match lookup sd s n with Some v => PyNum.min v p | None => p end)
  else lookup sd s' n'.
Proof.
  unfold fold_offer.
  pose proof (get_setdefault sd s [] s') as G.
  pose proof (snd_setdefault sd s ([] : Dict.t float)) as C.
  destruct (Dict.setdefault sd s []) as [sd1 cards]. simpl in G, C. subst cards.
  rewrite lookup_default.
  assert (U : lookup (Dict.set sd1 s
                        (Dict.set (match Dict.get sd s with Some c => c | None => [] end) n p))
                     s' n' =
              if PyStr.eqb s s' && PyStr.eqb n n' then Some p else lookup sd s' n').
  { unfold lookup at 1. rewrite get_set.
    destruct (PyStr.eqb s s') eqn:Es; simpl.
    - rewrite get_set, lookup_default. apply eqb_eq in Es. now subst s'.
    - unfold lookup. now rewrite G. }
  assert (K : lookup sd1 s' n' = lookup sd s' n').
  { unfold lookup at 1. rewrite G. destruct (PyStr.eqb s s') eqn:Es; [|reflexivity].
    rewrite lookup_default. apply eqb_eq in Es. now subst s'. }
  destruct (lookup sd s n) as [stored|] eqn:Gn.
  - unfold PyNum.min. destruct (p <? stored) eqn:E; [exact U|].
    rewrite K. destruct (PyStr.eqb s s' && PyStr.eqb n n') eqn:B; [|reflexivity].
    apply andb_true_iff in B as [Es En].
    apply eqb_eq in Es, En. now subst.
  - exact U.
Qed.

(** ** A run of folds *)

Lemma extend_app cur l1 l2 : extend cur (l1 ++ l2) = extend (extend cur l1) l2.
Proof.
  destruct cur as [v|]; simpl.
  - now rewrite fold_left_app.
  - destruct l1 as [|a l1]; simpl; [reflexivity|]. now rewrite fold_left_app.
Qed.

Lemma lookup_fold_prices n prices sd s n' :
  lookup (fold_prices n prices sd) s n' =
  if PyStr.eqb n n' then extend (lookup sd s n') (prices_of s prices)
  else lookup sd s n'.
Proof.
  unfold fold_prices, prices_of. revert sd.
  induction prices as [|[s0 p] prices IH]; intros sd.
  - simpl. destruct (PyStr.eqb n n'); [|reflexivity]. now destruct (lookup sd s n').
  - change (fold_left (fold_offer n) ((s0, p) :: prices) sd)
      with (fold_left (fold_offer n) prices (fold_offer n sd (s0, p))).
    rewrite IH, lookup_fold_offer. simpl.
    destruct (PyStr.eqb n n') eqn:En; [|now rewrite andb_false_r].
    apply eqb_eq in En. subst n'. rewrite andb_true_r.
    destruct (PyStr.eqb s0 s) eqn:Es; simpl; [|reflexivity].
    apply eqb_eq in Es. subst s0. now destruct (lookup sd s n).
Qed.

Lemma lookup_fold_all h sd s n :
  lookup (fold_all h sd) s n = extend (lookup sd s n) (seen h s n).
Proof.
  unfold fold_all, seen. revert sd.
  induction h as [|[n0 prices] h IH]; intros sd; simpl.
  - now destruct (lookup sd s n).
  - rewrite IH, lookup_fold_prices, extend_app. simpl.
    destruct (PyStr.eqb n0 n); [reflexivity|]. now destruct (lookup sd s n).
Qed.

End AggregatorFacts.

Module ParserFacts.
Import DictFacts FloatFacts AggregatorFacts.
Local Open Scope float_scope.

Section WithPlatform.
Context {Py : Platform}.

Lemma parse_rows_offers rows acc :
  parse_rows acc rows = os <- row_offers rows ;; Ok (fold_left record_offer os acc).
Proof.
  revert acc. induction rows as [|r rs IH]; intros acc; [reflexivity|].
  simpl. unfold parse_row. destruct (row_offer r) as [[o|]|e]; simpl; [| |reflexivity].
  - rewrite IH. now destruct (row_offers rs).
  - rewrite IH. now destruct (row_offers rs).
Qed.

Lemma parse_table_offers h :
  parse_single_card_table h =
  os <- row_offers (page_rows h) ;; Ok (fold_left record_offer os []).
Proof.
  destruct h as [|[rows|]]; try reflexivity. apply parse_rows_offers.
Qed.

Lemma get_record_offer acc s u s' :
  Dict.get (record_offer acc (s, u)) s' =
  if PyStr.eqb s s' then Some (PyNum.min (from_default (Dict.get acc s)) u)
  else Dict.get acc s'.
Proof.
  unfold record_offer.
  pose proof (get_setdefault acc s infinity s') as G.
  pose proof (snd_setdefault acc s infinity) as C.
  destruct (Dict.setdefault acc s infinity) as [acc1 cur]. simpl in G, C. subst cur.
  rewrite get_set. destruct (PyStr.eqb s s'); [reflexivity|exact G].
Qed.

Lemma get_fold_record os acc s :
  Dict.get (fold_left record_offer os acc) s =
  match prices_of s os with
  | [] => Dict.get acc s
  | _ :: _ => Some (fold_left PyNum.min (prices_of s os) (from_default (Dict.get acc s)))
  end.
Proof.
  unfold prices_of. revert acc. induction os as [|[s0 u] os IH]; intros acc; [reflexivity|].
  change (fold_left record_offer ((s0, u) :: os) acc)
    with (fold_left record_offer os (record_offer acc (s0, u))).
  rewrite IH, get_record_offer. simpl.
  destruct (PyStr.eqb s0 s) eqn:E; simpl.
  - apply eqb_eq in E. subst s0.
    now destruct (map snd (filter (fun o => PyStr.eqb (fst o) s) os)).
  - reflexivity.
Qed.

(** ** What the dictionary of a page holds *)

Lemma parse_table_get h d s :
  parse_single_card_table h = Ok d ->
  Dict.get d s =
  match seller_units h s with
  | [] => None
  | _ :: _ => Some (fold_left PyNum.min (seller_units h s) infinity)
  end.
Proof.
  rewrite parse_table_offers. unfold seller_units.
  destruct (row_offers (page_rows h)) as [os|e]; simpl; [|discriminate].
  intros [= <-]. apply get_fold_record.
Qed.

Lemma set_keys {V : Type} (d : Dict.t V) k v :
  Dict.keys (Dict.set d k v) =
  if Dict.mem d k then Dict.keys d else Dict.keys d ++ [k].
Proof.
  unfold Dict.mem, Dict.keys. induction d as [|[k0 v0] d IH]; simpl; [reflexivity|].
  destruct (PyStr.eqb k0 k); simpl; [reflexivity|].
  rewrite IH. now destruct (Dict.get d k).
Qed.

Lemma mem_keys {V : Type} (d : Dict.t V) k : Dict.mem d k = false -> ~ In k (Dict.keys d).
Proof.
  unfold Dict.mem, Dict.keys. induction d as [|[k0 v0] d IH]; simpl; [tauto|].
  destruct (PyStr.eqb k0 k) eqn:E; [discriminate|].
  intros H [->|K]; [now rewrite eqb_refl in E|now apply IH].
Qed.

Lemma set_NoDup {V : Type} (d : Dict.t V) k v :
  NoDup (Dict.keys d) -> NoDup (Dict.keys (Dict.set d k v)).
Proof.
  intros N. rewrite set_keys. destruct (Dict.mem d k) eqn:M; [exact N|].
  apply NoDup_app; [exact N|repeat constructor; tauto|].
  intros x Hx [<-|[]]. now apply (mem_keys d k).
Qed.

Lemma NoDup_get {V : Type} (d : Dict.t V) k v :
  NoDup (Dict.keys d) -> In (k, v) d -> Dict.get d k = Some v.
Proof.
  unfold Dict.keys. induction d as [|[k0 v0] d IH]; simpl; [tauto|].
  intros N [E|H].
  - injection E as -> ->. now rewrite eqb_refl.
  - inversion N as [|? ? N1 N2]; subst.
    destruct (PyStr.eqb k0 k) eqn:E; [|now apply IH].
    apply eqb_eq in E. subst k0. elim N1.
    change k with (fst (k, v)). now apply in_map.
Qed.

Lemma record_offer_NoDup acc o :
  NoDup (Dict.keys acc) -> NoDup (Dict.keys (record_offer acc o)).
Proof.
  intros N. destruct o as [s u]. unfold record_offer, Dict.setdefault.
  destruct (Dict.get acc s); now repeat apply set_NoDup.
Qed.

Lemma parse_table_NoDup h d :
  parse_single_card_table h = Ok d -> NoDup (Dict.keys d).
Proof.
  rewrite parse_table_offers.
  destruct (row_offers (page_rows h)) as [os|e]; simpl; [|discriminate].
  intros [= <-]. assert (N : NoDup (Dict.keys ([] : Dict.t float))) by constructor.
  revert N. generalize ([] : Dict.t float). induction os as [|o os IH]; intros acc N.
  - exact N.
  - apply IH. now apply record_offer_NoDup.
Qed.

Lemma infinity_leb p : (infinity <=? p) = true -> p = infinity.
Proof.
  rewrite leb_spec. intros H. apply Prim2SF_inj.
  change (Prim2SF infinity) with (S754_infinity false) in *.
  destruct (Prim2SF p) as [[]|[]| |[] m e]; simpl in H; try discriminate. reflexivity.
Qed.

(** A chain of [min] from the default: the result is one of the prices,
    or the default itself when every price is NaN. *)
Lemma default_chain us :
  let v := fold_left PyNum.min us infinity in
  is_nan v = false /\
  (forall p, In p us -> (p <? v) = false) /\
  (In v us \/ v = infinity /\ forall p, In p us -> is_nan p = true).
Proof.
  intros v. destruct (min_chain us infinity) as (H1 & H2 & H3). fold v in H1, H2, H3.
  split; [apply min_chain_not_nan; reflexivity|]. split; [exact H3|].
  destruct H1 as [E|H1]; [|now left].
  destruct (forallb is_nan us) eqn:A.
  - right. split; [exact E|]. now apply forallb_forall.
  - left. assert (X : exists p, In p us /\ is_nan p = false).
    { clear - A. induction us as [|q us IH]; [discriminate|]. simpl in A.
      destruct (is_nan q) eqn:Q.
      - destruct (IH A) as [p [Hp Np]]. exists p. split; [now right|exact Np].
      - exists q. split; [now left|exact Q]. }
    destruct X as [p [Hp Np]]. rewrite E.
    replace infinity with p; [exact Hp|].
    apply infinity_leb. apply not_ltb_leb; [reflexivity|exact Np|].
    rewrite <- E. now apply H3.
Qed.

Lemma parse_table_values h d s v :
  parse_single_card_table h = Ok d -> In (s, v) d ->
  seller_units h s <> [] /\ v = fold_left PyNum.min (seller_units h s) infinity.
Proof.
  intros P H. pose proof (NoDup_get d s v (parse_table_NoDup h d P) H) as G.
  rewrite (parse_table_get h d s P) in G.
  destruct (seller_units h s) as [|u us]; [discriminate|].
  injection G as <-. split; [discriminate|reflexivity].
Qed.

Lemma parse_table_not_nan h d :
  parse_single_card_table h = Ok d ->
  Forall (fun o => is_nan (snd o) = false) d.
Proof.
  intros P. apply Forall_forall. intros [s v] H.
  destruct (parse_table_values h d s v P H) as [_ ->]. apply default_chain.
Qed.

End WithPlatform.

End ParserFacts.

Module LoaderFacts.
Import PyStr NormalizerFacts.
Local Open Scope Z_scope.

Section WithPlatform.
Context {Py : Platform}.

(** ** Decimal digits *)

Lemma decimal_range c d : decimal c = Some d -> 0 <= d <= 9.
Proof.
  unfold decimal. destruct (is_ascii_digit c) eqn:A.
  - intros [= <-]. unfold ascii_digit_value. chars.
  - destruct (is_ascii c); [discriminate|]. destruct (is_space c); [discriminate|].
    destruct (decimal_beyond_ascii c) as [[]|]; simpl; intros [= <-]; lia.
Qed.

Lemma digit_value_range c : 0 <= digit_value c <= 9.
Proof.
  unfold digit_value. destruct (decimal c) as [d|] eqn:E; [|lia].
  exact (decimal_range c d E).
Qed.

Lemma digit_not_space c : is_digit c = true -> is_space c = false.
Proof.
  unfold is_digit, decimal. destruct (is_ascii_digit c) eqn:A; [intros _; chars|].
  destruct (is_ascii c); [discriminate|]. now destruct (is_space c).
Qed.

Lemma ascii_digit_is_digit c :
  is_ascii_digit c = true -> is_digit c = true /\ digit_value c = ascii_digit_value c.
Proof. unfold is_digit, digit_value, decimal. now intros ->. Qed.

Lemma digit_ascii c : is_digit c = true -> is_ascii c = true -> is_ascii_digit c = true.
Proof.
  unfold is_digit, decimal. destruct (is_ascii_digit c); [reflexivity|].
  intros H A. now rewrite A in H.
Qed.

Lemma ascii_of_digit_spec c :
  is_ascii_digit (ascii_of_digit c) = true /\
  ascii_digit_value (ascii_of_digit c) = digit_value c.
Proof.
  unfold ascii_of_digit, ascii_digit_value. pose proof (digit_value_range c) as R.
  split; [chars|lia].
Qed.

Lemma ascii_of_ascii_digit c : is_ascii_digit c = true -> ascii_of_digit c = c.
Proof.
  intros A. unfold ascii_of_digit.
  destruct (ascii_digit_is_digit c A) as [_ ->]. unfold ascii_digit_value. chars.
Qed.

Lemma take_while_all p s : forallb p (take_while p s) = true.
Proof.
  induction s as [|c t IH]; [reflexivity|]. simpl.
  destruct (p c) eqn:E; [|reflexivity]. simpl. now rewrite E.
Qed.

Lemma drop_while_none (p q : char -> bool) s :
  (forall c, q c = true -> p c = false) -> forallb q s = true -> drop_while p s = s.
Proof.
  intros H A. destruct s as [|c t]; [reflexivity|]. simpl in *.
  apply andb_true_iff in A as [A _]. now rewrite (H c A).
Qed.

Lemma forallb_rev_true (q : char -> bool) s : forallb q s = true -> forallb q (rev s) = true.
Proof.
  rewrite !forallb_forall. intros H c Hc. apply H. now apply in_rev.
Qed.

Lemma strip_of_none (p q : char -> bool) s :
  (forall c, q c = true -> p c = false) -> forallb q s = true -> strip_of p s = s.
Proof.
  intros H A. unfold strip_of.
  rewrite (drop_while_none p q s H A).
  rewrite (drop_while_none p q (rev s) H (forallb_rev_true q s A)).
  apply rev_involutive.
Qed.

(** ** [int()] on a run of digits *)

Lemma ascii_digit_not_c_space c : is_ascii_digit c = true -> is_c_space c = false.
Proof. intros H. chars. Qed.

Lemma ascii_digit_not_sign c :
  is_ascii_digit c = true -> N.eqb c "-"%char = false /\ N.eqb c "+"%char = false.
Proof. intros H. split; chars. Qed.

Lemma digits_tail_value acc t :
  forallb is_ascii_digit t = true ->
  PyNum.digits_tail acc t
  = Some (fold_left (fun a c => 10 * a + ascii_digit_value c) t acc).
Proof.
  revert acc. induction t as [|c t IH]; intros acc A; [reflexivity|].
  cbn [forallb] in A. apply andb_true_iff in A as [Hc A].
  cbn [PyNum.digits_tail fold_left]. rewrite Hc. now apply IH.
Qed.

Lemma count_all_digits ds :
  forallb is_ascii_digit ds = true -> PyNum.count_digits ds = length ds.
Proof.
  unfold PyNum.count_digits. induction ds as [|c t IH]; [reflexivity|].
  cbn [forallb filter]. intros A. apply andb_true_iff in A as [-> A].
  cbn [length]. now rewrite IH.
Qed.

Lemma int_of_ascii_digits ds :
  ds <> [] -> forallb is_ascii_digit ds = true ->
  PyNum.int_of_ascii ds =
  if PyNum.over_limit (length ds) then Raise ValueError
  else Ok (PyNum.value_of_ascii_digits ds).
Proof.
  intros N A. unfold PyNum.int_of_ascii.
  rewrite (strip_of_none is_c_space is_ascii_digit ds ascii_digit_not_c_space A).
  pose proof (count_all_digits ds A) as C.
  destruct ds as [|c t]; [now elim N|]. cbn [forallb] in A.
  apply andb_true_iff in A as [Hc A].
  unfold PyNum.split_sign. destruct (ascii_digit_not_sign c Hc) as [-> ->].
  unfold PyNum.digits. rewrite Hc, (digits_tail_value _ t A), C.
  unfold PyNum.value_of_ascii_digits. cbn [fold_left].
  now replace (10 * 0 + ascii_digit_value c) with (ascii_digit_value c) by lia.
Qed.

Lemma transform_digits ds :
  forallb is_digit ds = true -> PyNum.transform ds = map ascii_of_digit ds.
Proof.
  induction ds as [|c t IH]; [reflexivity|]. cbn [forallb]. intros A.
  apply andb_true_iff in A as [Hc A]. cbn [PyNum.transform map]. rewrite (IH A).
  destruct (c <? 127)%N eqn:L.
  - rewrite ascii_of_ascii_digit; [reflexivity|].
    apply digit_ascii; [exact Hc|chars].
  - rewrite (digit_not_space c Hc). unfold ascii_of_digit, digit_value.
    unfold is_digit in Hc. now destruct (decimal c).
Qed.

Lemma to_ascii_digits ds :
  forallb is_digit ds = true -> PyNum.to_ascii ds = map ascii_of_digit ds.
Proof.
  intros A. unfold PyNum.to_ascii. destruct (forallb is_ascii ds) eqn:B.
  - clear - A B. induction ds as [|c t IH]; [reflexivity|]. cbn [forallb map] in *.
    apply andb_true_iff in A as [Hc A]. apply andb_true_iff in B as [Bc B].
    now rewrite <- IH, (ascii_of_ascii_digit c (digit_ascii c Hc Bc)).
  - now apply transform_digits.
Qed.

Lemma value_of_ascii_of_digits ds acc :
  fold_left (fun a c => 10 * a + ascii_digit_value c) (map ascii_of_digit ds) acc
  = fold_left (fun a c => 10 * a + digit_value c) ds acc.
Proof.
  revert acc. induction ds as [|c t IH]; intros acc; [reflexivity|].
  cbn [map fold_left]. destruct (ascii_of_digit_spec c) as [_ ->]. apply IH.
Qed.

(** [int()] on a run of decimal digits: their value, unless they are too
    many. *)
Lemma int_of_digits ds :
  ds <> [] -> forallb is_digit ds = true ->
  PyNum.int_of_str ds =
  if PyNum.over_limit (length ds) then Raise ValueError
  else Ok (PyNum.value_of_digits ds).
Proof.
  intros N A. unfold PyNum.int_of_str. rewrite (to_ascii_digits ds A).
  rewrite int_of_ascii_digits.
  - rewrite length_map. unfold PyNum.value_of_ascii_digits, PyNum.value_of_digits.
    now rewrite value_of_ascii_of_digits.
  - destruct ds; [now elim N|discriminate].
  - rewrite forallb_forall. intros c Hc. apply in_map_iff in Hc as [d [<- _]].
    apply ascii_of_digit_spec.
Qed.

Lemma value_of_digits_nonneg ds : 0 <= PyNum.value_of_digits ds.
Proof.
  unfold PyNum.value_of_digits.
  assert (H : forall acc, 0 <= acc ->
                          0 <= fold_left (fun a c => 10 * a + digit_value c) ds acc).
  { induction ds as [|c t IH]; intros acc H; [exact H|].
    cbn [fold_left]. apply IH. pose proof (digit_value_range c). lia. }
  apply H. lia.
Qed.

Lemma line_match_quantity s q nm g :
  line_match s = Some (q, nm, g) -> q <> [] /\ forallb is_digit q = true.
Proof.
  unfold line_match. pose proof (take_while_all is_digit s) as A.
  destruct (take_while is_digit s) as [|d ds]; [discriminate|].
  match goal with |- context [take_while is_space ?r] => destruct (take_while is_space r) end;
    [discriminate|].
  match goal with |- context [backtrack_spaces ?a ?b] =>
    destruct (backtrack_spaces a b) as [[nm' g']|] end; [|discriminate].
  intros [= <- <- <-]. split; [discriminate|exact A].
Qed.

Lemma line_match_no_digit c t : is_digit c = false -> line_match (c :: t) = None.
Proof. intros H. unfold line_match. simpl. now rewrite H. Qed.

Lemma strip_idem s : strip (strip s) = strip s.
Proof. apply strip_clean; [apply strip_starts_clean|apply strip_ends_clean]. Qed.

(** A line the pattern matches: one CardRequest more, unless the
    quantity has too many digits for [int()]. *)
Lemma load_line_matched line deck diags q nm g :
  strip line <> [] -> is_comment (strip line) = false ->
  line_match (strip line) = Some (q, nm, g) ->
  load_line line (deck, diags) =
  if PyNum.over_limit (length q) then Raise ValueError
  else Ok (deck ++ [card_of_groups q nm g (PyNum.value_of_digits q)], diags).
Proof.
  intros N C M. unfold load_line.
  destruct (strip line) as [|c t] eqn:S; [now elim N|].
  assert (I : strip (c :: t) = c :: t) by (rewrite <- S; apply strip_idem).
  rewrite C, I, M.
  destruct (line_match_quantity _ _ _ _ M) as [Nq A].
  rewrite (int_of_digits q Nq A).
  now destruct (PyNum.over_limit (length q)).
Qed.

Lemma load_line_quantities line acc acc' :
  quantities_ok acc -> load_line line acc = Ok acc' -> quantities_ok acc'.
Proof.
  intros Q. destruct acc as [deck diags]. unfold load_line.
  destruct (strip line) as [|c t] eqn:S; [now intros [= <-]|].
  destruct (is_comment (c :: t)); [now intros [= <-]|].
  destruct (line_match (strip (c :: t))) as [[[q nm] g]|] eqn:M; [|now intros [= <-]].
  destruct (line_match_quantity _ _ _ _ M) as [N A].
  rewrite (int_of_digits q N A).
  destruct (PyNum.over_limit (length q)); [discriminate|]. cbn [bind].
  intros [= <-]. unfold quantities_ok in *. cbn [fst] in *.
  apply Forall_app. split; [exact Q|].
  constructor; [apply value_of_digits_nonneg|constructor].
Qed.

Lemma load_lines_quantities lines acc acc' :
  quantities_ok acc -> load_lines lines acc = Ok acc' -> quantities_ok acc'.
Proof.
  revert acc. induction lines as [|l ls IH]; intros acc Q; cbn [load_lines].
  - now intros [= <-].
  - destruct (load_line l acc) as [acc1|e] eqn:L; [|discriminate]. cbn [bind].
    apply IH. exact (load_line_quantities l acc acc1 Q L).
Qed.

(** ** The URL *)

Lemma startswith_one x c t : startswith [x] (c :: t) = N.eqb x c.
Proof. unfold startswith. simpl. now destruct (N.eqb x c). Qed.

Lemma replace_one_cons x y c t :
  replace_from [x] [y] 0 (c :: t) =
  (if N.eqb x c then y else c) :: replace_from [x] [y] 0 t.
Proof.
  cbn [replace_from]. rewrite startswith_one. now destruct (N.eqb x c).
Qed.

Lemma replace_space s :
  replace (lit " ") (lit "+") s = map plus_for_space s.
Proof.
  unfold replace. change (lit " ") with [chr " "]. change (lit "+") with [chr "+"].
  induction s as [|c t IH]; [reflexivity|].
  rewrite replace_one_cons, IH. cbn [map]. unfold plus_for_space.
  now rewrite (N.eqb_sym " "%char c).
Qed.

End WithPlatform.

End LoaderFacts.

Module SortFacts.

Section Insertion.
Context {A K : Type} (lt : K -> K -> bool) (key : A -> K).
Context (P : A -> Prop) (le : A -> A -> Prop).
Hypothesis lt_le : forall a b, P a -> P b -> lt (key a) (key b) = true -> le a b.
Hypothesis not_lt_le : forall a b, P a -> P b -> lt (key a) (key b) = false -> le b a.
Hypothesis le_trans : forall a b c, le a b -> le b c -> le a c.

Lemma insert_perm x l : Permutation (insert lt key x l) (x :: l).
Proof.
  induction l as [|y l IH]; simpl; [reflexivity|].
  destruct (lt (key y) (key x)); [|reflexivity].
  rewrite IH. apply perm_swap.
Qed.

Lemma sorted_perm l : Permutation (sorted lt key l) l.
Proof.
  induction l as [|x l IH]; simpl; [reflexivity|].
  rewrite insert_perm. now constructor.
Qed.

Lemma insert_sorted x l :
  P x -> Forall P l -> StronglySorted le l -> StronglySorted le (insert lt key x l).
Proof.
  intros Px Pl S. induction S as [|y l S IH F]; simpl.
  - repeat constructor.
  - inversion Pl as [|? ? Py Pl']; subst.
    destruct (lt (key y) (key x)) eqn:E.
    + constructor; [now apply IH|].
      rewrite (insert_perm x l). constructor; [|exact F].
      now apply lt_le.
    + assert (Lxy : le x y) by now apply not_lt_le.
      constructor; [now constructor|].
      constructor; [exact Lxy|].
      eapply Forall_impl; [|exact F]. intros z. now apply le_trans.
Qed.

Lemma sorted_sorted l : Forall P l -> StronglySorted le (sorted lt key l).
Proof.
  induction l as [|x l IH]; intros F; simpl; [constructor|].
  inversion F as [|? ? Px Pl]; subst.
  apply insert_sorted; [exact Px| |now apply IH].
  now rewrite (sorted_perm l).
Qed.
End Insertion.

Lemma StronglySorted_snoc {A : Type} (R : A -> A -> Prop) l x :
  StronglySorted R l -> Forall (fun y => R y x) l -> StronglySorted R (l ++ [x]).
Proof.
  induction 1 as [|y l S IH F]; intros H; simpl.
  - repeat constructor.
  - inversion H as [|? ? Ryx H']; subst.
    constructor; [now apply IH|].
    apply Forall_app. split; [exact F|now constructor].
Qed.

Lemma StronglySorted_rev {A : Type} (R : A -> A -> Prop) l :
  StronglySorted R l -> StronglySorted (fun a b => R b a) (rev l).
Proof.
  induction 1 as [|y l S IH F]; simpl; [constructor|].
  apply StronglySorted_snoc; [exact IH|].
  apply Forall_rev. exact F.
Qed.

Lemma StronglySorted_map {A B : Type} (f : A -> B) (R : B -> B -> Prop) l :
  StronglySorted (fun a b => R (f a) (f b)) l -> StronglySorted R (map f l).
Proof.
  induction 1 as [|y l S IH F]; simpl; constructor; [exact IH|].
  apply Forall_map. exact F.
Qed.

End SortFacts.

Module ReportFacts.
Import DictFacts FloatFacts AggregatorFacts ParserFacts SortFacts.
Local Open Scope float_scope.

Section WithPlatform.
Context {Py : Platform}.

(** ** The run as a sequence of folds *)

Lemma process_card_history fetch sd c :
  process_card fetch sd c =
  o <- card_prices fetch c ;;
  Ok (match o with Some prices => fold_prices (normalized c) prices sd | None => sd end).
Proof.
  unfold process_card, card_prices.
  destruct (fetch (url c)) as [[|t]|]; try reflexivity.
  destruct (parse_single_card_table (Markup t)) as [[|o prices]|e]; reflexivity.
Qed.

Lemma process_deck_history fetch deck i sd :
  process_deck fetch i sd deck = h <- history fetch i deck ;; Ok (fold_all h sd).
Proof.
  revert i sd. induction deck as [|c cs IH]; intros i sd; [reflexivity|].
  simpl. rewrite process_card_history.
  destruct (card_prices (fetch i) c) as [[prices|]|e]; simpl; [| |reflexivity].
  - rewrite IH. now destruct (history fetch (S i) cs).
  - rewrite IH. now destruct (history fetch (S i) cs).
Qed.

Lemma card_prices_not_nan fetch c prices :
  card_prices fetch c = Ok (Some prices) ->
  Forall (fun o => is_nan (snd o) = false) prices.
Proof.
  unfold card_prices. destruct (fetch (url c)) as [[|t]|]; try discriminate.
  destruct (parse_single_card_table (Markup t)) as [d|e] eqn:P; [|discriminate].
  simpl. destruct d as [|o d]; [discriminate|]. intros [= <-].
  exact (parse_table_not_nan _ _ P).
Qed.

Lemma history_not_nan fetch deck i h :
  history fetch i deck = Ok h ->
  Forall (fun x => Forall (fun o => is_nan (snd o) = false) (snd x)) h.
Proof.
  revert i h. induction deck as [|c cs IH]; intros i h; simpl.
  - intros [= <-]. constructor.
  - destruct (card_prices (fetch i) c) as [o|e] eqn:C; [|discriminate]. simpl.
    destruct (history fetch (S i) cs) as [rest|e] eqn:R; [|discriminate]. simpl.
    intros [= <-]. specialize (IH _ _ R).
    destruct o as [prices|]; [|exact IH].
    constructor; [|exact IH]. exact (card_prices_not_nan _ _ _ C).
Qed.

(** ** No NaN is ever stored *)

Section Values.
Context {V : Type} (Q : V -> Prop).

Lemma Forall_set (d : Dict.t V) k v :
  Forall (fun x => Q (snd x)) d -> Q v -> Forall (fun x => Q (snd x)) (Dict.set d k v).
Proof.
  intros F Hv. induction F as [|[k0 v0] d H F IH]; simpl.
  - now repeat constructor.
  - destruct (PyStr.eqb k0 k); constructor; auto.
Qed.

Lemma Forall_get (d : Dict.t V) k v :
  Forall (fun x => Q (snd x)) d -> Dict.get d k = Some v -> Q v.
Proof.
  intros F G. apply get_In in G. rewrite Forall_forall in F. exact (F _ G).
Qed.
End Values.

Lemma fold_offer_ok n sd o :
  prices_ok sd -> is_nan (snd o) = false -> prices_ok (fold_offer n sd o).
Proof.
  intros S N. destruct o as [s p]. unfold fold_offer, Dict.setdefault, prices_ok in *.
  simpl in N.
  destruct (Dict.get sd s) as [cards|] eqn:G.
  - pose proof (Forall_get _ sd s cards S G) as C. simpl in C.
    destruct (Dict.get cards n) as [stored|].
    + destruct (p <? stored); [|exact S].
      apply Forall_set; [exact S|]. now apply (Forall_set (fun v => is_nan v = false)).
    + apply Forall_set; [exact S|]. now apply (Forall_set (fun v => is_nan v = false)).
  - simpl. apply Forall_set; [apply Forall_set; [exact S|constructor]|].
    now repeat constructor.
Qed.

Lemma fold_prices_ok n prices sd :
  prices_ok sd -> Forall (fun o => is_nan (snd o) = false) prices ->
  prices_ok (fold_prices n prices sd).
Proof.
  unfold fold_prices. intros S F. revert sd S.
  induction F as [|o prices N F IH]; intros sd S; [exact S|].
  apply IH. now apply fold_offer_ok.
Qed.

Lemma fold_all_ok h sd :
  prices_ok sd ->
  Forall (fun x => Forall (fun o => is_nan (snd o) = false) (snd x)) h ->
  prices_ok (fold_all h sd).
Proof.
  unfold fold_all. intros S F. revert sd S.
  induction F as [|x h N F IH]; intros sd S; [exact S|].
  apply IH. now apply fold_prices_ok.
Qed.

Lemma process_deck_ok fetch deck i sd :
  process_deck fetch i [] deck = Ok sd -> prices_ok sd.
Proof.
  rewrite process_deck_history.
  destruct (history fetch i deck) as [h|e] eqn:H; [|discriminate].
  intros [= <-]. apply fold_all_ok; [constructor|].
  exact (history_not_nan _ _ _ _ H).
Qed.

(** ** The order of the report *)

Lemma ranked_perm sd : Permutation (ranked sd) sd.
Proof.
  unfold ranked, sorted_reverse.
  rewrite <- Permutation_rev, sorted_perm. symmetry. apply Permutation_rev.
Qed.

Lemma ranked_sorted sd :
  StronglySorted (fun x y => length (snd y) <= length (snd x))%nat (ranked sd).
Proof.
  unfold ranked, sorted_reverse.
  apply (StronglySorted_rev (fun x y => length (snd x) <= length (snd y))%nat).
  apply (sorted_sorted Nat.ltb (fun x : str * Dict.t float => length (snd x))
           (fun _ => True)).
  - intros a b _ _ H. apply Nat.ltb_lt in H. unfold Dict.t in *. lia.
  - intros a b _ _ H. apply Nat.ltb_ge in H. unfold Dict.t in *. lia.
  - intros a b c. lia.
  - apply Forall_forall. auto.
Qed.

Lemma by_price_perm cards : Permutation (by_price cards) cards.
Proof. apply sorted_perm. Qed.

Lemma by_price_sorted cards :
  Forall (fun o => is_nan (snd o) = false) cards ->
  StronglySorted (fun x y => (snd x <=? snd y) = true) (by_price cards).
Proof.
  apply (sorted_sorted PrimFloat.ltb (@snd str float)).
  - intros a b _ _. apply ltb_leb.
  - intros a b Na Nb. now apply not_ltb_leb.
  - intros a b c. apply leb_trans.
Qed.

Lemma detail_sorted sd :
  StronglySorted (fun b1 b2 => block_count b2 <= block_count b1)%nat (detail sd).
Proof. unfold detail. apply StronglySorted_map. simpl. apply ranked_sorted. Qed.

Lemma detail_blocks sd b :
  In b (detail sd) ->
  exists cards, In (block_seller b, cards) sd /\
                block_count b = length cards /\ block_cards b = by_price cards.
Proof.
  unfold detail. rewrite in_map_iff. intros [[s cards] [<- H]].
  exists cards. simpl. split; [|split; reflexivity].
  now apply (Permutation_in _ (ranked_perm sd)).
Qed.

Lemma summary_sorted sd :
  StronglySorted (fun l1 l2 => sum_covered l2 <= sum_covered l1)%nat (summary sd).
Proof.
  unfold summary. pose proof (ranked_sorted sd) as S.
  induction S as [|x l S IH F]; cbn [flat_map]; [constructor|].
  destruct (1 <=? length (snd x))%nat; cbn [app]; [|exact IH].
  constructor; [exact IH|]. cbn [sum_covered].
  apply Forall_forall. intros y Hy. apply in_flat_map in Hy as [z [Hz Hy]].
  rewrite Forall_forall in F. specialize (F z Hz).
  destruct (1 <=? length (snd z))%nat; [|destruct Hy].
  destruct Hy as [<-|[]]. exact F.
Qed.

End WithPlatform.

End ReportFacts.

(* ===================================================================== *)
(** * The properties of the specification                                 *)
(* ===================================================================== *)

Import DictFacts FloatFacts NormalizerFacts AggregatorFacts ParserFacts.
Import LoaderFacts SortFacts ReportFacts.

Local Open Scope float_scope.

Section Properties.
Context {Py : Platform}.

(** ** The aggregator *)

Lemma seen_not_nan h s n :
  Forall (fun x => Forall (fun o => is_nan (snd o) = false) (snd x)) h ->
  Forall (fun p => is_nan p = false) (seen h s n).
Proof.
  intros F. unfold seen. apply Forall_flat_map.
  eapply Forall_impl; [|exact F]. intros [n0 prices] N. simpl in *.
  destruct (PyStr.eqb n0 n); [|constructor].
  unfold prices_of. apply Forall_map.
  apply Forall_forall. intros o Ho. apply filter_In in Ho as [Ho _].
  rewrite Forall_forall in N. now apply N.
Qed.

Lemma stored_after_folds h s n :
  match lookup (fold_all h []) s n with
  | None => seen h s n = []
  | Some v => In v (seen h s n) /\ forall p, In p (seen h s n) -> (p <? v) = false
  end.
Proof.
  rewrite lookup_fold_all. change (lookup [] s n) with (@None float).
  apply running_min_spec.
Qed.

Lemma stored_never_rises n prices sd s n' v :
  lookup sd s n' = Some v ->
  exists v', lookup (fold_prices n prices sd) s n' = Some v' /\
             (v' = v \/ (v' <? v) = true).
Proof.
  intros L. rewrite lookup_fold_prices, L.
  destruct (PyStr.eqb n n'); [|eauto]. simpl.
  eexists. split; [reflexivity|]. apply min_chain.
Qed.

(** C1.  After every fold of one card's parse result the price stored for
    a seller and a normalized name is the lowest unit price folded so far
    for that pair.  One offer changes the stored price of its own pair
    only, and only when none is stored or the new price is strictly lower;
    after any sequence of folds the stored price is one of the prices
    seen, and none of them is strictly lower; in a run of the program (no
    parsed price is NaN) it is below or equal to each of them; a fold never
    raises a stored price; folding 100 then 80 leaves 80, and a later 100
    leaves 80. *)
Theorem stored_price_is_minimum :
  (forall n sd s p s' n',
      lookup (fold_offer n sd (s, p)) s' n' =
      if PyStr.eqb s s' && PyStr.eqb n n'
      then match lookup sd s n with
           | None => Some p
           | Some stored => if p <? stored then Some p else Some stored
           end
      else lookup sd s' n') /\
  (forall h s n,
      match lookup (fold_all h []) s n with
      | None => seen h s n = []
      | Some v => In v (seen h s n) /\ forall p, In p (seen h s n) -> (p <? v) = false
      end) /\
  (forall fetch deck sd,
      process_deck fetch 0 [] deck = Ok sd ->
      exists h, history fetch 0 deck = Ok h /\
                forall s n,
                  match lookup sd s n with
                  | None => seen h s n = []
                  | Some v => In v (seen h s n) /\
                              forall p, In p (seen h s n) -> (v <=? p) = true
                  end) /\
  (forall n prices sd s n' v,
      lookup sd s n' = Some v ->
      exists v', lookup (fold_prices n prices sd) s n' = Some v' /\
                 (v' = v \/ (v' <? v) = true)) /\
  lookup (fold_all [(card_a, [(seller_a, 100)]); (card_a, [(seller_a, 80)])] [])
         seller_a card_a = Some 80 /\
  lookup (fold_all [(card_a, [(seller_a, 100)]); (card_a, [(seller_a, 80)]);
                    (card_a, [(seller_a, 100)])] [])
         seller_a card_a = Some 80.
Proof.
  split; [|split; [|split; [|split; [|split]]]].
  - intros n sd s p s' n'. rewrite lookup_fold_offer.
    destruct (PyStr.eqb s s' && PyStr.eqb n n'); [|reflexivity].
    destruct (lookup sd s n) as [stored|]; [|reflexivity].
    unfold PyNum.min. now destruct (p <? stored).
  - apply stored_after_folds.
  - intros fetch deck sd R. rewrite process_deck_history in R.
    destruct (history fetch 0 deck) as [h|e] eqn:H; [|discriminate].
    injection R as <-. exists h. split; [reflexivity|]. intros s n.
    pose proof (stored_after_folds h s n) as M.
    pose proof (seen_not_nan h s n (history_not_nan _ _ _ _ H)) as N.
    rewrite Forall_forall in N.
    destruct (lookup (fold_all h []) s n) as [v|]; [|exact M].
    destruct M as [Hv M]. split; [exact Hv|]. intros p Hp.
    apply not_ltb_leb; auto.
  - apply stored_never_rises.
  - vm_compute. reflexivity.
  - vm_compute. reflexivity.
Qed.

(** ** The table parser *)

Lemma minimum_of_units h d s :
  parse_single_card_table h = Ok d ->
  match Dict.get d s with
  | None => seller_units h s = []
  | Some v =>
      seller_units h s <> [] /\
      v = fold_left PyNum.min (seller_units h s) infinity /\
      (forall u, In u (seller_units h s) -> (u <? v) = false) /\
      (Forall (fun u => is_nan u = false) (seller_units h s) ->
       In v (seller_units h s) /\
       forall u, In u (seller_units h s) -> (v <=? u) = true)
  end.
Proof.
  intros P. rewrite (parse_table_get h d s P).
  destruct (seller_units h s) as [|u0 us] eqn:U; [reflexivity|].
  rewrite <- U. split; [rewrite U; discriminate|]. split; [reflexivity|].
  destruct (default_chain (seller_units h s)) as (Nv & Hlow & Hin).
  split; [exact Hlow|]. intros N. rewrite Forall_forall in N.
  assert (Hv : In (fold_left PyNum.min (seller_units h s) infinity) (seller_units h s)).
  { destruct Hin as [Hin|[_ A]]; [exact Hin|].
    assert (I : In u0 (seller_units h s)) by (rewrite U; now left).
    specialize (A u0 I). rewrite (N u0 I) in A. discriminate. }
  split; [exact Hv|]. intros u Hu. apply not_ltb_leb; auto.
Qed.

Lemma parse_rows_app acc a b :
  parse_rows acc (a ++ b) = acc' <- parse_rows acc a ;; parse_rows acc' b.
Proof.
  revert acc. induction a as [|r a IH]; intros acc; [reflexivity|].
  cbn [app parse_rows]. destruct (parse_row acc r) as [acc1|e]; cbn [bind];
    [apply IH|reflexivity].
Qed.

Lemma offers_nothing_none r o : offers_nothing r -> row_offer r = Ok o -> o = None.
Proof.
  destruct r as [|td0 [|td1 [|td2 [|td3 more]]]]; cbn [offers_nothing row_offer];
    try (intros _ [= <-]; reflexivity).
  intros H. destruct (row_quantity td0) as [q|e]; [|discriminate]. cbn [bind].
  destruct (row_price td1) as [price|]; [|now intros [= <-]].
  destruct (anchor td2) as [s|]; [|now intros [= <-]].
  destruct H as [H|H]; discriminate.
Qed.

Lemma row_skipped before r after d :
  offers_nothing r ->
  parse_single_card_table (Markup (Some (before ++ r :: after))) = Ok d ->
  parse_single_card_table (Markup (Some (before ++ after))) = Ok d.
Proof.
  cbn [parse_single_card_table]. intros H. rewrite !parse_rows_app.
  destruct (parse_rows [] before) as [acc|e]; [|discriminate]. cbn [bind parse_rows].
  unfold parse_row. destruct (row_offer r) as [o|e] eqn:R; [|discriminate].
  rewrite (offers_nothing_none r o H R). cbn [bind]. auto.
Qed.

(** C2, as amended.  Whenever [parse_single_card_table] returns, the
    mapping holds exactly the sellers of the rows that offer a price, each
    with the lowest unit price of its rows in this call: the chain of [min]
    over them starting from infinity, below which no unit price of the
    seller lies, and which is one of them and below or equal to each when
    none of them is NaN.  A row whose price does not parse or that has no
    seller anchor contributes nothing: the table without it gives the same
    mapping.  Two rows of seller A, quantity 1 at 100 and quantity 2 at
    150, give [{A: 75}]. *)
Theorem table_minimum_per_seller :
  (forall h d,
      parse_single_card_table h = Ok d ->
      forall s,
        match Dict.get d s with
        | None => seller_units h s = []
        | Some v =>
            seller_units h s <> [] /\
            v = fold_left PyNum.min (seller_units h s) infinity /\
            (forall u, In u (seller_units h s) -> (u <? v) = false) /\
            (Forall (fun u => is_nan u = false) (seller_units h s) ->
             In v (seller_units h s) /\
             forall u, In u (seller_units h s) -> (v <=? u) = true)
        end) /\
  (forall before r after d,
      offers_nothing r ->
      parse_single_card_table (Markup (Some (before ++ r :: after))) = Ok d ->
      parse_single_card_table (Markup (Some (before ++ after))) = Ok d) /\
  parse_single_card_table two_rows_of_a = Ok [(seller_a, 75)].
Proof.
  split; [|split].
  - intros h d P s. now apply minimum_of_units.
  - apply row_skipped.
  - vm_compute. reflexivity.
Qed.

(** A seller whose only price text is [nan] gets the default infinity on
    every platform. *)
Lemma nan_price_on_every_platform :
  parse_single_card_table nan_then_fifty = Ok [(seller_a, infinity); (lit "B", 50)] /\
  seller_units nan_then_fifty seller_a = [nan] /\
  ~ In infinity (seller_units nan_then_fifty seller_a).
Proof.
  split; [|split]; [vm_compute; reflexivity|vm_compute; reflexivity|].
  change (seller_units nan_then_fifty seller_a) with [nan].
  intros [H|[]]. discriminate.
Qed.

(** C3: the code at the failing input.  A quantity element with the text
    [abc] makes [int()] raise ValueError, which leaves the parser and ends
    the run; the same row without the quantity element is read with the
    quantity 1. *)
Theorem unparsable_quantity_raises :
  parse_single_card_table bad_quantity_page = Raise ValueError /\
  main counterspell_file (fun _ _ => Some bad_quantity_page) = Raise ValueError /\
  parse_single_card_table no_quantity_page = Ok [(seller_a, 100)].
Proof. split; [|split]; vm_compute; reflexivity. Qed.

(** ** The unit price *)

Lemma unit_price_positive price q u :
  (0 < q)%Z -> price_per_unit price q = Ok u ->
  exists f, PyNum.float_of_int q = Ok f /\ (f =? 0) = false /\ u = price / f.
Proof.
  intros Hq. unfold price_per_unit. apply Z.ltb_lt in Hq. rewrite Hq.
  unfold PyNum.truediv. destruct (PyNum.float_of_int q) as [f|e]; [|discriminate].
  simpl. change zero with 0. destruct (f =? 0) eqn:E; [discriminate|].
  intros [= <-]. eauto.
Qed.

Lemma unit_price_not_positive price q :
  (q <= 0)%Z -> price_per_unit price q = Ok price.
Proof.
  intros Hq. unfold price_per_unit.
  destruct (0 <? q)%Z eqn:E; [|reflexivity]. apply Z.ltb_lt in E. lia.
Qed.

(** C7.  A row that offers a unit price has at least four cells, a
    quantity, a price and a seller; the unit price is the price divided by
    the quantity (converted to a float, and not zero) when the quantity is
    positive, and the price itself when it is zero or negative.  For a
    quantity that is not positive nothing is divided, whatever the price:
    the division that would raise ZeroDivisionError is never reached. *)
Theorem unit_price_rule :
  (forall r seller u,
      row_offer r = Ok (Some (seller, u)) ->
      exists td0 td1 td2 td3 more q price,
        r = td0 :: td1 :: td2 :: td3 :: more /\
        row_quantity td0 = Ok q /\ row_price td1 = Some price /\
        anchor td2 = Some seller /\
        ((0 < q)%Z ->
         exists f, PyNum.float_of_int q = Ok f /\ (f =? 0) = false /\ u = price / f) /\
        ((q <= 0)%Z -> u = price)) /\
  (forall price q, (q <= 0)%Z -> price_per_unit price q = Ok price) /\
  (forall price, PyNum.truediv price 0 = Raise ZeroDivisionError).
Proof.
  split; [|split].
  - intros r seller u H.
    destruct r as [|td0 [|td1 [|td2 [|td3 more]]]]; try discriminate.
    unfold row_offer in H.
    destruct (row_quantity td0) as [q|e] eqn:Q; [|discriminate]. simpl in H.
    destruct (row_price td1) as [price|] eqn:P; [|discriminate].
    destruct (anchor td2) as [s|] eqn:A; [|discriminate].
    destruct (price_per_unit price q) as [ppu|e] eqn:U; [|discriminate].
    simpl in H. injection H as <- <-.
    exists td0, td1, td2, td3, more, q, price. repeat split; auto.
    + intros Hq. now apply unit_price_positive.
    + intros Hq. rewrite (unit_price_not_positive price q Hq) in U. congruence.
  - apply unit_price_not_positive.
  - intros price. reflexivity.
Qed.

(** ** The values of the mapping *)

(** A row whose price text is [nan], on every platform. *)
Lemma default_infinity_on_every_platform :
  parse_single_card_table nan_price_page = Ok [(seller_a, infinity)] /\
  seller_units nan_price_page seller_a = [nan] /\
  is_finite infinity = false.
Proof. split; [|split]; vm_compute; reflexivity. Qed.

(** C10, as amended.  Whenever [parse_single_card_table] returns, each
    value of the mapping belongs to a seller with at least one parsed row
    and is not NaN; it is the unit price of one of the seller's rows, or
    else the default infinity, and then every unit price of the seller is
    NaN; it is finite when all unit prices of the seller are. *)
Theorem table_values :
  forall h d s v,
    parse_single_card_table h = Ok d -> In (s, v) d ->
    seller_units h s <> [] /\
    is_nan v = false /\
    (In v (seller_units h s) \/
     v = infinity /\ forall u, In u (seller_units h s) -> is_nan u = true) /\
    (Forall (fun u => is_finite u = true) (seller_units h s) -> is_finite v = true).
Proof.
  intros h d s v P H.
  destruct (parse_table_values h d s v P H) as [N ->].
  destruct (default_chain (seller_units h s)) as (Nv & _ & Hin).
  repeat split; auto.
  intros F. rewrite Forall_forall in F.
  destruct Hin as [Hin|[_ A]]; [now apply F|].
  destruct (seller_units h s) as [|u us]; [now elim N|].
  specialize (F u (or_introl eq_refl)). specialize (A u (or_introl eq_refl)).
  unfold is_finite in F. rewrite A in F. discriminate.
Qed.

(** ** The loader *)

(** A card name with a set code and no quantity, on every platform. *)
Lemma no_quantity_on_every_platform :
  load_decklist (File [lit "Brainstorm (mh2)"] None) =
  Ok ([], [Unrecognized (lit "Brainstorm (mh2)")]).
Proof. vm_compute. reflexivity. Qed.

(** C4, as amended.  The quantity prefix is required: a line that is
    neither blank nor a comment and whose first character, once trimmed,
    is not a digit adds no CardRequest and is reported as unrecognized; the
    line [2x Brainstorm (mh2)] gives quantity 2, name [Brainstorm] and set
    [mh2]. *)
Theorem quantity_prefix_required :
  (forall line c t deck diags,
      PyStr.strip line = c :: t ->
      is_comment (c :: t) = false ->
      PyStr.is_digit c = false ->
      load_line line (deck, diags) = Ok (deck, diags ++ [Unrecognized (c :: t)])) /\
  load_decklist (File [lit "2x Brainstorm (mh2)"] None) =
  Ok ([{| qty := 2; name := lit "Brainstorm";
          normalized := lit "brainstorm"; set_code := lit "mh2" |}], []).
Proof.
  split.
  - intros line c t deck diags S C D. unfold load_line. rewrite S, C.
    rewrite <- S, strip_idem, S. now rewrite (line_match_no_digit c t D).
  - vm_compute. reflexivity.
Qed.

(** The line [0 Forest], on every platform. *)
Lemma zero_quantity_on_every_platform :
  load_decklist (File [lit "0 Forest"] None) =
  Ok ([{| qty := 0; name := lit "Forest";
          normalized := lit "forest"; set_code := [] |}], []).
Proof. vm_compute. reflexivity. Qed.

(** C5, as amended.  No CardRequest the loader returns has a negative
    quantity. *)
Theorem quantities_are_not_negative :
  forall file deck diags,
    load_decklist file = Ok (deck, diags) ->
    Forall (fun c => (0 <= qty c)%Z) deck.
Proof.
  intros [|lines failure] deck diags; cbn [load_decklist].
  - intros [= <- _]. constructor.
  - destruct (load_lines lines ([], [])) as [[deck' diags']|e] eqn:L; [|discriminate].
    cbn [bind]. destruct failure; [discriminate|]. intros [= <- <-].
    assert (Q0 : quantities_ok ([], [])) by constructor.
    exact (load_lines_quantities lines ([], []) _ Q0 L).
Qed.

(** ** The normalizer *)

Lemma lazy_name_one_line s acc nm g :
  lazy_name acc s = Some (nm, g) ->
  forallb PyStr.is_dot acc = true -> no_line_feed nm = true.
Proof.
  revert acc. induction s as [|c t IH]; intros acc H A; simpl in H; [discriminate|].
  destruct (PyStr.is_dot c) eqn:D; [|discriminate].
  assert (A' : forallb PyStr.is_dot (c :: acc) = true) by (simpl; now rewrite D).
  destruct (set_tail t) as [g'|].
  - injection H as <- _. unfold no_line_feed.
    apply (forallb_rev_true PyStr.is_dot (c :: acc) A').
  - exact (IH _ H A').
Qed.

Lemma backtrack_spaces_one_line given s nm g :
  backtrack_spaces given s = Some (nm, g) -> no_line_feed nm = true.
Proof.
  revert s. induction given as [|c more IH]; intros s H; simpl in H.
  - destruct (lazy_name [] s) as [[nm' g']|] eqn:L; [|discriminate].
    injection H as <- _. exact (lazy_name_one_line s [] _ _ L eq_refl).
  - destruct (lazy_name [] s) as [[nm' g']|] eqn:L.
    + injection H as <- _. exact (lazy_name_one_line s [] _ _ L eq_refl).
    + exact (IH _ H).
Qed.

Lemma line_match_one_line s q nm g :
  line_match s = Some (q, nm, g) -> no_line_feed nm = true.
Proof.
  unfold line_match.
  destruct (PyStr.take_while PyStr.is_digit s) as [|d ds]; [discriminate|].
  match goal with |- context [PyStr.take_while PyStr.is_space ?r] =>
    destruct (PyStr.take_while PyStr.is_space r) end; [discriminate|].
  match goal with |- context [backtrack_spaces ?a ?b] =>
    destruct (backtrack_spaces a b) as [[nm' g']|] eqn:B end; [|discriminate].
  intros [= _ <- _]. exact (backtrack_spaces_one_line _ _ _ _ B).
Qed.

Lemma load_line_normalized (F : case_facts) line acc acc' :
  load_line line acc = Ok acc' ->
  Forall (fun c => normal_form (normalized c)) (fst acc) ->
  Forall (fun c => normal_form (normalized c)) (fst acc').
Proof.
  destruct acc as [deck diags]. unfold load_line.
  destruct (PyStr.strip line) as [|c t]; [now intros [= <-]|].
  destruct (is_comment (c :: t)); [now intros [= <-]|].
  destruct (line_match (PyStr.strip (c :: t))) as [[[q nm] g]|] eqn:M;
    [|now intros [= <-]].
  destruct (PyNum.int_of_str q) as [n|e]; [|discriminate]. simpl.
  intros [= <-] A. simpl in *. apply Forall_app. split; [exact A|].
  constructor; [|constructor]. simpl.
  apply (normalize_normal_form F). exact (line_match_one_line _ _ _ _ M).
Qed.

Lemma load_lines_normalized (F : case_facts) lines acc acc' :
  load_lines lines acc = Ok acc' ->
  Forall (fun c => normal_form (normalized c)) (fst acc) ->
  Forall (fun c => normal_form (normalized c)) (fst acc').
Proof.
  revert acc. induction lines as [|l ls IH]; intros acc; simpl.
  - now intros [= <-].
  - destruct (load_line l acc) as [acc1|e] eqn:L; [|discriminate]. simpl.
    intros H A. apply (IH _ H). exact (load_line_normalized F _ _ _ L A).
Qed.

(** The normalizer on a text of two lines, on every platform. *)
Lemma two_lines_on_every_platform :
  normalize_card_name two_lines = lit " b" /\
  normalize_card_name (normalize_card_name two_lines) = lit "b" /\
  normalize_card_name (normalize_card_name two_lines) <> normalize_card_name two_lines.
Proof. split; [|split]; vm_compute; [reflexivity|reflexivity|discriminate]. Qed.

(** C8, as amended.  Given the facts of the Unicode database on lower
    case ([case_facts]), the normalizer is idempotent on every text of one
    line (no line feed in it), and so on the normalized name of every
    CardRequest the loader returns; the two sample names normalize as the
    specification says. *)
Theorem normalize_idempotent_on_lines :
  case_facts ->
  (forall x, no_line_feed x = true ->
             normalize_card_name (normalize_card_name x) = normalize_card_name x) /\
  (forall file deck diags,
      load_decklist file = Ok (deck, diags) ->
      Forall (fun c => normalize_card_name (normalized c) = normalized c) deck) /\
  normalize_card_name (lit "Sanctum of the Sun // Sanctum of Stars") =
  lit "sanctum of the sun" /\
  normalize_card_name (lit "  Lightning   Bolt ") = lit "lightning bolt".
Proof.
  intros F. split; [|split; [|split]].
  - intros x H. apply normal_form_fixed. now apply normalize_normal_form.
  - intros [|lines failure] deck diags; cbn [load_decklist].
    + intros [= <- _]. constructor.
    + destruct (load_lines lines ([], [])) as [[deck' diags']|e] eqn:L; [|discriminate].
      cbn [bind]. destruct failure; [discriminate|]. intros [= <- <-].
      pose proof (load_lines_normalized F lines ([], []) _ L) as A.
      cbn [fst] in A. eapply Forall_impl; [|apply A; constructor].
      intros c. apply normal_form_fixed.
  - vm_compute. reflexivity.
  - vm_compute. reflexivity.
Qed.

(** ** The URL *)

(** C9 as stated fails: the ampersand and the apostrophe of a card name
    reach the URL as they are, where URL encoding writes [%26] and [%27]. *)
Lemma url_is_not_encoded :
  url secret_lair = search_url ++ lit "R&D's+Secret+Lair" /\
  search_url ++ quote_plus (query secret_lair) = search_url ++ lit "R%26D%27s+Secret+Lair" /\
  url secret_lair <> search_url ++ quote_plus (query secret_lair).
Proof. split; [|split]; vm_compute; [reflexivity|reflexivity|discriminate]. Qed.

Lemma plus_for_space_no_space s : ~ In (chr " ") (map plus_for_space s).
Proof.
  rewrite in_map_iff. intros [c [E _]]. unfold plus_for_space in E.
  destruct (N.eqb_spec c " "%char); [discriminate|]. congruence.
Qed.

(** C9, as amended.  The URL is the fixed search address followed by the
    query text, the card name and, when there is a set code, a space and
    the code in parentheses, in which every space is replaced by [+] and
    every other character is left as it is. *)
Theorem url_replaces_spaces :
  forall c,
    url c = search_url ++ map plus_for_space (query c) /\
    query c = name c ++ match set_code c with
                        | [] => []
                        | _ :: _ => lit " (" ++ set_code c ++ lit ")"
                        end /\
    ~ In (chr " ") (map plus_for_space (query c)).
Proof.
  intros c. unfold url. rewrite replace_space. split; [reflexivity|]. split.
  - unfold query. destruct (set_code c); [now rewrite app_nil_r|reflexivity].
  - apply plus_for_space_no_space.
Qed.

(** ** The report *)

(** C6.  In every report of a run the file holds the blocks of the
    console detail; the blocks, and the summary lines, stand in descending
    order of the number of cards of the seller, and the cards of a block
    in ascending order of price.  With two cards that seller X offers at 50
    and at 30, the summary shows 2 cards and the total 80 for X, and the
    block of X lists the card at 30 before the card at 50. *)
Theorem report_order :
  (forall file fetch diags r,
      main file fetch = Ok (Reported diags r) ->
      file_detail r = console_detail r /\
      StronglySorted (fun b1 b2 => (block_count b2 <= block_count b1)%nat)
                     (console_detail r) /\
      (forall b, In b (console_detail r) ->
                 StronglySorted (fun x y => (snd x <=? snd y) = true) (block_cards b)) /\
      StronglySorted (fun l1 l2 => (sum_covered l2 <= sum_covered l1)%nat)
                     (console_summary r)) /\
  main two_card_file two_card_fetch =
  Ok (Reported []
        {| console_detail := [block_of_x];
           console_summary := [{| sum_seller := lit "X"; sum_covered := 2;
                                  sum_total := 80 |}];
           file_detail := [block_of_x] |}).
Proof.
  split.
  - intros file fetch diags r M. unfold main in M.
    destruct (load_decklist file) as [[deck ds]|e]; [|discriminate]. simpl in M.
    destruct deck as [|c cs]; [discriminate|].
    destruct (process_deck fetch 0 [] (c :: cs)) as [sd|e] eqn:R; [|discriminate].
    simpl in M. injection M as _ <-. simpl.
    pose proof (process_deck_ok _ _ _ _ R) as K.
    split; [reflexivity|]. split; [apply detail_sorted|]. split; [|apply summary_sorted].
    intros b Hb. destruct (detail_blocks sd b Hb) as [cards [Hc [_ ->]]].
    apply by_price_sorted. unfold prices_ok in K. rewrite Forall_forall in K.
    exact (K _ Hc).
  - vm_compute. destruct Py as [d l m []]; reflexivity.
Qed.

End Properties.

Local Close Scope float_scope.

Section Further.
Context {Py : Platform}.

(* ===================================================================== *)
(** * Further properties of the loader                                    *)
(* ===================================================================== *)

Lemma load_line_skip line acc :
  meaningful line = false -> load_line line acc = Ok acc.
Proof.
  unfold meaningful, load_line. destruct acc as [deck diags].
  destruct (PyStr.strip line) as [|c t]; [reflexivity|].
  intros H. apply negb_false_iff in H. now rewrite H.
Qed.

Lemma load_lines_filter lines acc :
  load_lines lines acc = load_lines (filter meaningful lines) acc.
Proof.
  revert acc. induction lines as [|l ls IH]; intros acc; [reflexivity|].
  simpl. destruct (meaningful l) eqn:M.
  - simpl. destruct (load_line l acc); simpl; [apply IH|reflexivity].
  - rewrite (load_line_skip l acc M). simpl. apply IH.
Qed.

(** What a line adds, whatever was loaded before it: a CardRequest or a
    diagnostic, nothing at all, or the exception of its quantity. *)
Lemma load_line_adds line :
  exists r : result (list card * list diagnostic),
    (forall deck diags,
        load_line line (deck, diags) =
        x <- r ;; Ok (deck ++ fst x, diags ++ snd x)) /\
    (forall d g, r = Ok (d, g) ->
                 (length d + length g = if meaningful line then 1 else 0)%nat).
Proof.
  unfold load_line, meaningful.
  destruct (PyStr.strip line) as [|c t] eqn:S.
  - exists (Ok ([], [])). split; [intros; cbn; now rewrite !app_nil_r|].
    now intros d g [= <- <-].
  - destruct (is_comment (c :: t)).
    + exists (Ok ([], [])). split; [intros; cbn; now rewrite !app_nil_r|].
      now intros d g [= <- <-].
    + destruct (line_match (PyStr.strip (c :: t))) as [[[q nm] g]|] eqn:M.
      * destruct (line_match_quantity _ _ _ _ M) as [N A].
        rewrite (int_of_digits q N A).
        destruct (PyNum.over_limit (length q)).
        -- exists (Raise ValueError). split; [reflexivity|discriminate].
        -- exists (Ok ([card_of_groups q nm g (PyNum.value_of_digits q)], [])).
           split; [intros; cbn; now rewrite app_nil_r|]. now intros d g' [= <- <-].
      * exists (Ok ([], [Unrecognized (c :: t)])).
        split; [intros; cbn; now rewrite app_nil_r|]. now intros d g [= <- <-].
Qed.

Lemma load_lines_adds lines :
  exists r : result (list card * list diagnostic),
    (forall deck diags,
        load_lines lines (deck, diags) =
        x <- r ;; Ok (deck ++ fst x, diags ++ snd x)) /\
    (forall d g, r = Ok (d, g) ->
                 (length d + length g = length (filter meaningful lines))%nat).
Proof.
  induction lines as [|l ls (r2 & H2 & L2)].
  - exists (Ok ([], [])). split; [intros; cbn; now rewrite !app_nil_r|].
    now intros d g [= <- <-].
  - destruct (load_line_adds l) as (r1 & H1 & L1).
    destruct r1 as [[d1 g1]|e].
    + destruct r2 as [[d2 g2]|e].
      * exists (Ok (d1 ++ d2, g1 ++ g2)). split.
        -- intros deck diags. cbn [load_lines]. rewrite H1. cbn [bind fst snd].
           rewrite H2. cbn [bind fst snd]. now rewrite !app_assoc.
        -- intros d g [= <- <-]. cbn [filter]. rewrite !length_app.
           specialize (L1 d1 g1 eq_refl). specialize (L2 d2 g2 eq_refl).
           destruct (meaningful l); cbn [length]; lia.
      * exists (Raise e). split; [|discriminate].
        intros deck diags. cbn [load_lines]. rewrite H1. cbn [bind fst snd].
        now rewrite H2.
    + exists (Raise e). split; [|discriminate].
      intros deck diags. cbn [load_lines]. now rewrite H1.
Qed.

Lemma load_lines_app l1 l2 acc :
  load_lines (l1 ++ l2) acc = acc' <- load_lines l1 acc ;; load_lines l2 acc'.
Proof.
  revert acc. induction l1 as [|l ls IH]; intros acc; [reflexivity|].
  simpl. destruct (load_line l acc); simpl; [apply IH|reflexivity].
Qed.

(** X1.  Blank lines and comment lines do not count: a decklist loads as
    the decklist without them does. *)
Theorem comments_and_blanks_ignored :
  forall lines failure,
    load_decklist (File lines failure) =
    load_decklist (File (filter meaningful lines) failure).
Proof. intros lines failure. cbn [load_decklist]. now rewrite <- load_lines_filter. Qed.

(** X2.  The lines are loaded one by one and in order: two decklists, one
    after the other, give what their concatenation gives, CardRequests,
    diagnostics and exception alike. *)
Theorem load_decklist_app :
  forall l1 l2,
    load_decklist (File (l1 ++ l2) None) =
    x <- load_decklist (File l1 None) ;;
    y <- load_decklist (File l2 None) ;;
    Ok (fst x ++ fst y, snd x ++ snd y).
Proof.
  intros l1 l2. cbn [load_decklist]. rewrite load_lines_app.
  destruct (load_lines l1 ([], [])) as [[d1 g1]|e]; [|reflexivity]. cbn [bind fst snd].
  destruct (load_lines_adds l2) as (r & H & _). rewrite (H d1 g1), (H [] []).
  destruct r as [[d2 g2]|e]; reflexivity.
Qed.

(** X3.  Every line that is neither blank nor a comment gives one
    CardRequest or one diagnostic, never both and never none. *)
Theorem one_result_per_line :
  forall lines failure deck diags,
    load_decklist (File lines failure) = Ok (deck, diags) ->
    (length deck + length diags = length (filter meaningful lines))%nat.
Proof.
  intros lines failure deck diags. cbn [load_decklist].
  destruct (load_lines_adds lines) as (r & H & L). rewrite (H [] []).
  destruct r as [[d g]|e]; [|discriminate]. cbn [bind fst snd app].
  destruct failure; [discriminate|]. intros [= <- <-]. now apply L.
Qed.

Lemma take_while_app (p : char -> bool) a b :
  forallb p a = true ->
  match b with c :: _ => p c = false | [] => True end ->
  PyStr.take_while p (a ++ b) = a /\ PyStr.drop_while p (a ++ b) = b.
Proof.
  intros A B. induction a as [|x a IH]; simpl.
  - destruct b as [|c b]; [now split|]. simpl. now rewrite B.
  - simpl in A. apply andb_true_iff in A as [Hx A]. rewrite Hx.
    destruct (IH A) as [-> ->]. now split.
Qed.

Lemma set_tail_of_suffix tail :
  match tail with
  | Some (gap, code) =>
      forallb PyStr.is_space gap = true /\ code <> [] /\ forallb not_close code = true
  | None => True
  end ->
  set_tail (set_suffix tail) = Some (option_map snd tail).
Proof.
  destruct tail as [[gap code]|]; [|reflexivity].
  intros (G & N & C). unfold set_tail, set_suffix.
  change (lit "(") with [chr "("]. change (lit ")") with [chr ")"].
  destruct (take_while_app PyStr.is_space gap ([chr "("] ++ code ++ [chr ")"]) G eq_refl)
    as [_ ->].
  cbn [app]. change (N.eqb "("%char "("%char) with true. cbv iota.
  destruct (take_while_app (fun c => negb (N.eqb c ")"%char)) code [chr ")"] C eq_refl)
    as [-> ->].
  destruct code as [|c code]; [now elim N|]. reflexivity.
Qed.

(** Inside the name, the tail of the pattern does not match. *)
Lemma set_tail_inside u t :
  u <> [] -> forallb PyStr.is_dot u = true -> forallb not_open u = true ->
  ends_clean u = true ->
  set_tail (u ++ t) = None.
Proof.
  intros N D O E. unfold set_tail.
  assert (W : match PyStr.drop_while PyStr.is_space (u ++ t) with
              | c :: _ => N.eqb c "("%char = false
              | [] => False
              end).
  { clear D. induction u as [|c u IH]; [now elim N|].
    cbn [app PyStr.drop_while]. rewrite ends_clean_cons in E.
    cbn [forallb] in O. apply andb_true_iff in O as [Oc O].
    destruct (PyStr.is_space c) eqn:Sc.
    - destruct u as [|d u]; [discriminate|].
      apply IH; [discriminate|exact O|exact E].
    - unfold not_open in Oc. now apply negb_true_iff in Oc. }
  destruct (PyStr.drop_while PyStr.is_space (u ++ t)) as [|c r]; [now elim W|].
  rewrite W.
  destruct u as [|c0 u]; [now elim N|]. cbn [app]. cbn [forallb] in D.
  apply andb_true_iff in D as [Dc _].
  unfold at_end. destruct (u ++ t) as [|x y]; [|reflexivity].
  unfold PyStr.is_dot in Dc. apply negb_true_iff in Dc. now rewrite Dc.
Qed.

Lemma lazy_name_of_line nm t g acc :
  nm <> [] -> forallb PyStr.is_dot nm = true -> forallb not_open nm = true ->
  ends_clean nm = true -> set_tail t = Some g ->
  lazy_name acc (nm ++ t) = Some (rev acc ++ nm, g).
Proof.
  intros N D O E T. revert acc.
  induction nm as [|c u IH]; intros acc; [now elim N|].
  cbn [app lazy_name]. cbn [forallb] in D, O.
  apply andb_true_iff in D as [Dc D]. apply andb_true_iff in O as [Oc O].
  rewrite Dc. destruct u as [|d u].
  - cbn [app]. rewrite T. cbn [rev]. reflexivity.
  - rewrite ends_clean_cons in E.
    rewrite (set_tail_inside (d :: u) t); [|discriminate|exact D|exact O|exact E].
    rewrite IH; [|discriminate|exact D|exact O|exact E].
    cbn [rev]. now rewrite <- app_assoc.
Qed.

Lemma spaces_then_name (q : str) w ws nm tail :
  PyStr.is_space w = true -> forallb PyStr.is_space ws = true ->
  nm <> [] -> starts_clean nm = true -> ends_clean nm = true ->
  forallb PyStr.is_dot nm = true -> forallb not_open nm = true ->
  match tail with
  | Some (gap, code) =>
      forallb PyStr.is_space gap = true /\ code <> [] /\ forallb not_close code = true
  | None => True
  end ->
  match PyStr.take_while PyStr.is_space ((w :: ws) ++ nm ++ set_suffix tail) with
  | [] => None
  | _ :: ws0 =>
      match backtrack_spaces (rev ws0)
              (PyStr.drop_while PyStr.is_space ((w :: ws) ++ nm ++ set_suffix tail)) with
      | Some (nm0, g) => Some (q, nm0, g)
      | None => None
      end
  end = Some (q, nm, option_map snd tail).
Proof.
  intros Sw0 Sw Nn Sn En Dn On T.
  assert (Hs : match nm ++ set_suffix tail with
               | c :: _ => PyStr.is_space c = false
               | [] => True
               end).
  { destruct nm as [|c nm]; [now elim Nn|]. cbn [app]. simpl in Sn.
    now apply negb_true_iff in Sn. }
  assert (Sw' : forallb PyStr.is_space (w :: ws) = true) by (cbn [forallb]; now rewrite Sw0).
  destruct (take_while_app PyStr.is_space (w :: ws) _ Sw' Hs) as [-> ->].
  assert (B : backtrack_spaces (rev ws) (nm ++ set_suffix tail)
              = Some (nm, option_map snd tail)).
  { pose proof (lazy_name_of_line nm (set_suffix tail) (option_map snd tail) []
                  Nn Dn On En (set_tail_of_suffix tail T)) as L.
    cbn [rev app] in L. destruct (rev ws); cbn [backtrack_spaces]; now rewrite L. }
  now rewrite B.
Qed.

Lemma space_not_digit_or_times w :
  PyStr.is_space w = true ->
  PyStr.is_digit w = false /\ N.eqb (PyStr.lower_ascii w) "x"%char = false.
Proof.
  intros H. split.
  - destruct (PyStr.is_digit w) eqn:D; [|reflexivity].
    rewrite (digit_not_space w D) in H. discriminate.
  - by_lower.
Qed.

Lemma ascii_not_digit c :
  PyStr.is_ascii c = true -> PyStr.is_ascii_digit c = false -> PyStr.is_digit c = false.
Proof. intros A D. unfold PyStr.is_digit, PyStr.decimal. now rewrite D, A. Qed.

Lemma times_not_digit c :
  N.eqb (PyStr.lower_ascii c) "x"%char = true -> PyStr.is_digit c = false.
Proof.
  intros H. apply ascii_not_digit; revert H; by_lower.
Qed.

Lemma line_match_of_line q x ws nm tail :
  q <> [] -> forallb PyStr.is_digit q = true ->
  is_times x = true ->
  ws <> [] -> forallb PyStr.is_space ws = true ->
  nm <> [] -> starts_clean nm = true -> ends_clean nm = true ->
  forallb PyStr.is_dot nm = true -> forallb not_open nm = true ->
  match tail with
  | Some (gap, code) =>
      forallb PyStr.is_space gap = true /\ code <> [] /\ forallb not_close code = true
  | None => True
  end ->
  line_match (decklist_line q x ws nm tail) = Some (q, nm, option_map snd tail).
Proof.
  intros Nq Dq X Nw Sw Nn Sn En Dn On T.
  unfold line_match, decklist_line.
  destruct ws as [|w ws]; [now elim Nw|]. cbn [forallb] in Sw.
  apply andb_true_iff in Sw as [Sw0 Sw].
  destruct (space_not_digit_or_times w Sw0) as [Wd Wx].
  assert (Hd : match x ++ (w :: ws) ++ nm ++ set_suffix tail with
               | c :: _ => PyStr.is_digit c = false
               | [] => True
               end).
  { destruct x as [|c [|? ?]]; try discriminate; cbn [app]; [exact Wd|].
    simpl in X. now apply times_not_digit. }
  destruct (take_while_app PyStr.is_digit q _ Dq Hd) as [-> ->].
  destruct q as [|q0 q]; [now elim Nq|]. cbv zeta.
  destruct x as [|c [|? ?]]; try discriminate.
  - change ([] ++ (w :: ws) ++ nm ++ set_suffix tail)
      with (w :: (ws ++ nm ++ set_suffix tail)).
    cbv iota. rewrite Wx.
    now apply (spaces_then_name (q0 :: q) w ws nm tail).
  - change ([c] ++ (w :: ws) ++ nm ++ set_suffix tail)
      with (c :: ((w :: ws) ++ nm ++ set_suffix tail)).
    cbv iota. simpl in X. rewrite X.
    now apply (spaces_then_name (q0 :: q) w ws nm tail).
Qed.

Lemma digit_starts c t : PyStr.is_digit c = true ->
  starts_clean (c :: t) = true /\ is_comment (c :: t) = false.
Proof.
  intros H. split.
  - cbn [starts_clean]. now rewrite (digit_not_space c H).
  - unfold is_comment, PyStr.startswith. change (lit "#") with [chr "#"].
    change (lit "//") with [chr "/"; chr "/"]. cbn [PyStr.strip_prefix].
    assert (N.eqb "#"%char c = false /\ N.eqb "/"%char c = false) as [-> ->];
      [|reflexivity].
    split.
    + destruct (N.eqb_spec "#"%char c) as [<-|]; [|reflexivity].
      vm_compute in H. discriminate.
    + destruct (N.eqb_spec "/"%char c) as [<-|]; [|reflexivity].
      vm_compute in H. discriminate.
Qed.

Lemma decklist_line_clean q x ws nm tail :
  nm <> [] -> ends_clean nm = true ->
  ends_clean (decklist_line q x ws nm tail) = true.
Proof.
  intros N E. unfold decklist_line.
  assert (K : ends_clean (nm ++ set_suffix tail) = true).
  { destruct tail as [[gap code]|]; cbn [set_suffix].
    - rewrite !app_assoc. now rewrite ends_clean_app by discriminate.
    - now rewrite app_nil_r. }
  assert (M : nm ++ set_suffix tail <> []) by (destruct nm; [now elim N|discriminate]).
  rewrite !app_assoc, <- app_assoc. now rewrite ends_clean_app.
Qed.

(** X4.  The accepted grammar: a line made of digits, an optional [x] or
    [X], white space, a name and an optional set code in parentheses is
    loaded as one CardRequest with that quantity, that name and that
    code in lower case, unless the digits are more than [int()] converts:
    then ValueError is raised.  The name is one line, has no white space
    at its ends and no opening parenthesis, the code is not empty and has
    no closing parenthesis. *)
Theorem decklist_line_is_loaded :
  forall q x ws nm tail deck diags,
    q <> [] -> forallb PyStr.is_digit q = true ->
    is_times x = true ->
    ws <> [] -> forallb PyStr.is_space ws = true ->
    nm <> [] -> starts_clean nm = true -> ends_clean nm = true ->
    forallb PyStr.is_dot nm = true -> forallb not_open nm = true ->
    match tail with
    | Some (gap, code) =>
        forallb PyStr.is_space gap = true /\ code <> [] /\ forallb not_close code = true
    | None => True
    end ->
    load_line (decklist_line q x ws nm tail) (deck, diags) =
    if PyNum.over_limit (length q) then Raise ValueError
    else Ok (deck ++ [{| qty := PyNum.value_of_digits q;
                         name := nm;
                         normalized := normalize_card_name nm;
                         set_code := PyStr.lower (PyStr.strip
                                       (match tail with
                                        | Some (_, code) => code
                                        | None => []
                                        end)) |}],
             diags).
Proof.
  intros q x ws nm tail deck diags Nq Dq X Nw Sw Nn Sn En Dn On T.
  pose proof (line_match_of_line q x ws nm tail Nq Dq X Nw Sw Nn Sn En Dn On T) as M.
  pose proof (decklist_line_clean q x ws nm tail Nn En) as C.
  assert (H : exists c t, decklist_line q x ws nm tail = c :: t /\ PyStr.is_digit c = true).
  { unfold decklist_line. destruct q as [|c q]; [now elim Nq|]. cbn [app forallb] in *.
    apply andb_true_iff in Dq as [Dc _]. eauto. }
  destruct H as (c & t & L & Dc). destruct (digit_starts c t Dc) as [S K].
  assert (I : PyStr.strip (decklist_line q x ws nm tail) = decklist_line q x ws nm tail).
  { rewrite L in *. now apply strip_clean. }
  rewrite (load_line_matched _ deck diags q nm (option_map snd tail)).
  - unfold card_of_groups. rewrite (strip_clean nm Sn En).
    now destruct tail as [[gap code]|].
  - rewrite I, L. discriminate.
  - now rewrite I, L.
  - now rewrite I.
Qed.

(** Where a CardRequest comes from. *)
Lemma load_lines_origin lines acc acc' (Q : card -> Prop) :
  (forall line q nm g,
      In line lines -> line_match (PyStr.strip line) = Some (q, nm, g) ->
      Q (card_of_groups q nm g (PyNum.value_of_digits q))) ->
  load_lines lines acc = Ok acc' -> Forall Q (fst acc) -> Forall Q (fst acc').
Proof.
  revert acc. induction lines as [|l ls IH]; intros acc H; cbn [load_lines].
  - now intros [= <-].
  - destruct (load_line l acc) as [acc1|e] eqn:L; [|discriminate]. cbn [bind].
    intros R A. apply (IH acc1); [intros; eapply H; eauto; now right|exact R|].
    clear R IH. destruct acc as [deck diags]. unfold load_line in L.
    destruct (PyStr.strip l) as [|c t] eqn:S; [now injection L as <-|].
    destruct (is_comment (c :: t)); [now injection L as <-|].
    rewrite <- S, strip_idem in L.
    destruct (line_match (PyStr.strip l)) as [[[q nm] g]|] eqn:M;
      [|now injection L as <-].
    destruct (line_match_quantity _ _ _ _ M) as [Nq Dq].
    rewrite (int_of_digits q Nq Dq) in L.
    destruct (PyNum.over_limit (length q)); [discriminate|]. cbn [bind] in L.
    injection L as <-. cbn [fst] in *. apply Forall_app. split; [exact A|].
    constructor; [|constructor]. apply (H l q nm g); auto. now left.
Qed.

Lemma strip_lower (F : case_facts) s :
  PyStr.strip (PyStr.lower (PyStr.strip s)) = PyStr.lower (PyStr.strip s).
Proof.
  apply strip_clean.
  - rewrite (lower_starts_clean F). apply strip_starts_clean.
  - rewrite (lower_ends_clean F). apply strip_ends_clean.
Qed.

Lemma normalize_strip s : normalize_card_name (PyStr.strip s) = normalize_card_name s.
Proof. unfold normalize_card_name. now rewrite strip_idem. Qed.

(** X5.  The fields of every CardRequest of a loaded decklist: the name
    has no white space at its ends, the normalized name is the
    normalization of that name, the quantity is the decimal value of the
    digits a line of the file begins with and, given the facts of the
    Unicode database on lower case, the set code has no white space at
    its ends and is in lower case. *)
Theorem loaded_card_fields :
  case_facts ->
  forall file deck diags,
    load_decklist file = Ok (deck, diags) ->
    Forall (fun c =>
              PyStr.strip (name c) = name c /\
              normalized c = normalize_card_name (name c) /\
              PyStr.strip (set_code c) = set_code c /\
              PyStr.lower (set_code c) = set_code c /\
              exists line,
                match file with File lines _ => In line lines | NoFile => False end /\
                qty c = PyNum.value_of_digits
                          (PyStr.take_while PyStr.is_digit (PyStr.strip line)))
           deck.
Proof.
  intros F [|lines failure] deck diags; cbn [load_decklist].
  - intros [= <- _]. constructor.
  - destruct (load_lines lines ([], [])) as [[deck' diags']|e] eqn:L; [|discriminate].
    cbn [bind]. destruct failure; [discriminate|]. intros [= <- <-].
    refine (load_lines_origin lines ([], []) (deck', diags') _ _ L (Forall_nil _)).
    intros line q nm g I M. unfold card_of_groups. cbn [name normalized set_code qty].
    split; [apply strip_idem|]. split; [symmetry; apply normalize_strip|].
    split; [apply (strip_lower F)|]. split; [apply (lower_idem F)|].
    exists line. split; [exact I|].
    unfold line_match in M.
    destruct (PyStr.take_while PyStr.is_digit (PyStr.strip line)) as [|d ds];
      [discriminate|].
    match type of M with context [PyStr.take_while PyStr.is_space ?r] =>
      destruct (PyStr.take_while PyStr.is_space r) end; [discriminate|].
    match type of M with context [backtrack_spaces ?a ?b] =>
      destruct (backtrack_spaces a b) as [[nm' g']|] end; [|discriminate].
    now injection M as <- _ _.
Qed.

(* ===================================================================== *)
(** * Further properties of the normalizer                                *)
(* ===================================================================== *)

(** X6.  The shape of a normalized name, given the facts of the Unicode
    database on lower case: for every input it is left as it is by
    [str.lower], and every white-space character in it is a single space
    that no white space follows; when the input is one line there is no
    white space at the ends either and no two slashes in a row. *)
Theorem normalized_name_shape :
  case_facts ->
  forall x,
    PyStr.lower (normalize_card_name x) = normalize_card_name x /\
    single_spaced (normalize_card_name x) = true /\
    (no_line_feed x = true ->
     starts_clean (normalize_card_name x) = true /\
     ends_clean (normalize_card_name x) = true /\
     no_slashes (normalize_card_name x) = true).
Proof.
  intros F x. split; [apply (lower_idem F)|]. split.
  - apply (lower_single_spaced F), sub_spaces_single_spaced.
  - intros H. destruct (normalize_normal_form F x H) as (A & B & C & _). now repeat split.
Qed.

(** ** Case, on texts of ASCII characters *)

Lemma lower_ascii_space c : PyStr.is_space (PyStr.lower_ascii c) = PyStr.is_space c.
Proof.
  destruct (PyStr.is_space c) eqn:E.
  - rewrite lower_ascii_not_plain; [exact E|]. unfold is_plain. now rewrite E.
  - destruct (PyStr.is_space (PyStr.lower_ascii c)) eqn:E'; [|reflexivity].
    exfalso. revert E E'. by_lower.
Qed.

Lemma lower_ascii_slash c :
  N.eqb (PyStr.lower_ascii c) "/"%char = N.eqb c "/"%char.
Proof.
  destruct (N.eqb c "/"%char) eqn:E.
  - rewrite lower_ascii_not_plain; [exact E|]. unfold is_plain.
    now rewrite E, orb_true_r.
  - destruct (N.eqb (PyStr.lower_ascii c) "/"%char) eqn:E'; [|reflexivity].
    exfalso. revert E E'. by_lower.
Qed.

Lemma lower_ascii_dot c : PyStr.is_dot (PyStr.lower_ascii c) = PyStr.is_dot c.
Proof.
  destruct (PyStr.is_dot c) eqn:E;
    destruct (PyStr.is_dot (PyStr.lower_ascii c)) eqn:E'; try reflexivity;
    exfalso; revert E E'; by_lower.
Qed.

Lemma drop_while_map (p : char -> bool) s :
  (forall c, p (PyStr.lower_ascii c) = p c) ->
  PyStr.drop_while p (map PyStr.lower_ascii s)
  = map PyStr.lower_ascii (PyStr.drop_while p s).
Proof.
  intros H. induction s as [|c t IH]; [reflexivity|].
  cbn [map PyStr.drop_while]. rewrite H.
  destruct (p c); [exact IH|reflexivity].
Qed.

Lemma strip_map s :
  PyStr.strip (map PyStr.lower_ascii s) = map PyStr.lower_ascii (PyStr.strip s).
Proof.
  unfold PyStr.strip, PyStr.strip_of.
  rewrite (drop_while_map PyStr.is_space s lower_ascii_space), <- map_rev.
  rewrite (drop_while_map PyStr.is_space _ lower_ascii_space).
  now rewrite map_rev.
Qed.

Lemma alt_face_match_map s :
  alt_face_match (map PyStr.lower_ascii s)
  = option_map (map PyStr.lower_ascii) (alt_face_match s).
Proof.
  unfold alt_face_match.
  rewrite (drop_while_map PyStr.is_space s lower_ascii_space).
  destruct (PyStr.drop_while PyStr.is_space s) as [|a [|b t]]; try reflexivity.
  cbn [map]. rewrite !lower_ascii_slash.
  destruct (N.eqb a "/"%char && N.eqb b "/"%char); [|reflexivity].
  cbn [option_map]. f_equal. apply (drop_while_map PyStr.is_dot t lower_ascii_dot).
Qed.

Lemma sub_alt_face_map (s : str) :
  sub_alt_face (map PyStr.lower_ascii s) = map PyStr.lower_ascii (sub_alt_face s).
Proof.
  induction s as [s IH] using str_length_ind.
  destruct s as [|c t]; [reflexivity|].
  pose proof (alt_face_match_map (c :: t)) as L.
  destruct (alt_face_match (c :: t)) as [rest|] eqn:M; cbn [option_map] in L.
  - cbn [map] in *. rewrite (sub_alt_face_some _ _ _ L).
    rewrite (sub_alt_face_some _ _ _ M). apply IH.
    exact (alt_face_match_shorter _ _ M).
  - cbn [map] in *. rewrite (sub_alt_face_none _ _ L).
    rewrite (sub_alt_face_none _ _ M). cbn [map].
    f_equal. apply IH. simpl. lia.
Qed.

Lemma sub_spaces_map (s : str) :
  sub_spaces (map PyStr.lower_ascii s) = map PyStr.lower_ascii (sub_spaces s).
Proof.
  induction s as [s IH] using str_length_ind.
  destruct s as [|c t]; [reflexivity|]. cbn [map].
  destruct (PyStr.is_space c) eqn:Sc.
  - rewrite (sub_spaces_space c t Sc).
    rewrite sub_spaces_space by now rewrite lower_ascii_space.
    cbn [map]. f_equal.
    rewrite (drop_while_map PyStr.is_space t lower_ascii_space).
    apply IH. pose proof (drop_while_length PyStr.is_space t). simpl. lia.
  - rewrite (sub_spaces_other c t Sc).
    rewrite sub_spaces_other by now rewrite lower_ascii_space.
    cbn [map]. f_equal. apply IH. simpl. lia.
Qed.

Lemma drop_while_ascii p s :
  forallb PyStr.is_ascii s = true -> forallb PyStr.is_ascii (PyStr.drop_while p s) = true.
Proof.
  induction s as [|c t IH]; [reflexivity|]. intros H. cbn [PyStr.drop_while].
  destruct (p c); [|exact H]. cbn [forallb] in H. apply IH.
  now apply andb_true_iff in H as [_ H].
Qed.

Lemma strip_ascii s :
  forallb PyStr.is_ascii s = true -> forallb PyStr.is_ascii (PyStr.strip s) = true.
Proof.
  intros H. unfold PyStr.strip, PyStr.strip_of.
  apply forallb_rev_true, drop_while_ascii, forallb_rev_true, drop_while_ascii, H.
Qed.

Lemma sub_alt_face_ascii (s : str) :
  forallb PyStr.is_ascii s = true -> forallb PyStr.is_ascii (sub_alt_face s) = true.
Proof.
  induction s as [s IH] using str_length_ind. intros H.
  destruct s as [|c t]; [reflexivity|].
  destruct (alt_face_match (c :: t)) as [rest|] eqn:M.
  - rewrite (sub_alt_face_some _ _ _ M).
    apply IH; [exact (alt_face_match_shorter _ _ M)|].
    unfold alt_face_match in M.
    pose proof (drop_while_ascii PyStr.is_space (c :: t) H) as A.
    destruct (PyStr.drop_while PyStr.is_space (c :: t)) as [|a [|b u]]; try discriminate.
    destruct (N.eqb a "/"%char && N.eqb b "/"%char); [|discriminate].
    injection M as <-. apply drop_while_ascii. cbn [forallb] in A.
    apply andb_true_iff in A as [_ A]. now apply andb_true_iff in A as [_ A].
  - rewrite (sub_alt_face_none _ _ M). cbn [forallb] in *.
    apply andb_true_iff in H as [Hc H]. rewrite Hc. apply IH; [simpl; lia|exact H].
Qed.

Lemma sub_spaces_ascii (s : str) :
  forallb PyStr.is_ascii s = true -> forallb PyStr.is_ascii (sub_spaces s) = true.
Proof.
  induction s as [s IH] using str_length_ind. intros H.
  destruct s as [|c t]; [reflexivity|]. cbn [forallb] in H.
  apply andb_true_iff in H as [Hc H].
  destruct (PyStr.is_space c) eqn:Sc.
  - rewrite (sub_spaces_space c t Sc). cbn [forallb].
    change (PyStr.is_ascii (chr " ")) with true. cbn [andb].
    apply IH; [|now apply drop_while_ascii].
    pose proof (drop_while_length PyStr.is_space t). simpl. lia.
  - rewrite (sub_spaces_other c t Sc). cbn [forallb]. rewrite Hc.
    apply IH; [simpl; lia|exact H].
Qed.

Lemma normalize_ascii x :
  forallb PyStr.is_ascii x = true ->
  normalize_card_name x
  = sub_spaces (sub_alt_face (PyStr.strip (map PyStr.lower_ascii x))).
Proof.
  intros H. unfold normalize_card_name, PyStr.lower.
  rewrite (sub_spaces_ascii _ (sub_alt_face_ascii _ (strip_ascii x H))).
  now rewrite strip_map, sub_alt_face_map, sub_spaces_map.
Qed.

(** X7.  Case does not matter on names of ASCII characters: two such
    names that are equal once in lower case have the same normalized
    name. *)
Theorem normalize_ignores_case :
  forall x y,
    forallb PyStr.is_ascii x = true -> forallb PyStr.is_ascii y = true ->
    PyStr.lower x = PyStr.lower y ->
    normalize_card_name x = normalize_card_name y.
Proof.
  intros x y Hx Hy H. unfold PyStr.lower in H. rewrite Hx, Hy in H.
  now rewrite (normalize_ascii x Hx), (normalize_ascii y Hy), H.
Qed.

(** ** The alternate face *)

Lemma drop_while_app_cases (p : char -> bool) x y :
  PyStr.drop_while p (x ++ y) =
  match PyStr.drop_while p x with
  | [] => PyStr.drop_while p y
  | _ :: _ => PyStr.drop_while p x ++ y
  end.
Proof.
  induction x as [|c x IH]; cbn [app PyStr.drop_while].
  - now destruct (PyStr.drop_while p y).
  - destruct (p c); [exact IH|reflexivity].
Qed.

Lemma drop_while_all (p : char -> bool) x :
  forallb p x = true -> PyStr.drop_while p x = [].
Proof.
  induction x as [|c x IH]; [reflexivity|]. cbn [forallb PyStr.drop_while].
  intros H. apply andb_true_iff in H as [-> H]. now apply IH.
Qed.

Lemma rstrip_split s :
  exists sp, s = rstrip s ++ sp /\ forallb PyStr.is_space sp = true.
Proof.
  unfold rstrip. destruct (drop_while_suffix PyStr.is_space (rev s)) as [u [E F]].
  exists (rev u). split.
  - rewrite <- rev_app_distr, <- E. symmetry. apply rev_involutive.
  - now apply forallb_rev_true.
Qed.

Lemma rstrip_ends_clean s : ends_clean (rstrip s) = true.
Proof.
  unfold ends_clean, rstrip. rewrite rev_involutive. apply starts_clean_drop_while.
Qed.

Lemma rstrip_cons c z :
  PyStr.is_space c = false -> rstrip (c :: z) = c :: rstrip z.
Proof.
  intros H. unfold rstrip. cbn [rev]. rewrite drop_while_app_cases.
  destruct (PyStr.drop_while PyStr.is_space (rev z)) as [|d r].
  - cbn [PyStr.drop_while]. now rewrite H.
  - rewrite rev_app_distr. reflexivity.
Qed.

Lemma rstrip_app a b : rstrip b <> [] -> rstrip (a ++ b) = a ++ rstrip b.
Proof.
  intros N. unfold rstrip in *. rewrite rev_app_distr, drop_while_app_cases.
  destruct (PyStr.drop_while PyStr.is_space (rev b)) as [|d r]; [now elim N|].
  now rewrite rev_app_distr, rev_involutive.
Qed.

Lemma strip_rstrip s : PyStr.strip s = rstrip (PyStr.drop_while PyStr.is_space s).
Proof. reflexivity. Qed.

Lemma no_slashes_suffix a z : no_slashes (a ++ z) = true -> no_slashes z = true.
Proof.
  induction a as [|c a IH]; [auto|]. intros H. apply IH.
  exact (no_slashes_tail c (a ++ z) H).
Qed.

Lemma no_slashes_prefix a z : no_slashes (a ++ z) = true -> no_slashes a = true.
Proof.
  induction a as [|c a IH]; [reflexivity|]. cbn [app]. rewrite !no_slashes_cons.
  intros H. destruct a as [|d a]; [reflexivity|]. cbn [app] in *.
  apply andb_true_iff in H as [H1 H2]. rewrite H1. now apply IH.
Qed.

Lemma clean_not_blank b :
  b <> [] -> ends_clean b = true -> PyStr.drop_while PyStr.is_space b <> [].
Proof.
  intros N E D. destruct (drop_while_suffix PyStr.is_space b) as [u [Eq F]].
  rewrite D, app_nil_r in Eq. subst u.
  rewrite (ends_clean_not_blank b N F) in E. discriminate.
Qed.

(** A slash after [u] opens no match at the head of [u] unless it pairs
    with a slash of [u]. *)
Lemma alt_face_match_before_slash u y :
  PyStr.drop_while PyStr.is_space u <> [] ->
  no_slashes (u ++ [chr "/"]) = true ->
  alt_face_match (u ++ chr "/" :: y) = None.
Proof.
  intros N S. unfold alt_face_match.
  pose proof (no_slashes_drop_while PyStr.is_space _ S) as S'.
  rewrite drop_while_app_cases in S' |- *.
  destruct (PyStr.drop_while PyStr.is_space u) as [|c u2]; [now elim N|].
  destruct u2 as [|d u2]; cbn [app] in *.
  - rewrite no_slashes_cons in S'. apply andb_true_iff in S' as [S' _].
    apply negb_true_iff in S'. now rewrite S'.
  - rewrite no_slashes_cons in S'. apply andb_true_iff in S' as [S' _].
    apply negb_true_iff in S'. now rewrite S'.
Qed.

(** Where no match begins, the scan keeps every character. *)
Lemma sub_alt_face_keeps v rest :
  (forall a b, v = a ++ b -> b <> [] -> alt_face_match (b ++ rest) = None) ->
  sub_alt_face (v ++ rest) = v ++ sub_alt_face rest.
Proof.
  induction v as [|c v IH]; intros H; [reflexivity|]. cbn [app].
  rewrite sub_alt_face_none by (apply (H [] (c :: v)); [reflexivity|discriminate]).
  f_equal. apply IH. intros a b E N. apply (H (c :: a) b); [now rewrite E|exact N].
Qed.

Lemma sub_alt_face_suffix gap face :
  forallb PyStr.is_space gap = true -> no_line_feed face = true ->
  sub_alt_face (gap ++ chr "/" :: chr "/" :: face) = [].
Proof.
  intros G F.
  assert (M : alt_face_match (gap ++ chr "/" :: chr "/" :: face) = Some []).
  { unfold alt_face_match. rewrite drop_while_app_cases, (drop_while_all _ gap G).
    cbn [PyStr.drop_while]. change (PyStr.is_space (chr "/")) with false. cbv iota.
    change (N.eqb (chr "/") (chr "/")) with true. cbn [andb].
    now rewrite (drop_while_all PyStr.is_dot face F). }
  destruct (gap ++ chr "/" :: chr "/" :: face) as [|c t] eqn:E.
  - reflexivity.
  - now rewrite (sub_alt_face_some c t [] M).
Qed.

Lemma ends_clean_suffix a b : b <> [] -> ends_clean (a ++ b) = true -> ends_clean b = true.
Proof. intros N E. now rewrite ends_clean_app in E. Qed.

Lemma sub_alt_face_of_alt_face v gap face :
  ends_clean v = true -> forallb PyStr.is_space gap = true ->
  no_line_feed face = true -> no_slashes (v ++ gap ++ [chr "/"]) = true ->
  sub_alt_face (v ++ gap ++ chr "/" :: chr "/" :: face) = v.
Proof.
  intros E G F S.
  rewrite sub_alt_face_keeps, (sub_alt_face_suffix gap face G F); [apply app_nil_r|].
  intros a b -> N. rewrite app_assoc.
  apply alt_face_match_before_slash.
  - rewrite drop_while_app_cases.
    pose proof (clean_not_blank b N (ends_clean_suffix a b N E)) as K.
    destruct (PyStr.drop_while PyStr.is_space b); [now elim K|discriminate].
  - rewrite <- !app_assoc in S |- *. exact (no_slashes_suffix a _ S).
Qed.

(** The text with its alternate face, once trimmed: the trimmed name, a
    gap, the slashes and the trimmed face. *)
Lemma strip_with_alt_face s gap face :
  forallb PyStr.is_space gap = true ->
  no_slashes (s ++ gap ++ [chr "/"]) = true ->
  exists w,
    forallb PyStr.is_space w = true /\
    no_slashes (PyStr.strip s ++ w ++ [chr "/"]) = true /\
    PyStr.strip (with_alt_face s gap face) =
    PyStr.strip s ++ w ++ chr "/" :: chr "/" :: rstrip face.
Proof.
  intros G S. unfold with_alt_face. change (lit "//") with [chr "/"; chr "/"].
  assert (R : forall a, rstrip (a ++ chr "/" :: chr "/" :: face)
                        = a ++ chr "/" :: chr "/" :: rstrip face).
  { intros a. rewrite rstrip_app; rewrite !rstrip_cons by reflexivity;
      [reflexivity|discriminate]. }
  rewrite !strip_rstrip, drop_while_app_cases.
  destruct (PyStr.drop_while PyStr.is_space s) as [|c u] eqn:D.
  - exists []. split; [reflexivity|]. split; [reflexivity|].
    rewrite drop_while_app_cases, (drop_while_all _ gap G). cbn [app].
    cbn [PyStr.drop_while]. change (PyStr.is_space (chr "/")) with false. cbv iota.
    exact (R []).
  - destruct (rstrip_split (c :: u)) as [sp [E F]].
    exists (sp ++ gap). split; [rewrite forallb_app; now rewrite F, G|]. split.
    + rewrite <- app_assoc, (app_assoc (rstrip (c :: u)) sp), <- E.
      pose proof (no_slashes_drop_while PyStr.is_space _ S) as S'.
      rewrite drop_while_app_cases, D in S'. exact S'.
    + cbn [app]. rewrite app_comm_cons, app_assoc, R.
      rewrite <- !app_assoc. rewrite (app_assoc (rstrip (c :: u)) sp), <- E.
      reflexivity.
Qed.

Lemma rstrip_no_line_feed face : no_line_feed face = true -> no_line_feed (rstrip face) = true.
Proof.
  unfold no_line_feed. intros H. destruct (rstrip_split face) as [sp [E _]].
  rewrite E, forallb_app in H. now apply andb_true_iff in H as [H _].
Qed.

(** X8.  The alternate face is dropped: a name followed by white space
    or nothing, two slashes and any one-line text has the normalized
    name of the name alone, provided the name holds no two slashes in a
    row and the first slash of the marker does not follow a slash of the
    name directly. *)
Theorem alt_face_is_dropped :
  forall s gap face,
    forallb PyStr.is_space gap = true ->
    no_line_feed face = true ->
    no_slashes (s ++ gap ++ lit "/") = true ->
    normalize_card_name (with_alt_face s gap face) = normalize_card_name s.
Proof.
  intros s gap face G F S. change (lit "/") with [chr "/"] in S.
  destruct (strip_with_alt_face s gap face G S) as (w & W & Sw & E).
  unfold normalize_card_name. rewrite E.
  rewrite (sub_alt_face_of_alt_face (PyStr.strip s) w (rstrip face)
             (strip_ends_clean s) W (rstrip_no_line_feed face F) Sw).
  now rewrite (sub_alt_face_fixed (PyStr.strip s) (no_slashes_prefix _ _ Sw)).
Qed.

(* ===================================================================== *)
(** * Further properties of the table parser                              *)
(* ===================================================================== *)

Local Open Scope float_scope.

Lemma mem_existsb {V : Type} (d : Dict.t V) k :
  Dict.mem d k = existsb (fun k' => PyStr.eqb k' k) (Dict.keys d).
Proof.
  unfold Dict.mem, Dict.keys. induction d as [|[k0 v0] d IH]; [reflexivity|].
  cbn [Dict.get map fst existsb]. destruct (PyStr.eqb k0 k); [reflexivity|exact IH].
Qed.

Lemma record_offer_keys acc s u :
  Dict.keys (record_offer acc (s, u)) =
  if Dict.mem acc s then Dict.keys acc else Dict.keys acc ++ [s].
Proof.
  unfold record_offer, Dict.setdefault, Dict.mem.
  destruct (Dict.get acc s) as [v|] eqn:G.
  - rewrite set_keys. unfold Dict.mem. now rewrite G.
  - rewrite !set_keys. unfold Dict.mem. rewrite G, get_set, eqb_refl. reflexivity.
Qed.

Lemma filter_filter {A : Type} (f g : A -> bool) l :
  filter f (filter g l) = filter (fun x => g x && f x) l.
Proof.
  induction l as [|x l IH]; [reflexivity|]. cbn [filter].
  destruct (g x); cbn [filter andb]; [destruct (f x)|]; now rewrite IH.
Qed.

Lemma fold_record_keys os acc :
  Dict.keys (fold_left record_offer os acc) =
  Dict.keys acc ++
  filter (fun k => negb (existsb (fun k' => PyStr.eqb k' k) (Dict.keys acc)))
         (first_seen (map fst os)).
Proof.
  revert acc. induction os as [|[s u] os IH]; intros acc.
  - cbn [fold_left map first_seen filter]. now rewrite app_nil_r.
  - change (fold_left record_offer ((s, u) :: os) acc)
      with (fold_left record_offer os (record_offer acc (s, u))).
    rewrite IH, record_offer_keys, mem_existsb.
    cbn [map fst first_seen filter].
    destruct (existsb (fun k' => PyStr.eqb k' s) (Dict.keys acc)) eqn:M; cbn [negb].
    + f_equal. rewrite filter_filter. apply filter_ext_in. intros k _.
      destruct (PyStr.eqb s k) eqn:E; [|reflexivity].
      apply eqb_eq in E. subst k. now rewrite M.
    + rewrite <- app_assoc. cbn [app]. do 2 f_equal.
      rewrite filter_filter. apply filter_ext. intros k.
      rewrite existsb_app. cbn [existsb]. rewrite orb_false_r, negb_orb.
      rewrite (eqb_sym s k). apply andb_comm.
Qed.

(** X9.  The sellers of the mapping are those of the rows that offer a
    price, each once, in the order of their first rows. *)
Theorem sellers_in_first_row_order :
  forall h d,
    parse_single_card_table h = Ok d ->
    exists os,
      row_offers (page_rows h) = Ok os /\
      Dict.keys d = first_seen (map fst os) /\
      NoDup (Dict.keys d).
Proof.
  intros h d P. pose proof (parse_table_NoDup h d P) as N.
  rewrite parse_table_offers in P.
  destruct (row_offers (page_rows h)) as [os|e]; [|discriminate].
  cbn [bind] in P. injection P as <-. exists os. split; [reflexivity|]. split; [|exact N].
  rewrite fold_record_keys. cbn [Dict.keys map app existsb negb].
  clear. induction (first_seen (map fst os)) as [|k l IH]; [reflexivity|].
  cbn [filter]. now rewrite IH.
Qed.

(** ** A row that is there already *)

Lemma row_offers_app a b :
  row_offers (a ++ b) =
  oa <- row_offers a ;; ob <- row_offers b ;; Ok (oa ++ ob).
Proof.
  induction a as [|r a IH]; cbn [app row_offers].
  - cbn [bind]. now destruct (row_offers b).
  - destruct (row_offer r) as [o|e]; cbn [bind]; [|reflexivity].
    rewrite IH. destruct (row_offers a) as [oa|e]; cbn [bind]; [|reflexivity].
    destruct (row_offers b) as [ob|e]; cbn [bind]; [|reflexivity].
    now destruct o.
Qed.

Lemma row_offers_In rows os r :
  row_offers rows = Ok os -> In r rows ->
  exists o, row_offer r = Ok o /\ forall x, o = Some x -> In x os.
Proof.
  revert os. induction rows as [|r0 rows IH]; intros os H I; [destruct I|].
  cbn [row_offers] in H.
  destruct (row_offer r0) as [o0|e] eqn:R0; [|discriminate]. cbn [bind] in H.
  destruct (row_offers rows) as [os0|e]; [|discriminate]. cbn [bind] in H.
  injection H as <-. destruct I as [<-|I].
  - exists o0. split; [exact R0|]. intros x ->. now left.
  - destruct (IH os0 eq_refl I) as [o [Ho Hx]]. exists o. split; [exact Ho|].
    intros x E. specialize (Hx x E). destruct o0; [now right|exact Hx].
Qed.

Lemma set_same {V : Type} (d : Dict.t V) k v :
  Dict.get d k = Some v -> Dict.set d k v = d.
Proof.
  induction d as [|[k0 v0] d IH]; cbn [Dict.get Dict.set]; [discriminate|].
  destruct (PyStr.eqb k0 k); [now intros [= ->]|]. intros G. now rewrite IH.
Qed.

Lemma min_keeps v u : (u <? v) = false -> PyNum.min v u = v.
Proof. unfold PyNum.min. now intros ->. Qed.

Lemma record_offer_again os s u :
  In (s, u) os ->
  record_offer (fold_left record_offer os []) (s, u) = fold_left record_offer os [].
Proof.
  intros I. set (d := fold_left record_offer os []).
  assert (Hu : In u (prices_of s os)).
  { unfold prices_of. change u with (snd (s, u)). apply in_map.
    apply filter_In. split; [exact I|]. apply eqb_refl. }
  pose proof (get_fold_record os [] s) as G. fold d in G.
  destruct (prices_of s os) as [|u0 us] eqn:U; [destruct Hu|]. rewrite <- U in *.
  cbn [Dict.get from_default] in G.
  destruct (default_chain (prices_of s os)) as (_ & Low & _).
  unfold record_offer, Dict.setdefault. rewrite G. cbv iota beta.
  rewrite (min_keeps _ u (Low u Hu)). now apply set_same.
Qed.

(** X10.  A row that is in the table already may be repeated at its end:
    the parser returns, or raises, the same. *)
Theorem repeated_row_changes_nothing :
  forall rows r,
    In r rows ->
    parse_single_card_table (Markup (Some (rows ++ [r]))) =
    parse_single_card_table (Markup (Some rows)).
Proof.
  intros rows r I. rewrite !parse_table_offers. cbn [page_rows].
  rewrite row_offers_app.
  destruct (row_offers rows) as [os|e] eqn:R; cbn [bind]; [|reflexivity].
  destruct (row_offers_In rows os r R I) as [o [Ho Hx]].
  cbn [row_offers]. rewrite Ho. cbn [bind].
  destruct o as [[s u]|].
  - rewrite fold_left_app. cbn [fold_left]. f_equal.
    apply record_offer_again. now apply Hx.
  - now rewrite app_nil_r.
Qed.

(** ** What makes the parser raise *)

Lemma float_of_int_raises z e : PyNum.float_of_int z = Raise e -> e = OverflowError.
Proof.
  unfold PyNum.float_of_int.
  destruct (binary_normalize prec emax z 0 false); try discriminate.
  now intros [= <-].
Qed.

Lemma price_per_unit_raises price q e :
  price_per_unit price q = Raise e -> e = OverflowError \/ e = ZeroDivisionError.
Proof.
  unfold price_per_unit, PyNum.truediv.
  destruct (0 <? q)%Z; [|discriminate].
  destruct (PyNum.float_of_int q) as [f|e'] eqn:F; cbn [bind].
  - destruct (f =? zero); [|discriminate]. intros [= <-]. now right.
  - intros [= <-]. left. exact (float_of_int_raises q e' F).
Qed.

Lemma row_offer_value_error r :
  row_offer r = Raise ValueError ->
  exists td0 td1 td2 td3 more t,
    r = td0 :: td1 :: td2 :: td3 :: more /\
    span_qty td0 = Some t /\ PyNum.int_of_str t = Raise ValueError.
Proof.
  destruct r as [|td0 [|td1 [|td2 [|td3 more]]]]; try discriminate.
  unfold row_offer, row_quantity.
  destruct (span_qty td0) as [t|] eqn:S.
  - destruct (PyNum.int_of_str t) as [q|e] eqn:I; cbn [bind].
    + destruct (row_price td1) as [price|]; [|discriminate].
      destruct (anchor td2); [|discriminate].
      destruct (price_per_unit price q) as [u|e] eqn:U; [discriminate|]. cbn [bind].
      intros [= ->]. destruct (price_per_unit_raises price q ValueError U); discriminate.
    + intros [= ->]. exists td0, td1, td2, td3, more, t. now repeat split.
  - cbn [bind]. destruct (row_price td1) as [price|]; [|discriminate].
    destruct (anchor td2); [|discriminate].
    destruct (price_per_unit price 1) as [u|e] eqn:U; [discriminate|]. cbn [bind].
    intros [= ->]. destruct (price_per_unit_raises price 1 ValueError U); discriminate.
Qed.

Lemma row_offers_raise rows e :
  row_offers rows = Raise e -> exists r, In r rows /\ row_offer r = Raise e.
Proof.
  induction rows as [|r rows IH]; [discriminate|]. cbn [row_offers].
  destruct (row_offer r) as [o|e'] eqn:R; cbn [bind].
  - destruct (row_offers rows) as [os|e'']; [discriminate|]. cbn [bind].
    intros [= ->]. destruct (IH eq_refl) as [r' [I H]]. exists r'. split; [now right|exact H].
  - intros [= ->]. exists r. split; [now left|exact R].
Qed.

(** X11.  ValueError leaves the parser only through a quantity: when it
    does, a row of four cells or more has a quantity element whose text
    [int()] rejects. *)
Theorem value_error_comes_from_quantity :
  forall h,
    parse_single_card_table h = Raise ValueError ->
    exists td0 td1 td2 td3 more t,
      In (td0 :: td1 :: td2 :: td3 :: more) (page_rows h) /\
      span_qty td0 = Some t /\ PyNum.int_of_str t = Raise ValueError.
Proof.
  intros h P. rewrite parse_table_offers in P.
  destruct (row_offers (page_rows h)) as [os|e] eqn:R; [discriminate|].
  cbn [bind] in P. injection P as ->.
  destruct (row_offers_raise _ _ R) as [r [I H]].
  destruct (row_offer_value_error r H) as (td0 & td1 & td2 & td3 & more & t & -> & S & E).
  exists td0, td1, td2, td3, more, t. now repeat split.
Qed.

Lemma price_per_unit_one price : exists u, price_per_unit price 1 = Ok u.
Proof.
  unfold price_per_unit, PyNum.truediv. cbn [Z.ltb Z.compare].
  change (PyNum.float_of_int 1) with (Ok one). cbn [bind].
  change (one =? zero) with false. cbv iota. eauto.
Qed.

Lemma row_offer_without_quantity r :
  no_quantity_element r -> exists o, row_offer r = Ok o.
Proof.
  intros H. destruct r as [|td0 [|td1 [|td2 [|td3 more]]]]; try (now eexists).
  unfold row_offer, row_quantity. cbn [no_quantity_element] in H. rewrite H. cbn [bind].
  destruct (row_price td1) as [price|]; [|now eexists].
  destruct (anchor td2) as [s|]; [|now eexists].
  destruct (price_per_unit_one price) as [u ->]. cbn [bind]. now eexists.
Qed.

Lemma row_offers_without_quantity rows :
  Forall no_quantity_element rows -> exists os, row_offers rows = Ok os.
Proof.
  induction 1 as [|r rows H F [os IH]]; [now exists []|].
  cbn [row_offers]. destruct (row_offer_without_quantity r H) as [o ->].
  cbn [bind]. rewrite IH. cbn [bind]. now eexists.
Qed.

(** X12.  A table none of whose rows has a quantity element never makes
    the parser raise, whatever its price and seller cells hold. *)
Theorem no_quantity_element_no_exception :
  forall h,
    Forall no_quantity_element (page_rows h) ->
    exists d, parse_single_card_table h = Ok d.
Proof.
  intros h F. rewrite parse_table_offers.
  destruct (row_offers_without_quantity _ F) as [os ->]. cbn [bind]. now eexists.
Qed.

(* ===================================================================== *)
(** * Further properties of the aggregator, the report and the run        *)
(* ===================================================================== *)

Lemma set_set {V : Type} (d : Dict.t V) k a b :
  Dict.set (Dict.set d k a) k b = Dict.set d k b.
Proof.
  induction d as [|[k0 v0] d IH]; cbn [Dict.set].
  - now rewrite eqb_refl.
  - destruct (PyStr.eqb k0 k) eqn:E; cbn [Dict.set]; rewrite E; [reflexivity|].
    now rewrite IH.
Qed.

Lemma set_not_nil {V : Type} (d : Dict.t V) k v : Dict.set d k v <> [].
Proof. destruct d as [|[k0 v0] d]; cbn [Dict.set]; [|destruct (PyStr.eqb k0 k)]; discriminate. Qed.

Lemma set_keys_incl {V : Type} (d : Dict.t V) k v names :
  incl (Dict.keys d) names -> In k names -> incl (Dict.keys (Dict.set d k v)) names.
Proof.
  intros I K. rewrite set_keys. destruct (Dict.mem d k); [exact I|].
  apply incl_app; [exact I|]. intros x [<-|[]]. exact K.
Qed.

Lemma fold_offer_well_formed names n sd o :
  In n names -> well_formed names sd -> well_formed names (fold_offer n sd o).
Proof.
  intros K [N F]. destruct o as [s p]. unfold fold_offer, Dict.setdefault.
  set (Q := fun cards : Dict.t float =>
              cards <> [] /\ NoDup (Dict.keys cards) /\ incl (Dict.keys cards) names).
  change (Forall (fun x => Q (snd x)) sd) in F.
  assert (U : forall cards, NoDup (Dict.keys cards) -> incl (Dict.keys cards) names ->
                            Q (Dict.set cards n p)).
  { intros cards Nc Ic. split; [apply set_not_nil|]. split; [now apply set_NoDup|].
    now apply set_keys_incl. }
  destruct (Dict.get sd s) as [cards|] eqn:G.
  - destruct (Forall_get Q sd s cards F G) as (_ & Nc & Ic).
    assert (W : well_formed names (Dict.set sd s (Dict.set cards n p))).
    { split; [now apply set_NoDup|]. apply (Forall_set Q); [exact F|now apply U]. }
    destruct (Dict.get cards n) as [stored|]; [|exact W].
    destruct (PrimFloat.ltb p stored); [exact W|now split].
  - cbn [Dict.get]. rewrite set_set. split; [now apply set_NoDup|].
    apply (Forall_set Q); [exact F|]. apply U; [constructor|intros x []].
Qed.

Lemma fold_prices_well_formed names n prices sd :
  In n names -> well_formed names sd -> well_formed names (fold_prices n prices sd).
Proof.
  intros K. unfold fold_prices. revert sd.
  induction prices as [|o prices IH]; intros sd W; [exact W|].
  apply IH. now apply fold_offer_well_formed.
Qed.

Lemma fold_all_well_formed names h sd :
  incl (map fst h) names -> well_formed names sd -> well_formed names (fold_all h sd).
Proof.
  unfold fold_all. revert sd. induction h as [|[n prices] h IH]; intros sd I W; [exact W|].
  cbn [fold_left fst snd]. apply IH.
  - intros x Hx. apply I. now right.
  - apply fold_prices_well_formed; [|exact W]. apply I. now left.
Qed.

Lemma history_names fetch deck i h :
  history fetch i deck = Ok h -> incl (map fst h) (map normalized deck).
Proof.
  revert i h. induction deck as [|c cs IH]; intros i h; cbn [history].
  - intros [= <-]. intros x [].
  - destruct (card_prices (fetch i) c) as [o|e]; [|discriminate]. cbn [bind].
    destruct (history fetch (S i) cs) as [rest|e] eqn:R; [|discriminate]. cbn [bind].
    intros [= <-]. specialize (IH _ _ R). destruct o as [prices|].
    + intros x [<-|Hx]; [now left|right; now apply IH].
    + intros x Hx. right. now apply IH.
Qed.

Lemma process_deck_well_formed fetch deck sd :
  process_deck fetch 0 [] deck = Ok sd -> well_formed (map normalized deck) sd.
Proof.
  rewrite process_deck_history.
  destruct (history fetch 0 deck) as [h|e] eqn:H; [|discriminate]. cbn [bind].
  intros [= <-]. apply fold_all_well_formed; [exact (history_names _ _ _ _ H)|].
  split; constructor.
Qed.

(** X13.  What a run leaves in [seller_data]: no seller twice; for each
    seller at least one card, no card twice, only normalized names of the
    deck, and so a number of cards between one and the size of the
    deck. *)
Theorem seller_data_is_well_formed :
  forall fetch deck sd,
    process_deck fetch 0 [] deck = Ok sd ->
    NoDup (Dict.keys sd) /\
    forall s cards,
      In (s, cards) sd ->
      NoDup (Dict.keys cards) /\
      incl (Dict.keys cards) (map normalized deck) /\
      (1 <= length cards <= length deck)%nat.
Proof.
  intros fetch deck sd R. destruct (process_deck_well_formed fetch deck sd R) as [N F].
  split; [exact N|]. intros s cards I. rewrite Forall_forall in F.
  destruct (F _ I) as (Ne & Nc & Ic). cbn [snd] in *. split; [exact Nc|]. split; [exact Ic|].
  split.
  - destruct cards; [now elim Ne|simpl; lia].
  - pose proof (NoDup_incl_length Nc Ic) as L. unfold Dict.keys in L.
    now rewrite !length_map in L.
Qed.

(** ** The report *)

Lemma summary_of_covering l :
  Forall (fun x : str * Dict.t float => snd x <> []) l ->
  map (fun s => (sum_seller s, sum_covered s))
      (flat_map (fun x =>
                   let covered := length (snd x) in
                   if (1 <=? covered)%nat
                   then [{| sum_seller := fst x;
                            sum_covered := covered;
                            sum_total := PyNum.sum (Dict.values (snd x)) |}]
                   else []) l) =
  map (fun x => (fst x, length (snd x))) l.
Proof.
  induction 1 as [|x l H F IH]; [reflexivity|].
  destruct x as [s [|o cards]]; [now elim H|].
  cbn [flat_map]. rewrite map_app. cbn [map fst snd].
  apply (f_equal (cons (s, length (o :: cards)))). exact IH.
Qed.

(** X14.  In the report of a run the summary has one line for each block
    of the detail, in the same order, with the same seller and the same
    number of cards: the threshold of one card leaves no seller out. *)
Theorem summary_follows_detail :
  forall file fetch diags r,
    main file fetch = Ok (Reported diags r) ->
    map (fun l => (sum_seller l, sum_covered l)) (console_summary r) =
    map (fun b => (block_seller b, block_count b)) (console_detail r).
Proof.
  intros file fetch diags r M. unfold main in M.
  destruct (load_decklist file) as [[deck ds]|e]; [|discriminate]. cbn [bind] in M.
  destruct deck as [|c cs]; [discriminate|].
  destruct (process_deck fetch 0 [] (c :: cs)) as [sd|e] eqn:R; [|discriminate].
  cbn [bind] in M. injection M as _ <-.
  cbn [make_report console_summary console_detail]. unfold summary, detail.
  rewrite map_map. cbn [block_seller block_count].
  apply summary_of_covering.
  destruct (process_deck_well_formed _ _ _ R) as [_ F].
  apply Forall_forall. intros x Hx.
  apply (Permutation_in _ (ranked_perm sd)) in Hx.
  rewrite Forall_forall in F. now destruct (F x Hx).
Qed.

(** X15.  The detail loses nothing and invents nothing: its sellers are
    those of [seller_data], each once, and the card lines of a block are
    the stored cards of its seller, each once, their number being the
    number shown. *)
Theorem detail_is_a_rearrangement :
  forall sd,
    Permutation (map block_seller (detail sd)) (Dict.keys sd) /\
    forall b,
      In b (detail sd) ->
      exists cards,
        In (block_seller b, cards) sd /\
        Permutation (block_cards b) cards /\
        block_count b = length (block_cards b).
Proof.
  intros sd. split.
  - unfold detail, Dict.keys. rewrite map_map. cbn [block_seller].
    apply Permutation_map, ranked_perm.
  - intros b Hb. destruct (detail_blocks sd b Hb) as [cards (I & C & ->)].
    exists cards. split; [exact I|]. split; [apply by_price_perm|].
    rewrite C. symmetry. apply Permutation_length, by_price_perm.
Qed.

(** ** The run *)

Lemma card_prices_nothing fetch c :
  no_table_rows (fetch (url c)) -> card_prices fetch c = Ok None.
Proof.
  unfold card_prices, no_table_rows.
  destruct (fetch (url c)) as [[|[[|r rows]|]]|]; try reflexivity. intros [].
Qed.

Lemma process_deck_nothing fetch deck i sd :
  (forall j u, no_table_rows (fetch j u)) -> process_deck fetch i sd deck = Ok sd.
Proof.
  intros H. revert i. induction deck as [|c cs IH]; intros i; [reflexivity|].
  cbn [process_deck]. rewrite process_card_history.
  rewrite (card_prices_nothing (fetch i) c (H i (url c))). cbn [bind]. apply IH.
Qed.

(** X16.  When no request brings a table with rows (no page, an empty
    page, no results table, no row), the run goes through the whole deck
    and reports no seller. *)
Theorem nothing_fetched_empty_report :
  forall file fetch deck diags,
    load_decklist file = Ok (deck, diags) -> deck <> [] ->
    (forall i u, no_table_rows (fetch i u)) ->
    main file fetch = Ok (Reported diags empty_report).
Proof.
  intros file fetch deck diags L N H. unfold main. rewrite L. cbn [bind].
  destruct deck as [|c cs]; [now elim N|].
  now rewrite (process_deck_nothing fetch (c :: cs) 0 [] H).
Qed.

Lemma process_deck_without_quantity fetch deck i sd :
  (forall j u h, fetch j u = Some h -> Forall no_quantity_element (page_rows h)) ->
  exists sd', process_deck fetch i sd deck = Ok sd'.
Proof.
  intros H. revert i sd. induction deck as [|c cs IH]; intros i sd; [now eexists|].
  cbn [process_deck]. unfold process_card.
  destruct (fetch i (url c)) as [h|] eqn:F; [|cbn [bind]; apply IH].
  destruct h as [|t]; [cbn [bind]; apply IH|].
  rewrite parse_table_offers.
  destruct (row_offers_without_quantity _ (H i (url c) _ F)) as [os ->]. cbn [bind].
  destruct (fold_left record_offer os []); cbn [bind]; apply IH.
Qed.

(** X17.  Once the decklist is loaded, a run in which no fetched page has
    a quantity element in a row raises nothing from the parser or the
    aggregation: it ends with the report, or early on an empty deck. *)
Theorem run_without_quantity_elements_completes :
  forall file fetch deck diags,
    load_decklist file = Ok (deck, diags) ->
    (forall i u h, fetch i u = Some h -> Forall no_quantity_element (page_rows h)) ->
    exists o, main file fetch = Ok o.
Proof.
  intros file fetch deck diags L H. unfold main. rewrite L. cbn [bind].
  destruct deck as [|c cs]; [now eexists|].
  destruct (process_deck_without_quantity fetch (c :: cs) 0 [] H) as [sd ->].
  cbn [bind]. now eexists.
Qed.

Lemma load_line_no_digit line :
  no_leading_digit line ->
  exists g, forall deck diags, load_line line (deck, diags) = Ok (deck, diags ++ g).
Proof.
  unfold no_leading_digit, load_line.
  destruct (PyStr.strip line) as [|c t] eqn:S.
  - intros _. exists []. intros. now rewrite app_nil_r.
  - intros D. destruct (is_comment (c :: t)).
    + exists []. intros. now rewrite app_nil_r.
    + rewrite <- S, strip_idem, S, (line_match_no_digit c t D).
      exists [Unrecognized (c :: t)]. reflexivity.
Qed.

Lemma load_lines_no_digit lines :
  Forall no_leading_digit lines ->
  exists g, forall deck diags, load_lines lines (deck, diags) = Ok (deck, diags ++ g).
Proof.
  induction 1 as [|l ls H F [g2 IH]].
  - exists []. intros. cbn [load_lines]. now rewrite app_nil_r.
  - destruct (load_line_no_digit l H) as [g1 H1]. exists (g1 ++ g2).
    intros deck diags. cbn [load_lines]. rewrite H1. cbn [bind].
    now rewrite IH, app_assoc.
Qed.

(** X18.  A decklist that is missing, or that is read to its end and
    none of whose lines begins with a decimal digit once trimmed, ends the
    run early with an empty deck: no page is requested, whatever the
    fetcher would answer. *)
Theorem no_quantity_line_empty_deck :
  forall file fetch,
    match file with
    | NoFile => True
    | File lines failure => failure = None /\ Forall no_leading_digit lines
    end ->
    exists diags, main file fetch = Ok (EmptyDeck diags).
Proof.
  intros [|lines failure] fetch H; unfold main; cbn [load_decklist].
  - cbn [bind]. now eexists.
  - destruct H as [-> H]. destruct (load_lines_no_digit lines H) as [g E].
    rewrite (E [] []). cbn [bind app]. now eexists.
Qed.

(** ** Stability of the two sorts *)

Section Stability.
Context {A K : Type} (lt : K -> K -> bool) (key : A -> K) (p : A -> bool).
Hypothesis tied : forall a b, p a = true -> p b = true -> lt (key a) (key b) = false.

Lemma filter_insert x l :
  filter p (insert lt key x l) = filter p (x :: l).
Proof.
  induction l as [|y l IH]; [reflexivity|]. cbn [insert].
  destruct (lt (key y) (key x)) eqn:E; [|reflexivity].
  cbn [filter] in *. rewrite IH.
  destruct (p x) eqn:Hx; [|reflexivity].
  destruct (p y) eqn:Hy; [|reflexivity].
  rewrite (tied y x Hy Hx) in E. discriminate.
Qed.

Lemma filter_sorted l : filter p (sorted lt key l) = filter p l.
Proof.
  induction l as [|x l IH]; [reflexivity|].
  cbn [sorted fold_right]. fold (sorted lt key l).
  rewrite filter_insert. cbn [filter]. now rewrite IH.
Qed.

Lemma filter_sorted_reverse l : filter p (sorted_reverse lt key l) = filter p l.
Proof.
  unfold sorted_reverse. now rewrite filter_rev, filter_sorted, <- filter_rev, rev_involutive.
Qed.
End Stability.

Lemma filter_blocks n (l : list (str * Dict.t float)) :
  filter (fun b => (block_count b =? n)%nat)
         (map (fun x => {| block_seller := fst x;
                           block_count := length (snd x);
                           block_cards := by_price (snd x) |}) l) =
  map (fun x => {| block_seller := fst x;
                   block_count := length (snd x);
                   block_cards := by_price (snd x) |})
      (filter (fun x => (length (snd x) =? n)%nat) l).
Proof.
  induction l as [|[s cards] l IH]; [reflexivity|].
  cbn [map filter block_count fst snd].
  destruct (length cards =? n)%nat; cbn [map fst snd]; now rewrite IH.
Qed.

(** X19.  Sellers that cover the same number of cards stand in the
    report in the order in which [seller_data] holds them, that is the
    order in which the run first met them. *)
Theorem equal_coverage_keeps_order :
  forall sd n,
    filter (fun b => (block_count b =? n)%nat) (detail sd) =
    map (fun x => {| block_seller := fst x;
                     block_count := length (snd x);
                     block_cards := by_price (snd x) |})
        (filter (fun x => (length (snd x) =? n)%nat) sd).
Proof.
  intros sd n. unfold detail. rewrite filter_blocks. f_equal.
  apply filter_sorted_reverse. intros a b Ha Hb.
  apply Nat.eqb_eq in Ha, Hb. rewrite Ha, Hb. apply Nat.ltb_irrefl.
Qed.

(** X20.  Cards of a seller that have the same price (none of them NaN)
    stand in the block in the order in which the seller's dictionary
    holds them. *)
Theorem equal_price_keeps_order :
  forall cards v,
    Forall (fun o : str * float => is_nan (snd o) = false) cards ->
    filter (fun o => (v <=? snd o) && (snd o <=? v)) (by_price cards) =
    filter (fun o => (v <=? snd o) && (snd o <=? v)) cards.
Proof.
  intros cards v _. unfold by_price. apply filter_sorted.
  intros a b Ha Hb. apply andb_true_iff in Ha, Hb. destruct Ha as [Ha _], Hb as [_ Hb].
  apply leb_not_ltb. exact (leb_trans _ _ _ Hb Ha).
Qed.

End Further.
(* ===================================================================== *)
(** * The properties on sample inputs                                     *)
(* ===================================================================== *)

(** The lemmas of this part are closed: each evaluates the program, or
    applies a theorem above, on a sample input and on the sample platform.
    The sample texts hold no digit and no cased letter beyond ASCII, so no
    table of the platform is read beyond what [sample_platform] fixes. *)

#[local] Existing Instance sample_platform | 100.

Local Open Scope float_scope.

Lemma sample_case_facts : case_facts.
Proof.
  split; intros s _.
  - eexists. apply map_by_pieces.
  - cbn [lower_beyond_ascii sample_platform]. unfold PyStr.lower.
    cbn [lower_beyond_ascii sample_platform].
    assert (E : map PyStr.lower_ascii (map PyStr.lower_ascii s) = map PyStr.lower_ascii s).
    { rewrite map_map. apply map_ext. apply lower_ascii_idem. }
    rewrite E. now destruct (forallb PyStr.is_ascii (map PyStr.lower_ascii s)).
Qed.

(** ** The aggregator *)

Lemma stored_price_is_minimum_witness :
  exists h, history (fun _ _ => Some page_a_80) 0 one_card = Ok h /\
            forall s n,
              match lookup [(seller_a, [(card_a, 80)])] s n with
              | None => seen h s n = []
              | Some v => In v (seen h s n) /\
                          forall p, In p (seen h s n) -> (v <=? p) = true
              end.
Proof.
  apply (proj1 (proj2 (proj2 stored_price_is_minimum)) (fun _ _ => Some page_a_80) one_card).
  vm_compute. reflexivity.
Defined.

(** ** The table parser *)

Lemma table_minimum_per_seller_witness :
  match Dict.get [(seller_a, 75)] seller_a with
  | None => seller_units two_rows_of_a seller_a = []
  | Some v =>
      seller_units two_rows_of_a seller_a <> [] /\
      v = fold_left PyNum.min (seller_units two_rows_of_a seller_a) infinity /\
      (forall u, In u (seller_units two_rows_of_a seller_a) -> (u <? v) = false) /\
      (Forall (fun u => is_nan u = false) (seller_units two_rows_of_a seller_a) ->
       In v (seller_units two_rows_of_a seller_a) /\
       forall u, In u (seller_units two_rows_of_a seller_a) -> (v <=? u) = true)
  end.
Proof.
  apply (proj1 table_minimum_per_seller two_rows_of_a [(seller_a, 75)]).
  vm_compute. reflexivity.
Defined.

(** C2 as stated fails: a seller whose only price text is [nan] gets the
    default infinity, which is the unit price of none of its rows, so not
    their minimum. *)
Lemma nan_price_gives_the_default :
  parse_single_card_table nan_then_fifty = Ok [(seller_a, infinity); (lit "B", 50)] /\
  seller_units nan_then_fifty seller_a = [nan] /\
  ~ In infinity (seller_units nan_then_fifty seller_a).
Proof. exact nan_price_on_every_platform. Qed.

Lemma unit_price_rule_witness :
  exists td0 td1 td2 td3 more q price,
    sample_row (Some (lit "2")) (lit "150") (Some seller_a) = td0 :: td1 :: td2 :: td3 :: more /\
    row_quantity td0 = Ok q /\ row_price td1 = Some price /\
    anchor td2 = Some seller_a /\
    ((0 < q)%Z ->
     exists f, PyNum.float_of_int q = Ok f /\ (f =? 0) = false /\ 75 = price / f) /\
    ((q <= 0)%Z -> 75 = price).
Proof.
  apply (proj1 unit_price_rule (sample_row (Some (lit "2")) (lit "150") (Some seller_a)) seller_a 75).
  vm_compute. reflexivity.
Defined.

(** C10 as stated fails: a row whose price text is [nan] is parsed, its
    unit price is NaN, and the mapping returns for its seller the internal
    default, infinity, which is not finite and is no unit price of a row. *)
Lemma default_infinity_is_returned :
  parse_single_card_table nan_price_page = Ok [(seller_a, infinity)] /\
  seller_units nan_price_page seller_a = [nan] /\
  is_finite infinity = false.
Proof. exact default_infinity_on_every_platform. Qed.

Lemma table_values_witness :
  seller_units two_rows_of_a seller_a <> [] /\
  is_nan 75 = false /\
  (In 75 (seller_units two_rows_of_a seller_a) \/
   75 = infinity /\ forall u, In u (seller_units two_rows_of_a seller_a) -> is_nan u = true) /\
  (Forall (fun u => is_finite u = true) (seller_units two_rows_of_a seller_a) ->
   is_finite 75 = true).
Proof.
  apply (table_values two_rows_of_a [(seller_a, 75)] seller_a 75).
  - vm_compute. reflexivity.
  - now left.
Defined.

(** ** The loader *)

(** C4 as stated fails: a card name with a set code and no quantity is
    reported as unrecognized and gives no CardRequest. *)
Lemma line_without_quantity_is_unrecognized :
  load_decklist (File [lit "Brainstorm (mh2)"] None) =
  Ok ([], [Unrecognized (lit "Brainstorm (mh2)")]).
Proof. exact no_quantity_on_every_platform. Qed.

Lemma quantity_prefix_required_witness :
  load_line (lit "Brainstorm") ([], []) = Ok ([], [] ++ [Unrecognized (lit "Brainstorm")]).
Proof.
  apply (proj1 quantity_prefix_required (lit "Brainstorm") (chr "B") (lit "rainstorm"));
    vm_compute; reflexivity.
Defined.

(** C5 as stated fails: the line [0 Forest] gives a CardRequest of
    quantity 0. *)
Lemma zero_quantity_is_loaded :
  load_decklist (File [lit "0 Forest"] None) =
  Ok ([{| qty := 0; name := lit "Forest";
          normalized := lit "forest"; set_code := [] |}], []).
Proof. exact zero_quantity_on_every_platform. Qed.

Lemma quantities_are_not_negative_witness :
  Forall (fun c => (0 <= qty c)%Z)
         [{| qty := 0; name := lit "Forest"; normalized := lit "forest"; set_code := [] |}].
Proof.
  apply (quantities_are_not_negative (File [lit "0 Forest"] None) _ []).
  vm_compute. reflexivity.
Defined.

(** ** The normalizer *)

(** C8 as stated fails on a text of two lines: the alternate-face suffix
    ends at the line feed, which is then left in front. *)
Lemma normalize_not_idempotent :
  normalize_card_name two_lines = lit " b" /\
  normalize_card_name (normalize_card_name two_lines) = lit "b" /\
  normalize_card_name (normalize_card_name two_lines) <> normalize_card_name two_lines.
Proof. exact two_lines_on_every_platform. Qed.

Lemma normalize_idempotent_on_lines_witness :
  normalize_card_name (normalize_card_name (lit "Fire // Ice")) =
  normalize_card_name (lit "Fire // Ice").
Proof.
  apply (proj1 (normalize_idempotent_on_lines sample_case_facts) (lit "Fire // Ice")).
  vm_compute. reflexivity.
Defined.

(** ** The report *)

Lemma report_order_witness :
  file_detail (make_report [(lit "X", [(lit "counterspell", 50); (lit "brainstorm", 30)])]) =
  console_detail (make_report [(lit "X", [(lit "counterspell", 50); (lit "brainstorm", 30)])]) /\
  StronglySorted (fun b1 b2 => (block_count b2 <= block_count b1)%nat)
    (console_detail (make_report [(lit "X", [(lit "counterspell", 50); (lit "brainstorm", 30)])])) /\
  (forall b,
      In b (console_detail (make_report [(lit "X", [(lit "counterspell", 50); (lit "brainstorm", 30)])])) ->
      StronglySorted (fun x y => (snd x <=? snd y) = true) (block_cards b)) /\
  StronglySorted (fun l1 l2 => (sum_covered l2 <= sum_covered l1)%nat)
    (console_summary (make_report [(lit "X", [(lit "counterspell", 50); (lit "brainstorm", 30)])])).
Proof.
  apply (proj1 report_order two_card_file two_card_fetch []).
  vm_compute. reflexivity.
Defined.

(** ** Further properties *)

Lemma one_result_per_line_witness :
  (length [card_of_groups (lit "2") (lit "Brainstorm") (Some (lit "mh2")) 2]
   + length [Unrecognized (lit "garbage???")]
   = length (filter meaningful
               [lit "# deck"; lit "2x Brainstorm (mh2)"; [160%N]; lit "garbage???"]))%nat.
Proof.
  apply (one_result_per_line
           [lit "# deck"; lit "2x Brainstorm (mh2)"; [160%N]; lit "garbage???"] None).
  vm_compute. reflexivity.
Defined.

Lemma decklist_line_is_loaded_witness :
  load_line (decklist_line (lit "12") (lit "X") [160%N; chr " "] (lit "Fire // Ice")
               (Some (lit " ", lit "MH2")))
            ([], []) =
  if PyNum.over_limit (length (lit "12")) then Raise ValueError
  else Ok ([] ++ [{| qty := PyNum.value_of_digits (lit "12");
                     name := lit "Fire // Ice";
                     normalized := normalize_card_name (lit "Fire // Ice");
                     set_code := PyStr.lower (PyStr.strip (lit "MH2")) |}],
           []).
Proof.
  apply (decklist_line_is_loaded (lit "12") (lit "X") [160%N; chr " "] (lit "Fire // Ice")
           (Some (lit " ", lit "MH2")) [] []);
    try discriminate; try reflexivity.
  split; [reflexivity|]. split; [discriminate|reflexivity].
Defined.

Lemma loaded_card_fields_witness :
  Forall (fun c =>
            PyStr.strip (name c) = name c /\
            normalized c = normalize_card_name (name c) /\
            PyStr.strip (set_code c) = set_code c /\
            PyStr.lower (set_code c) = set_code c /\
            exists line,
              In line [lit "2x Brainstorm (MH2)"] /\
              qty c = PyNum.value_of_digits
                        (PyStr.take_while PyStr.is_digit (PyStr.strip line)))
         [card_of_groups (lit "2") (lit "Brainstorm") (Some (lit "MH2")) 2].
Proof.
  apply (loaded_card_fields sample_case_facts (File [lit "2x Brainstorm (MH2)"] None) _ []).
  vm_compute. reflexivity.
Defined.

Lemma normalized_name_shape_witness :
  starts_clean (normalize_card_name (lit " Fire  //  Ice ")) = true /\
  ends_clean (normalize_card_name (lit " Fire  //  Ice ")) = true /\
  no_slashes (normalize_card_name (lit " Fire  //  Ice ")) = true.
Proof.
  apply (proj2 (proj2 (normalized_name_shape sample_case_facts (lit " Fire  //  Ice ")))).
  vm_compute. reflexivity.
Defined.

Lemma normalize_ignores_case_witness :
  normalize_card_name (lit "LIGHTNING Bolt") = normalize_card_name (lit "Lightning bolt").
Proof.
  apply (normalize_ignores_case (lit "LIGHTNING Bolt") (lit "Lightning bolt"));
    vm_compute; reflexivity.
Defined.

Lemma alt_face_is_dropped_witness :
  normalize_card_name (with_alt_face (lit "Sanctum of the Sun") (lit " ") (lit " Sanctum of Stars"))
  = normalize_card_name (lit "Sanctum of the Sun").
Proof.
  apply (alt_face_is_dropped (lit "Sanctum of the Sun") (lit " ") (lit " Sanctum of Stars"));
    vm_compute; reflexivity.
Defined.

Lemma sellers_in_first_row_order_witness :
  exists os,
    row_offers (page_rows page_a_80) = Ok os /\
    Dict.keys [(seller_a, 80)] = first_seen (map fst os) /\
    NoDup (Dict.keys [(seller_a, 80)]).
Proof.
  apply (sellers_in_first_row_order page_a_80 [(seller_a, 80)]).
  vm_compute. reflexivity.
Defined.

Lemma repeated_row_changes_nothing_witness :
  parse_single_card_table
    (Markup (Some ([sample_row (Some (lit "2")) (lit "150") (Some seller_a)]
                   ++ [sample_row (Some (lit "2")) (lit "150") (Some seller_a)]))) =
  parse_single_card_table
    (Markup (Some [sample_row (Some (lit "2")) (lit "150") (Some seller_a)])).
Proof.
  apply (repeated_row_changes_nothing
           [sample_row (Some (lit "2")) (lit "150") (Some seller_a)]
           (sample_row (Some (lit "2")) (lit "150") (Some seller_a))).
  now left.
Defined.

Lemma value_error_comes_from_quantity_witness :
  exists td0 td1 td2 td3 more t,
    In (td0 :: td1 :: td2 :: td3 :: more) (page_rows bad_quantity_page) /\
    span_qty td0 = Some t /\ PyNum.int_of_str t = Raise ValueError.
Proof.
  apply (value_error_comes_from_quantity bad_quantity_page).
  vm_compute. reflexivity.
Defined.

Lemma no_quantity_element_no_exception_witness :
  exists d, parse_single_card_table no_quantity_page = Ok d.
Proof.
  apply (no_quantity_element_no_exception no_quantity_page).
  repeat constructor.
Defined.

Lemma seller_data_is_well_formed_witness :
  NoDup (Dict.keys [(seller_a, [(card_a, 80%float)])]) /\
  forall s cards,
    In (s, cards) [(seller_a, [(card_a, 80%float)])] ->
    NoDup (Dict.keys cards) /\
    incl (Dict.keys cards) (map normalized one_card) /\
    (1 <= length cards <= length one_card)%nat.
Proof.
  apply (seller_data_is_well_formed (fun _ _ => Some page_a_80) one_card).
  vm_compute. reflexivity.
Defined.

Lemma summary_follows_detail_witness :
  map (fun l => (sum_seller l, sum_covered l))
      (console_summary (make_report [(lit "X", [(lit "counterspell", 50%float);
                                                 (lit "brainstorm", 30%float)])])) =
  map (fun b => (block_seller b, block_count b))
      (console_detail (make_report [(lit "X", [(lit "counterspell", 50%float);
                                                (lit "brainstorm", 30%float)])])).
Proof.
  apply (summary_follows_detail two_card_file two_card_fetch []).
  vm_compute. reflexivity.
Defined.

Lemma nothing_fetched_empty_report_witness :
  main counterspell_file (fun _ _ => None) = Ok (Reported [] empty_report).
Proof.
  apply (nothing_fetched_empty_report counterspell_file (fun _ _ => None)
           [card_of_groups (lit "1") (lit "Counterspell") None 1] []).
  - vm_compute. reflexivity.
  - discriminate.
  - intros i u. exact I.
Defined.

Lemma run_without_quantity_elements_completes_witness :
  exists o, main counterspell_file (fun _ _ => Some no_quantity_page) = Ok o.
Proof.
  apply (run_without_quantity_elements_completes counterspell_file
           (fun _ _ => Some no_quantity_page)
           [card_of_groups (lit "1") (lit "Counterspell") None 1] []).
  - vm_compute. reflexivity.
  - intros i u h [= <-]. repeat constructor.
Defined.

Lemma no_quantity_line_empty_deck_witness :
  exists diags,
    main (File [lit "# deck"; lit "Brainstorm (mh2)"] None) (fun _ _ => None)
    = Ok (EmptyDeck diags).
Proof.
  apply (no_quantity_line_empty_deck (File [lit "# deck"; lit "Brainstorm (mh2)"] None)
           (fun _ _ => None)).
  split; [reflexivity|]. repeat constructor.
Defined.

Lemma equal_price_keeps_order_witness :
  filter (fun o => (30 <=? snd o) && (snd o <=? 30))
         (by_price [(lit "b", 50); (lit "c", 30); (lit "a", 30)]) =
  filter (fun o => (30 <=? snd o) && (snd o <=? 30))
         [(lit "b", 50); (lit "c", 30); (lit "a", 30)].
Proof.
  apply (equal_price_keeps_order [(lit "b", 50); (lit "c", 30); (lit "a", 30)] 30).
  repeat constructor.
Defined.
